(** * The request-body encoder of [src/core/network/client.ts]

    A shallow embedding of the Telegram API client's payload encoder:
    the structural scan [includesMedia], the JSON builder
    [buildJSONConfig] with its [replacer], the multipart builder
    [buildFormDataConfig] with [attachFormValue] and [attachFormMedia],
    the webhook reply [answerToWebhook] and the error filter
    [redactToken].

    JavaScript values are a tree-shaped inductive type; exceptions are a
    [result]; the multipart form, the random identifiers drawn and the
    webhook response are threaded through a small state-and-error monad.
    The file system, the network and the random source are a [World]
    record the functions read from. *)

From Stdlib Require Import String Ascii List ZArith Bool Arith Lia.
From Stdlib Require Import DecimalString DecimalZ DecimalPos.
Import ListNotations.
Open Scope string_scope.

(** ** Results *)

(** The two file-system calls of the client. *)
Inductive fs_call : Type :=
| Realpath
| Stat.

Inductive error : Type :=
| JsTypeError
    (* a TypeError thrown by the language itself: a property read on
       null or undefined, [in] applied to a primitive, destructuring
       null or undefined *)
| NotAFile (source : string)
    (* [new TypeError(`Unable to upload '${media.source}', not a file`)] *)
| FsError (call : fs_call) (code : string) (path : string)
    (* what a rejected [realpath] or [stat] promise rejects with: the
       error of the file system, with its [code] ([ENOENT] for a
       path that does not exist) *)
| FetchError.
    (* a rejected [fetch] promise *)

Inductive result (A : Type) : Type :=
| Ok (a : A)
| Err (e : error).
Arguments Ok {A} a.
Arguments Err {A} e.

Definition rbind {A B} (r : result A) (f : A -> result B) : result B :=
  match r with
  | Ok a => f a
  | Err e => Err e
  end.

Declare Scope result_scope.
Delimit Scope result_scope with result.
Notation "'let?' x ':=' r 'in' k" := (rbind r (fun x => k))
  (at level 10, x name, r at level 100, k at level 200) : result_scope.

(** [a && b] and [a || b] on possibly throwing operands: the right
    operand is evaluated only when the left one does not decide. *)
Definition rand_ (a b : result bool) : result bool :=
  match a with
  | Ok true => b
  | Ok false => Ok false
  | Err e => Err e
  end.

Definition ror_ (a b : result bool) : result bool :=
  match a with
  | Ok true => Ok true
  | Ok false => b
  | Err e => Err e
  end.

Infix "&&&" := rand_ (at level 40, left associativity) : result_scope.
Infix "|||" := ror_ (at level 50, left associativity) : result_scope.

Open Scope result_scope.

(** ** Texts *)

Module Text.

Definition is_digit (c : ascii) : bool :=
  let n := nat_of_ascii c in Nat.leb 48 n && Nat.leb n 57.

(** The longest prefix whose characters satisfy [p], and the rest. *)
Fixpoint span (p : ascii -> bool) (s : string) : string * string :=
  match s with
  | EmptyString => ("", "")
  | String c r =>
      if p c then let '(a, b) := span p r in (String c a, b)
      else ("", s)
  end.

(** What follows a prefix. *)
Fixpoint strip_prefix (pre s : string) : option string :=
  match pre, s with
  | EmptyString, _ => Some s
  | String a pre', String b s' =>
      if Ascii.eqb a b then strip_prefix pre' s' else None
  | String _ _, EmptyString => None
  end.

(** All characters of a text satisfy [p]. *)
Fixpoint all_chars (p : ascii -> bool) (s : string) : bool :=
  match s with
  | EmptyString => true
  | String c r => p c && all_chars p r
  end.

(** A text does not go on with a character satisfying [p]. *)
Definition stops (p : ascii -> bool) (s : string) : Prop :=
  match s with
  | EmptyString => True
  | String c _ => p c = false
  end.

End Text.
Import Text.

(** ** Numbers *)

(** A number of the language is a double: a finite decimal, negative
    zero, NaN or an infinity.  Every finite double is given by the
    decimal Number::toString prints it as; the client never computes
    with a number, so which decimals are doubles plays no part. *)
Module Number.

(** The decimal notation of an integer. *)
Definition string_of_Z (n : Z) : string :=
  NilZero.string_of_int (Z.to_int n).

Inductive digit : Type :=
| d0 | d1 | d2 | d3 | d4 | d5 | d6 | d7 | d8 | d9.

Inductive nonzero : Type :=
| n1 | n2 | n3 | n4 | n5 | n6 | n7 | n8 | n9.

Definition digit_of (d : nonzero) : digit :=
  match d with
  | n1 => d1 | n2 => d2 | n3 => d3 | n4 => d4 | n5 => d5
  | n6 => d6 | n7 => d7 | n8 => d8 | n9 => d9
  end.

Definition nonzero_of (d : digit) : option nonzero :=
  match d with
  | d0 => None
  | d1 => Some n1 | d2 => Some n2 | d3 => Some n3 | d4 => Some n4
  | d5 => Some n5 | d6 => Some n6 | d7 => Some n7 | d8 => Some n8
  | d9 => Some n9
  end.

Definition char_of (d : digit) : ascii :=
  match d with
  | d0 => "0" | d1 => "1" | d2 => "2" | d3 => "3" | d4 => "4"
  | d5 => "5" | d6 => "6" | d7 => "7" | d8 => "8" | d9 => "9"
  end%char.

Definition digit_of_char (c : ascii) : digit :=
  match nat_of_ascii c - 48 with
  | 0 => d0 | 1 => d1 | 2 => d2 | 3 => d3 | 4 => d4
  | 5 => d5 | 6 => d6 | 7 => d7 | 8 => d8 | _ => d9
  end.

(** The digits of a significand: the first and the last are not
    zero. *)
Inductive mantissa : Type :=
| Single (d : nonzero)
| Several (first : nonzero) (middle : list digit) (last : nonzero).

Definition digits (m : mantissa) : list digit :=
  match m with
  | Single d => [digit_of d]
  | Several f middle l => digit_of f :: middle ++ [digit_of l]
  end.

(** A finite number: zero, or [0.d1...dk * 10^n] with its sign, where
    [d1...dk] are the digits of the significand.  These are the
    [s], [k] and [n] of Number::toString. *)
Inductive decimal : Type :=
| DZero
| DNum (negative : bool) (m : mantissa) (n : Z).

Inductive number : Type :=
| Fin (x : decimal)
| NegZero
| NaN
| Inf (negative : bool).

Fixpoint text_of_digits (l : list digit) : string :=
  match l with
  | [] => ""
  | d :: r => String (char_of d) (text_of_digits r)
  end.

Definition zeros (n : nat) : string := text_of_digits (repeat d0 n).

(** The exponent part: a sign and the decimal digits. *)
Definition exponent_text (e : Z) : string :=
  (if (e <? 0)%Z then "-" else "+") ++ string_of_Z (Z.abs e).

(** Number::toString(x, 10) for a positive finite [x]. *)
Definition unsigned_text (m : mantissa) (n : Z) : string :=
  let ds := digits m in
  let k := Z.of_nat (List.length ds) in
  if (k <=? n)%Z && (n <=? 21)%Z then
    text_of_digits ds ++ zeros (Z.to_nat (n - k))
  else if (0 <? n)%Z && (n <=? 21)%Z then
    text_of_digits (firstn (Z.to_nat n) ds) ++ "."
    ++ text_of_digits (skipn (Z.to_nat n) ds)
  else if (-6 <? n)%Z && (n <=? 0)%Z then
    "0." ++ zeros (Z.to_nat (- n)) ++ text_of_digits ds
  else
    match ds with
    | d :: (_ :: _) as r =>
        String (char_of d)
          ("." ++ text_of_digits r ++ "e" ++ exponent_text (n - 1))
    | _ => text_of_digits ds ++ "e" ++ exponent_text (n - 1)
    end.

Definition decimal_text (x : decimal) : string :=
  match x with
  | DZero => "0"
  | DNum negative m n =>
      (if negative then "-" else "") ++ unsigned_text m n
  end.

(** Number::toString *)
Definition number_text (x : number) : string :=
  match x with
  | Fin d => decimal_text d
  | NegZero => "0"
  | NaN => "NaN"
  | Inf false => "Infinity"
  | Inf true => "-Infinity"
  end.

(** *** Reading a number *)

Fixpoint digits_of_text (s : string) : list digit :=
  match s with
  | EmptyString => []
  | String c r => digit_of_char c :: digits_of_text r
  end.

(** Leading zeros: how many, and what follows them. *)
Fixpoint drop_zeros (l : list digit) : nat * list digit :=
  match l with
  | d0 :: r => let '(z, r') := drop_zeros r in (S z, r')
  | _ => (0, l)
  end.

(** The significand whose digits are [l] without its trailing zeros,
    for an [l] that begins with a digit other than zero. *)
Definition mantissa_of (l : list digit) : option mantissa :=
  match l with
  | [] => None
  | d :: r =>
      match nonzero_of d with
      | None => None
      | Some f =>
          match snd (drop_zeros (rev r)) with
          | [] => Some (Single f)
          | x :: t =>
              match nonzero_of x with
              | Some l => Some (Several f (rev t) l)
              | None => None
              end
          end
      end
  end.

(** The number with the digits [l], the decimal point after the
    first [point] of them. *)
Definition decimal_of_digits (negative : bool) (l : list digit) (point : Z)
  : option decimal :=
  let '(z, r) := drop_zeros l in
  match r with
  | [] => Some DZero
  | _ =>
      match mantissa_of r with
      | Some m => Some (DNum negative m (point - Z.of_nat z))
      | None => None
      end
  end.

(** An integer: an optional minus sign and decimal digits. *)
Definition parse_integer (s : string) : option (Z * string) :=
  match s with
  | String "-" r =>
      let '(ds, rest) := span is_digit r in
      if ds =? "" then None
      else
        match NilZero.uint_of_string ds with
        | Some d => Some (Z.of_int (Decimal.Neg d), rest)
        | None => None
        end
  | _ =>
      let '(ds, rest) := span is_digit s in
      if ds =? "" then None
      else
        match NilZero.uint_of_string ds with
        | Some d => Some (Z.of_int (Decimal.Pos d), rest)
        | None => None
        end
  end.

(** The fraction of a number's text, if it has one: its digits and
    what follows. *)
Definition parse_fraction (s : string) : option (string * string) :=
  match s with
  | String "." r =>
      let '(f, rest) := span is_digit r in
      if f =? "" then None else Some (f, rest)
  | _ => Some ("", s)
  end.

(** The exponent part of a number's text, if it has one. *)
Definition parse_exponent (s : string) : option (Z * string) :=
  match s with
  | String c r =>
      if (Ascii.eqb c "e" || Ascii.eqb c "E")%bool then
        match r with
        | String "+" r' =>
            match r' with
            | String "-" _ => None
            | _ => parse_integer r'
            end
        | _ => parse_integer r
        end
      else Some (0%Z, s)
  | EmptyString => Some (0%Z, s)
  end.

(** The characters that may go on a number's text. *)
Definition number_char (c : ascii) : bool :=
  is_digit c || Ascii.eqb c "." || Ascii.eqb c "e" || Ascii.eqb c "E".

(** A number of the JSON grammar after its sign: integer part,
    fraction, exponent. *)
Definition parse_unsigned (negative : bool) (s : string)
  : option (decimal * string) :=
  let '(ip, s2) := span is_digit s in
  if ip =? "" then None
  else
    match parse_fraction s2 with
    | None => None
    | Some (fp, s3) =>
        match parse_exponent s3 with
        | None => None
        | Some (e, rest) =>
            match decimal_of_digits negative (digits_of_text (ip ++ fp))
                    (Z.of_nat (String.length ip) + e) with
            | Some x => Some (x, rest)
            | None => None
            end
        end
    end.

(** A number of the JSON grammar, read exactly: the texts
    Number::toString writes for a double denote that double. *)
Definition parse_number (s : string) : option (decimal * string) :=
  match s with
  | String "-" r => parse_unsigned true r
  | _ => parse_unsigned false s
  end.

(** The number an integer is. *)
Definition decimal_of_Z (z : Z) : decimal :=
  let ds := digits_of_text (string_of_Z (Z.abs z)) in
  match decimal_of_digits (z <? 0)%Z ds (Z.of_nat (List.length ds)) with
  | Some x => x
  | None => DZero
  end.

Definition of_Z (z : Z) : number := Fin (decimal_of_Z z).

End Number.
Import Number.

(** ** JavaScript values *)

Module JS.

(** Byte streams are opaque handles. *)
Inductive stream : Type :=
| FileStream (path : string)   (* [fs.createReadStream(path)] *)
| ResponseBody (n : nat)       (* [res.body] of a fetched response *)
| UserStream (n : nat).        (* a stream handed in by the caller *)

(** The values a payload is built from; an object lists its own
    enumerable properties in enumeration order. *)
Unset Elimination Schemes.
Inductive value : Type :=
| VUndefined
| VNull
| VBool (b : bool)
| VNum (n : number)
| VStr (s : string)
| VArr (items : list value)
| VObj (props : list (string * value))
| VBuffer (bytes : list Byte.byte)
| VStream (s : stream).
Set Elimination Schemes.

(** An integer literal stands for the number it denotes. *)
Coercion of_Z : Z >-> number.
Arguments VNum n%_Z.

Definition object := list (string * value).

Section ValueInd.
Variable P : value -> Prop.
Hypothesis Hundef : P VUndefined.
Hypothesis Hnull : P VNull.
Hypothesis Hbool : forall b, P (VBool b).
Hypothesis Hnum : forall n, P (VNum n).
Hypothesis Hstr : forall s, P (VStr s).
Hypothesis Harr : forall items, Forall P items -> P (VArr items).
Hypothesis Hobj :
  forall props, Forall (fun kv => P (snd kv)) props -> P (VObj props).
Hypothesis Hbuf : forall bytes, P (VBuffer bytes).
Hypothesis Hstream : forall s, P (VStream s).

Fixpoint value_ind' (v : value) : P v :=
  match v with
  | VUndefined => Hundef
  | VNull => Hnull
  | VBool b => Hbool b
  | VNum n => Hnum n
  | VStr s => Hstr s
  | VArr items =>
      Harr items
        ((fix go (l : list value) : Forall P l :=
            match l with
            | [] => Forall_nil P
            | x :: r => Forall_cons x (value_ind' x) (go r)
            end) items)
  | VObj props =>
      Hobj props
        ((fix go (l : list (string * value))
           : Forall (fun kv => P (snd kv)) l :=
            match l with
            | [] => Forall_nil _
            | kv :: r => Forall_cons kv (value_ind' (snd kv)) (go r)
            end) props)
  | VBuffer bytes => Hbuf bytes
  | VStream s => Hstream s
  end.
End ValueInd.

(** [typeof] *)
Inductive type_tag : Type :=
| TUndefined | TObject | TBoolean | TNumber | TString.

Definition typeof (v : value) : type_tag :=
  match v with
  | VUndefined => TUndefined
  | VNull => TObject
  | VBool _ => TBoolean
  | VNum _ => TNumber
  | VStr _ => TString
  | VArr _ | VObj _ | VBuffer _ | VStream _ => TObject
  end.

Definition type_tag_eqb (a b : type_tag) : bool :=
  match a, b with
  | TUndefined, TUndefined | TObject, TObject | TBoolean, TBoolean
  | TNumber, TNumber | TString, TString => true
  | _, _ => false
  end.

(** [v == null] *)
Definition nullish (v : value) : bool :=
  match v with
  | VUndefined | VNull => true
  | _ => false
  end.

(** ToBoolean *)
Definition truthy (v : value) : bool :=
  match v with
  | VUndefined | VNull => false
  | VBool b => b
  | VNum (Fin DZero) | VNum NegZero | VNum NaN => false
  | VNum _ => true
  | VStr s => negb (s =? "")
  | VArr _ | VObj _ | VBuffer _ | VStream _ => true
  end.

Definition isArray (v : value) : bool :=
  match v with
  | VArr _ => true
  | _ => false
  end.

(** Own-property lookup in an object. *)
Fixpoint lookup (k : string) (o : object) : option value :=
  match o with
  | [] => None
  | (k', v) :: r => if k' =? k then Some v else lookup k r
  end.

Definition keys (o : object) : list string := map fst o.

(** [o[k] = v] for a string key that is not an array index: an
    existing property keeps its place, a new one goes last. *)
Fixpoint set (k : string) (v : value) (o : object) : object :=
  match o with
  | [] => [(k, v)]
  | (k', v') :: r => if k' =? k then (k', v) :: r else (k', v') :: set k v r
  end.

(** [v.k] for the data properties the client reads ([media],
    [source], [url], [filename], [thumb], [thumbnail], [type] and the
    payload's fields): they are own properties of plain objects
    only; strings, arrays, buffers and streams have none of them. *)
Definition get (v : value) (k : string) : result value :=
  match v with
  | VUndefined | VNull => Err JsTypeError
  | VObj o =>
      match lookup k o with
      | Some x => Ok x
      | None => Ok VUndefined
      end
  | _ => Ok VUndefined
  end.

(** [k in v], for the same property names. *)
Definition has_in (k : string) (v : value) : result bool :=
  match v with
  | VObj o =>
      match lookup k o with
      | Some _ => Ok true
      | None => Ok false
      end
  | VArr _ | VBuffer _ | VStream _ => Ok false
  | _ => Err JsTypeError
  end.

(** Template-literal conversion [`${v}`]: an array joins the
    conversions of its elements, nullish ones counting as empty; a
    buffer gives its bytes as text (exact for ASCII content). *)
Fixpoint to_string (v : value) : string :=
  match v with
  | VStr s => s
  | VBool true => "true"
  | VBool false => "false"
  | VNum n => number_text n
  | VUndefined => "undefined"
  | VNull => "null"
  | VArr items =>
      String.concat ","
        (map (fun x => if nullish x then "" else to_string x) items)
  | VBuffer bytes => string_of_list_ascii (map ascii_of_byte bytes)
  | VObj _ | VStream _ => "[object Object]"
  end.

(** [Array.prototype.some] with a callback that may throw. *)
Fixpoint some {A} (f : A -> result bool) (l : list A) : result bool :=
  match l with
  | [] => Ok false
  | x :: r =>
      let? b := f x in
      if b then Ok true else some f r
  end.

End JS.
Import JS.

(** ** JSON documents and [JSON.stringify] *)

Module Json.

Unset Elimination Schemes.
Inductive json : Type :=
| JNull
| JBool (b : bool)
| JNum (n : decimal)
| JStr (s : string)
| JArr (items : list json)
| JObj (members : list (string * json)).
Set Elimination Schemes.

Section JsonInd.
Variable P : json -> Prop.
Hypothesis Hnull : P JNull.
Hypothesis Hbool : forall b, P (JBool b).
Hypothesis Hnum : forall n, P (JNum n).
Hypothesis Hstr : forall s, P (JStr s).
Hypothesis Harr : forall items, Forall P items -> P (JArr items).
Hypothesis Hobj :
  forall ms, Forall (fun kv => P (snd kv)) ms -> P (JObj ms).

Fixpoint json_ind' (j : json) : P j :=
  match j with
  | JNull => Hnull
  | JBool b => Hbool b
  | JNum n => Hnum n
  | JStr s => Hstr s
  | JArr items =>
      Harr items
        ((fix go (l : list json) : Forall P l :=
            match l with
            | [] => Forall_nil P
            | x :: r => Forall_cons x (json_ind' x) (go r)
            end) items)
  | JObj ms =>
      Hobj ms
        ((fix go (l : list (string * json))
           : Forall (fun kv => P (snd kv)) l :=
            match l with
            | [] => Forall_nil _
            | kv :: r => Forall_cons kv (json_ind' (snd kv)) (go r)
            end) ms)
  end.
End JsonInd.

(** *** Text of a document *)

Definition dquote : string := String "034"%char EmptyString.

Definition hex_digit (n : nat) : ascii :=
  ascii_of_nat (if Nat.ltb n 10 then 48 + n else 87 + n).

(** QuoteJSONString, one code unit at a time. *)
Definition escape_char (c : ascii) : string :=
  let n := nat_of_ascii c in
  if Nat.eqb n 34 then "\" ++ dquote
  else if Nat.eqb n 92 then "\\"
  else if Nat.eqb n 8 then "\b"
  else if Nat.eqb n 9 then "\t"
  else if Nat.eqb n 10 then "\n"
  else if Nat.eqb n 12 then "\f"
  else if Nat.eqb n 13 then "\r"
  else if Nat.ltb n 32 then
    "\u00" ++ String (hex_digit (n / 16)) (String (hex_digit (n mod 16)) "")
  else String c "".

Fixpoint escape (s : string) : string :=
  match s with
  | EmptyString => ""
  | String c r => escape_char c ++ escape r
  end.

Definition quote (s : string) : string := dquote ++ escape s ++ dquote.

Fixpoint render (j : json) : string :=
  match j with
  | JNull => "null"
  | JBool true => "true"
  | JBool false => "false"
  | JNum n => decimal_text n
  | JStr s => quote s
  | JArr items => "[" ++ String.concat "," (map render items) ++ "]"
  | JObj ms =>
      "{" ++ String.concat ","
               (map (fun kv => quote (fst kv) ++ ":" ++ render (snd kv)) ms)
          ++ "}"
  end.

(** The value [JSON.parse] builds from the text of a document. *)
Fixpoint value_of_json (j : json) : value :=
  match j with
  | JNull => VNull
  | JBool b => VBool b
  | JNum n => VNum (Fin n)
  | JStr s => VStr s
  | JArr items => VArr (map value_of_json items)
  | JObj ms => VObj (map (fun kv => (fst kv, value_of_json (snd kv))) ms)
  end.

(** *** Reading a text back: [JSON.parse], for texts without
    insignificant white space *)

Definition hex_value (c : ascii) : option nat :=
  let n := nat_of_ascii c in
  if Nat.leb 48 n && Nat.leb n 57 then Some (n - 48)
  else if Nat.leb 97 n && Nat.leb n 102 then Some (n - 87)
  else if Nat.leb 65 n && Nat.leb n 70 then Some (n - 55)
  else None.

(** The character an escape letter stands for. *)
Definition unescape (e : ascii) : option ascii :=
  let n := nat_of_ascii e in
  if Nat.eqb n 34 then Some e
  else if Nat.eqb n 92 then Some e
  else if Nat.eqb n 47 then Some e
  else if Nat.eqb n 98 then Some (ascii_of_nat 8)
  else if Nat.eqb n 102 then Some (ascii_of_nat 12)
  else if Nat.eqb n 110 then Some (ascii_of_nat 10)
  else if Nat.eqb n 114 then Some (ascii_of_nat 13)
  else if Nat.eqb n 116 then Some (ascii_of_nat 9)
  else None.

(** The characters of a string up to its closing quote, and what
    follows the quote. *)
Fixpoint parse_chars (s : string) : option (string * string) :=
  match s with
  | EmptyString => None
  | String c r =>
      if Nat.eqb (nat_of_ascii c) 34 then Some ("", r)
      else if Nat.eqb (nat_of_ascii c) 92 then
        match r with
        | EmptyString => None
        | String e r' =>
            if Nat.eqb (nat_of_ascii e) 117 then
              match r' with
              | String h1 (String h2 (String h3 (String h4 r''))) =>
                  match hex_value h1, hex_value h2,
                        hex_value h3, hex_value h4 with
                  | Some a, Some b, Some c', Some d =>
                      let code := 4096 * a + 256 * b + 16 * c' + d in
                      if Nat.ltb code 256 then
                        match parse_chars r'' with
                        | Some (t, rest) =>
                            Some (String (ascii_of_nat code) t, rest)
                        | None => None
                        end
                      else None
                  | _, _, _, _ => None
                  end
              | _ => None
              end
            else
              match unescape e with
              | Some ch =>
                  match parse_chars r' with
                  | Some (t, rest) => Some (String ch t, rest)
                  | None => None
                  end
              | None => None
              end
        end
      else
        match parse_chars r with
        | Some (t, rest) => Some (String c t, rest)
        | None => None
        end
  end.

(** What follows a given character at the head of a text. *)
Definition after (c : ascii) (s : string) : option string :=
  match s with
  | String c' r => if Ascii.eqb c' c then Some r else None
  | EmptyString => None
  end.

Section Items.
Variable parse_one : string -> option (json * string).

(** The elements of an array after its first bracket, at most [n] of
    them. *)
Fixpoint parse_elements (n : nat) (s : string)
  : option (list json * string) :=
  match n with
  | 0 => None
  | S n' =>
      match parse_one s with
      | Some (j, s1) =>
          match after "," s1, after "]" s1 with
          | Some r, _ =>
              match parse_elements n' r with
              | Some (js, rest) => Some (j :: js, rest)
              | None => None
              end
          | None, Some r => Some ([j], r)
          | None, None => None
          end
      | None => None
      end
  end.

(** The members of an object after its first brace. *)
Fixpoint parse_members (n : nat) (s : string)
  : option (list (string * json) * string) :=
  match n with
  | 0 => None
  | S n' =>
      match after "034" s with
      | Some r =>
          match parse_chars r with
          | Some (k, s1) =>
              match after ":" s1 with
              | Some r1 =>
                  match parse_one r1 with
                  | Some (j, s2) =>
                      match after "," s2, after "}" s2 with
                      | Some r2, _ =>
                          match parse_members n' r2 with
                          | Some (ms, rest) => Some ((k, j) :: ms, rest)
                          | None => None
                          end
                      | None, Some r2 => Some ([(k, j)], r2)
                      | None, None => None
                      end
                  | None => None
                  end
              | None => None
              end
          | None => None
          end
      | None => None
      end
  end.
End Items.

(** A value at the head of a text, and the rest of the text; the
    fuel bounds the number of values read. *)
Fixpoint parse_value (fuel : nat) (s : string) : option (json * string) :=
  match fuel with
  | 0 => None
  | S fuel' =>
      match s with
      | EmptyString => None
      | String c r =>
          let n := nat_of_ascii c in
          if Nat.eqb n 110 then
            option_map (fun rest => (JNull, rest)) (strip_prefix "null" s)
          else if Nat.eqb n 116 then
            option_map (fun rest => (JBool true, rest))
              (strip_prefix "true" s)
          else if Nat.eqb n 102 then
            option_map (fun rest => (JBool false, rest))
              (strip_prefix "false" s)
          else if Nat.eqb n 34 then
            match parse_chars r with
            | Some (t, rest) => Some (JStr t, rest)
            | None => None
            end
          else if Nat.eqb n 91 then
            match after "]" r with
            | Some r' => Some (JArr [], r')
            | None =>
                match parse_elements (parse_value fuel') fuel' r with
                | Some (js, rest) => Some (JArr js, rest)
                | None => None
                end
            end
          else if Nat.eqb n 123 then
            match after "}" r with
            | Some r' => Some (JObj [], r')
            | None =>
                match parse_members (parse_value fuel') fuel' r with
                | Some (ms, rest) => Some (JObj ms, rest)
                | None => None
                end
            end
          else
            match parse_number s with
            | Some (z, rest) => Some (JNum z, rest)
            | None => None
            end
      end
  end.

(** The number of values in a document. *)
Fixpoint size (j : json) : nat :=
  match j with
  | JArr items => S (list_sum (map size items))
  | JObj ms => S (list_sum (map (fun kv => size (snd kv)) ms))
  | _ => 1
  end.

(** The characters a value's text can begin with. *)
Definition opens_value (c : ascii) : bool :=
  is_digit c ||
  existsb (Ascii.eqb c)
    ["-"%char; "n"%char; "t"%char; "f"%char; "034"%char; "["%char;
     "{"%char].

(** The document a text denotes, if it is one. *)
Definition parse (s : string) : option json :=
  match parse_value (String.length s) s with
  | Some (j, EmptyString) => Some j
  | _ => None
  end.

(** *** Serialization *)

Definition string_of_nat (n : nat) : string := string_of_Z (Z.of_nat n).

Section Walk.
Variable f : string -> value -> option json.

(** SerializeJSONArray: an element without a serialization is
    written as [null]. *)
Fixpoint serialize_array (i : nat) (l : list value) : list json :=
  match l with
  | [] => []
  | x :: r =>
      match f (string_of_nat i) x with
      | Some j => j
      | None => JNull
      end :: serialize_array (S i) r
  end.

(** SerializeJSONObject: a property without a serialization is
    left out. *)
Fixpoint serialize_object (l : list (string * value))
  : list (string * json) :=
  match l with
  | [] => []
  | (k, x) :: r =>
      match f k x with
      | Some j => (k, j) :: serialize_object r
      | None => serialize_object r
      end
  end.
End Walk.

(** [Buffer.prototype.toJSON] *)
Definition buffer_json (bytes : list Byte.byte) : json :=
  JObj [("type", JStr "Buffer");
        ("data",
         JArr (map (fun b => JNum (decimal_of_Z (Z.of_N (Byte.to_N b))))
                 bytes))].

Section Stringify.
(** What the runtime serializes a stream object to when no replacer
    is given. *)
Variable stream_json : stream -> json.
(** The replacer function, if one is given.  The replacers of this
    client return either their argument or [undefined], so the
    walk continues on the argument itself when the replacer keeps
    it. *)
Variable rep : option (string -> value -> value).

Definition replaced (key : string) (v : value) : value :=
  match rep with
  | Some r => r key v
  | None => v
  end.

(** A stream is an object of the runtime, serialized property by
    property like any other: where [stream_json] is its document
    without a replacer, the replacer sees the same properties and a
    property it answers [undefined] for is left out of an object and
    written [null] in an array. *)
Fixpoint replaced_document (r : string -> value -> value) (j : json)
  : json :=
  match j with
  | JArr items =>
      JArr ((fix go (i : nat) (l : list json) : list json :=
               match l with
               | [] => []
               | x :: rest =>
                   match r (string_of_nat i) (value_of_json x) with
                   | VUndefined => JNull
                   | _ => replaced_document r x
                   end :: go (S i) rest
               end) 0 items)
  | JObj ms =>
      JObj ((fix go (l : list (string * json)) : list (string * json) :=
               match l with
               | [] => []
               | (k, x) :: rest =>
                   match r k (value_of_json x) with
                   | VUndefined => go rest
                   | _ => (k, replaced_document r x) :: go rest
                   end
               end) ms)
  | _ => j
  end.

Definition stream_document (s : stream) : json :=
  match rep with
  | Some r => replaced_document r (stream_json s)
  | None => stream_json s
  end.

(** SerializeJSONProperty; [None] is JavaScript's [undefined]. *)
Fixpoint SerializeJSONProperty (key : string) (v : value)
  : option json :=
  match replaced key v with
  | VUndefined => None
  | _ =>
      match v with
      | VUndefined => None
      | VNull => Some JNull
      | VBool b => Some (JBool b)
      | VNum (Fin x) => Some (JNum x)
      | VNum NegZero => Some (JNum DZero)
      | VNum NaN | VNum (Inf _) => Some JNull
      | VStr s => Some (JStr s)
      | VArr items =>
          Some (JArr (serialize_array SerializeJSONProperty 0 items))
      | VObj props =>
          Some (JObj (serialize_object SerializeJSONProperty props))
      | VBuffer bytes => Some (buffer_json bytes)
      | VStream s => Some (stream_document s)
      end
  end.

Definition document (v : value) : option json :=
  SerializeJSONProperty "" v.

(** [JSON.stringify(v)] and [JSON.stringify(v, rep)]. *)
Definition stringify (v : value) : option string :=
  option_map render (document v).
End Stringify.

End Json.
Import Json.

(** ** The runtime around the client *)

Module Node.

(** [path.basename(p)] for POSIX paths: trailing slashes are
    dropped, then everything up to the last slash. *)
Definition is_slash (c : ascii) : bool := Ascii.eqb c "/"%char.

Fixpoint drop_slashes (l : list ascii) : list ascii :=
  match l with
  | [] => []
  | c :: r => if is_slash c then drop_slashes r else l
  end.

Fixpoint take_segment (l : list ascii) : list ascii :=
  match l with
  | [] => []
  | c :: r => if is_slash c then [] else c :: take_segment r
  end.

Definition basename (p : string) : string :=
  string_of_list_ascii
    (rev (take_segment (drop_slashes (rev (list_ascii_of_string p))))).

(** The properties every object literal inherits from
    [Object.prototype], each with the string a template literal makes
    of its value: the source text of a built-in function, and
    [[object Object]] for [__proto__], which reads the prototype
    itself. *)
Definition native_code (name : string) : string :=
  "function " ++ name ++ "() { [native code] }".

Definition Object_prototype : list (string * string) :=
  [("constructor", native_code "Object");
   ("__defineGetter__", native_code "__defineGetter__");
   ("__defineSetter__", native_code "__defineSetter__");
   ("hasOwnProperty", native_code "hasOwnProperty");
   ("__lookupGetter__", native_code "__lookupGetter__");
   ("__lookupSetter__", native_code "__lookupSetter__");
   ("isPrototypeOf", native_code "isPrototypeOf");
   ("propertyIsEnumerable", native_code "propertyIsEnumerable");
   ("toString", native_code "toString");
   ("valueOf", native_code "valueOf");
   ("__proto__", "[object Object]");
   ("toLocaleString", native_code "toLocaleString")].

(** What a call reads from outside: the file system, the network
    and the random source. *)
Record World : Type := {
  (* [await realpath(p)]; [None] when the promise rejects *)
  realpath : string -> option string;
  (* [(await stat(p)).isFile()]; [None] when [stat] rejects *)
  isFile : string -> option bool;
  (* the [code] of the error a rejected [realpath(p)] or [stat(p)]
     rejects with *)
  errno : fs_call -> string -> string;
  (* [(await fetch(url, { agent, timeout })).body]; [None] when the
     promise rejects *)
  fetch : value -> option stream;
  (* [crypto.randomBytes(size).toString('hex')] at the n-th draw of
     the call *)
  randomHex : nat -> nat -> string;
  (* the document [JSON.stringify(s)] gives for a stream object [s],
     taken to have one: its properties hold no cycle *)
  streamJSON : stream -> json
}.

(** The inbound [http.ServerResponse], seen through the members the
    client uses: it reads [headersSent] and calls [setHeader] and
    [end]. *)
Inductive response_call : Type :=
| SetHeader (name value : string)
| End (chunk : option string) (encoding : string).

Record Response : Type := {
  headersSent : bool;
  calls : list response_call
}.

Definition call (c : response_call) (r : Response) : Response :=
  {| headersSent := headersSent r; calls := calls r ++ [c] |}.

End Node.
Import Node.

(** ** The multipart form *)

Module Multipart.

Inductive part_body : Type :=
| BText (s : string)
| BStream (s : stream)
| BBuffer (bytes : list Byte.byte).

(** A part, with the two pieces of its [content-disposition] header
    kept apart. *)
Record part : Type := {
  part_name : string;
  part_filename : option string;
  part_body_of : part_body
}.

(** [`form-data; name="${id}"`] and
    [`form-data; name="${id}"; filename="${fileName}"`] *)
Definition content_disposition (p : part) : string :=
  "form-data; name=" ++ dquote ++ part_name p ++ dquote ++
  match part_filename p with
  | Some f => "; filename=" ++ dquote ++ f ++ dquote
  | None => ""
  end.

Definition text_part (id body : string) : part :=
  {| part_name := id; part_filename := None; part_body_of := BText body |}.

Definition is_binary (p : part) : bool :=
  match part_body_of p with
  | BText _ => false
  | _ => true
  end.

(** Modelled from the spec: [MultipartStream] of ./multipart-stream is
    not in src/; a form is the sequence of the parts added to it
    ("assemble all emitted parts into one streaming body"), and
    [isStream] recognises byte streams. *)
Definition isStream (v : value) : bool :=
  match v with
  | VStream _ => true
  | _ => false
  end.

Definition isBuffer (v : value) : bool :=
  match v with
  | VBuffer _ => true
  | _ => false
  end.

End Multipart.
Import Multipart.

(** ** A call's state: the form under construction and the number of
    random draws made so far *)

Record state : Type := {
  form : list part;
  draws : nat
}.

Definition M (A : Type) : Type := state -> result (A * state).

Definition ret {A} (a : A) : M A := fun s => Ok (a, s).

Definition bind {A B} (m : M A) (f : A -> M B) : M B :=
  fun s =>
    match m s with
    | Ok (a, s') => f a s'
    | Err e => Err e
    end.

Definition throw {A} (e : error) : M A := fun _ => Err e.

Definition lift {A} (r : result A) : M A :=
  fun s =>
    match r with
    | Ok a => Ok (a, s)
    | Err e => Err e
    end.

Declare Scope monad_scope.
Delimit Scope monad_scope with monad.
Notation "x <- c ;; k" := (bind c (fun x => k))
  (at level 61, c at next level, right associativity) : monad_scope.
Notation "c ;; k" := (bind c (fun _ => k))
  (at level 61, right associativity) : monad_scope.
Open Scope monad_scope.

(** [form.addPart(p)] *)
Definition addPart (p : part) : M unit :=
  fun s => Ok (tt, {| form := form s ++ [p]; draws := draws s |}).

(** [await Promise.all(l.map(f))], on one of the schedules the
    runtime may take: the tasks run to completion in index order.
    The tasks are started in that order, but where one awaits the
    file system or the network, which task adds its parts first,
    which draws an identifier first and, when several fail, which
    failure is reported depend on timing.  What is proved of a call
    is stated so as not to depend on it: by counting the parts of
    the whole body, task by task, or for tasks that never await. *)
Fixpoint mapM {A B} (f : A -> M B) (l : list A) : M (list B) :=
  match l with
  | [] => ret []
  | x :: r =>
      y <- f x ;;
      ys <- mapM f r ;;
      ret (y :: ys)
  end.

(** ** The client *)

Module Client.

(** Modelled from the spec: [hasProp] and [hasPropType] of
    ../helpers/check are not in src/; [hasProp(obj, prop)] says that
    [obj] is "carrying a [prop] key" ([obj !== undefined && prop in
    obj]) and [hasPropType(obj, prop, type)] that moreover
    [typeof obj[prop]] is [type]. *)
Definition hasProp (obj : value) (prop : string) : result bool :=
  match obj with
  | VUndefined => Ok false
  | _ => has_in prop obj
  end.

Definition hasPropType (obj : value) (prop : string) (type : type_tag)
  : result bool :=
  hasProp obj prop &&&
  (let? x := get obj prop in Ok (type_tag_eqb type (typeof x))).

(** [x.prop] read for its truth value *)
Definition truthy_prop (x : value) (prop : string) : result bool :=
  let? y := get x prop in Ok (truthy y).

Definition DEFAULT_EXTENSIONS : list (string * string) :=
  [("audio", "mp3"); ("photo", "jpg"); ("sticker", "webp");
   ("video", "mp4"); ("animation", "mp4"); ("video_note", "mp4");
   ("voice", "ogg")].

Fixpoint assoc (k : string) (t : list (string * string)) : option string :=
  match t with
  | [] => None
  | (k', v) :: r => if k' =? k then Some v else assoc k r
  end.

(** [`${DEFAULT_EXTENSIONS[id] ?? 'dat'}`]: the table is an object
    literal, so a name it has no entry for is looked up in
    [Object.prototype], and what is found there is not nullish. *)
Definition default_extension (id : string) : string :=
  match assoc id DEFAULT_EXTENSIONS with
  | Some ext => ext
  | None =>
      match assoc id Object_prototype with
      | Some text => text
      | None => "dat"
      end
  end.

(** The callback of the inner [some]:
    [({ media }) => media && typeof media === 'object' &&
                    (media.source || media.url)] *)
Definition item_includes_media (item : value) : result bool :=
  let? media := get item "media" in
  Ok (truthy media) &&&
  Ok (type_tag_eqb (typeof media) TObject) &&&
  (truthy_prop media "source" ||| truthy_prop media "url").

(** The callback of the outer [some]. *)
Definition entry_includes_media (entry : string * value) : result bool :=
  let '(key, value) := entry in
  if key =? "link_preview_options" then Ok false
  else
    match value with
    | VArr items => some item_includes_media items
    | _ =>
        Ok (truthy value) &&&
        Ok (type_tag_eqb (typeof value) TObject) &&&
        ((hasProp value "source" &&& truthy_prop value "source") |||
         (hasProp value "url" &&& truthy_prop value "url") |||
         (hasPropType value "media" TObject &&&
          (let? media := get value "media" in
           (hasProp media "source" &&& truthy_prop media "source") |||
           (hasProp media "url" &&& truthy_prop media "url"))))
    end.

Definition includesMedia (payload : object) : result bool :=
  some entry_includes_media payload.

Definition replacer (_ : string) (val : value) : value :=
  if nullish val then VUndefined else val.

(** A request configuration: [RequestInit] with the fields the
    builders fill in. *)
Inductive request_body : Type :=
| JsonBody (text : option string)
| FormBody (boundary : string) (parts : list part).

Record RequestInit : Type := {
  method : string;
  compress : bool;
  headers : list (string * string);
  body : request_body
}.

Definition FORM_DATA_JSON_FIELDS : list string :=
  ["results"; "reply_markup"; "mask_position"; "shipping_options";
   "errors"].

Section WithWorld.
Variable w : World.

Definition JSON_stringify (v : value) : option string :=
  stringify (streamJSON w) None v.

Definition JSON_stringify_with
  (rep : string -> value -> value) (v : value) : option string :=
  stringify (streamJSON w) (Some rep) v.

Definition buildJSONConfig (payload : value) : RequestInit :=
  {| method := "POST";
     compress := true;
     headers := [("content-type", "application/json");
                 ("connection", "keep-alive")];
     body := JsonBody (JSON_stringify_with replacer payload) |}.

(** [crypto.randomBytes(size).toString('hex')] *)
Definition randomBytesHex (size : nat) : M string :=
  fun s =>
    Ok (randomHex w size (draws s),
        {| form := form s; draws := S (draws s) |}).

Definition binary_body (v : value) : option part_body :=
  match v with
  | VStream s => Some (BStream s)
  | VBuffer b => Some (BBuffer b)
  | _ => None
  end.

Definition media_part (id : string) (fileName : value) (b : part_body)
  : part :=
  {| part_name := id;
     part_filename := Some (to_string fileName);
     part_body_of := b |}.

(** The [typeof media.source === 'string'] block: the source path
    is resolved and must name a regular file; it returns the new
    [fileName] and [mediaSource]. *)
Definition open_source (filename : value) (source : string)
  : M (value * value) :=
  match realpath w source with
  | None => throw (FsError Realpath (errno w Realpath source) source)
  | Some resolved =>
      match isFile w resolved with
      | None => throw (FsError Stat (errno w Stat resolved) resolved)
      | Some true =>
          ret (if nullish filename then VStr (basename source)
               else filename,
               VStream (FileStream source))
      | Some false => throw (NotAFile source)
      end
  end.

Definition attachFormMedia (media : value) (id : string) : M unit :=
  filename <- lift (get media "filename") ;;
  let fileName :=
    if nullish filename then
      VStr (id ++ "." ++ default_extension id)
    else filename in
  has_url <- lift (has_in "url" media &&&
                   (let? url := get media "url" in
                    Ok (negb (type_tag_eqb (typeof url) TUndefined)))) ;;
  if has_url then
    url <- lift (get media "url") ;;
    match fetch w url with
    | None => throw FetchError
    | Some res_body => addPart (media_part id fileName (BStream res_body))
    end
  else
    has_source <- lift (has_in "source" media &&&
                        truthy_prop media "source") ;;
    if has_source then
      source <- lift (get media "source") ;;
      opened <- match source with
                | VStr path => open_source filename path
                | _ => ret (fileName, source)
                end ;;
      let '(fileName, mediaSource) := opened in
      match binary_body mediaSource with
      | Some b => addPart (media_part id fileName b)
      | None => ret tt
      end
    else ret tt.

Definition attach_ref (attachmentId : string) : value :=
  VStr ("attach://" ++ attachmentId).

(** [{ ...item }]: the own enumerable properties; the client
    spreads only values that have a [media] property, which are
    plain objects. *)
Definition spread (v : value) : object :=
  match v with
  | VObj o => o
  | _ => []
  end.

(** The callback of [value.map] in the array branch. *)
Definition attach_item (item : value) : M value :=
  media <- lift (get item "media") ;;
  if negb (type_tag_eqb (typeof media) TObject) then ret item
  else
    attachmentId <- randomBytesHex 16 ;;
    attachFormMedia media attachmentId ;;
    item_thumb <- lift (get item "thumb") ;;
    thumb <- (if nullish item_thumb then lift (get item "thumbnail")
              else ret item_thumb) ;;
    if type_tag_eqb (typeof thumb) TObject then
      thumbAttachmentId <- randomBytesHex 16 ;;
      attachFormMedia thumb thumbAttachmentId ;;
      ret (VObj (set "thumbnail" (attach_ref thumbAttachmentId)
                   (set "media" (attach_ref attachmentId)
                      (spread item))))
    else
      ret (VObj (set "media" (attach_ref attachmentId) (spread item))).

Definition is_scalar (v : value) : bool :=
  match typeof v with
  | TString | TBoolean | TNumber => true
  | _ => false
  end.

(** [JSON.stringify] of an array or of an object, which is always a
    string. *)
Definition stringified (v : value) : string :=
  match JSON_stringify v with
  | Some s => s
  | None => "undefined"
  end.

Definition attachFormValue (id : string) (value : value) : M unit :=
  if nullish value then ret tt
  else if is_scalar value then addPart (text_part id (to_string value))
  else if (id =? "thumb") || (id =? "thumbnail") then
    attachmentId <- randomBytesHex 16 ;;
    attachFormMedia value attachmentId ;;
    addPart (text_part id ("attach://" ++ attachmentId))
  else
    match value with
    | VArr array =>
        items <- mapM attach_item array ;;
        addPart (text_part id (stringified (VArr items)))
    | _ =>
        has_media_type <-
          lift (hasProp value "media" &&& hasProp value "type" &&&
                (let? media := get value "media" in
                 Ok (negb (type_tag_eqb (typeof media) TUndefined))) &&&
                (let? type := get value "type" in
                 Ok (negb (type_tag_eqb (typeof type) TUndefined)))) ;;
        if has_media_type then
          attachmentId <- randomBytesHex 16 ;;
          media <- lift (get value "media") ;;
          attachFormMedia media attachmentId ;;
          addPart (text_part id
                     (stringified
                        (VObj (set "media" (attach_ref attachmentId)
                                 (spread value)))))
        else attachFormMedia value id
    end.

(** The loop over [FORM_DATA_JSON_FIELDS]:
    [payload[field] = JSON.stringify(payload[field])] for a field
    that is there and is not a string. *)
Definition stringify_field (payload : object) (field : string)
  : object :=
  match lookup field payload with
  | Some v =>
      match v with
      | VStr _ => payload
      | _ =>
          set field
            (match JSON_stringify v with
             | Some s => VStr s
             | None => VUndefined
             end) payload
      end
  | None => payload
  end.

Definition stringify_json_fields (payload : object) : object :=
  fold_left stringify_field FORM_DATA_JSON_FIELDS payload.

(** [new MultipartStream(boundary)]: the call works on a form of its
    own. *)
Definition newForm : M unit :=
  fun s => Ok (tt, {| form := []; draws := draws s |}).

Definition buildFormDataConfig (payload : object) : M RequestInit :=
  let payload := stringify_json_fields payload in
  boundary <- randomBytesHex 32 ;;
  newForm ;;
  mapM (fun key =>
          attachFormValue key
            match lookup key payload with
            | Some v => v
            | None => VUndefined
            end) (keys payload) ;;
  fun s =>
    Ok ({| method := "POST";
           compress := true;
           headers := [("content-type",
                        "multipart/form-data; boundary=" ++ boundary);
                       ("connection", "keep-alive")];
           body := FormBody boundary (form s) |}, s).

(** The state a call starts in: no part, no draw made yet. *)
Definition start : state := {| form := []; draws := 0 |}.

(** [ApiClient.Options]; the agents are part of the world's [fetch]. *)
Record Options : Type := {
  apiRoot : string;
  apiMode : string;
  webhookReply : bool;
  testEnv : bool
}.

(** Everything after the first [return true] is unreachable: the
    test on [includesMedia] around it is commented out. *)
Definition answerToWebhook
  (response : Response) (payload : object) (options : Options)
  : Response * bool :=
  let response :=
    if negb (headersSent response) then
      call (SetHeader "content-type" "application/json") response
    else response in
  let response :=
    call (End (JSON_stringify (VObj payload)) "utf-8") response in
  (response, true).

End WithWorld.

End Client.
Import Client.

(** ** Redaction of the credential in error messages *)

Module Redact.

Definition not_slash (c : ascii) : bool := negb (is_slash c).

(** [(bot|user)] *)
Definition match_mode (s : string) : option (string * string) :=
  match strip_prefix "bot" s with
  | Some r => Some ("bot", r)
  | None =>
      match strip_prefix "user" s with
      | Some r => Some ("user", r)
      | None => None
      end
  end.

(** A match of [/\/(bot|user)(\d+):[^/]+\//] starting at the first
    character of [s]: the two groups and what follows the match.
    Each greedy run is followed by a character outside its class, so
    giving characters back never yields another match. *)
Definition match_here (s : string) : option (string * string * string) :=
  match strip_prefix "/" s with
  | None => None
  | Some s1 =>
      match match_mode s1 with
      | None => None
      | Some (g1, s2) =>
          let '(g2, s3) := span is_digit s2 in
          if g2 =? "" then None
          else
            match strip_prefix ":" s3 with
            | None => None
            | Some s4 =>
                let '(secret, s5) := span not_slash s4 in
                if secret =? "" then None
                else
                  match strip_prefix "/" s5 with
                  | None => None
                  | Some rest => Some (g1, g2, rest)
                  end
            end
      end
  end.

(** [message.replace(regexp, '/$1$2:[REDACTED]/')] with a regular
    expression that has no [g] flag: the leftmost match only. *)
Fixpoint replace (s : string) : string :=
  match match_here s with
  | Some (g1, g2, rest) => "/" ++ g1 ++ g2 ++ ":[REDACTED]/" ++ rest
  | None =>
      match s with
      | EmptyString => ""
      | String c r => String c (replace r)
      end
  end.

Record Error : Type := {
  name : string;
  message : string
}.

(** How a call completes; [redactToken] has the return type [never]. *)
Inductive completion (A : Type) : Type :=
| Return (a : A)
| Throw (e : Error).
Arguments Return {A} a.
Arguments Throw {A} e.

Definition redactToken (error : Error) : completion Empty_set :=
  Throw {| name := name error; message := replace (message error) |}.

End Redact.
Import Redact.

(** ** Worlds and inputs the examples run in *)

Module Examples.

(** A world in which [/tmp/x.jpg] is a regular file, [/tmp] a
    directory and nothing else exists; the n-th random draw is
    [id<n>]. *)
Definition world : World :=
  {| realpath := fun p =>
       if p =? "/tmp/x.jpg" then Some "/tmp/x.jpg"
       else if p =? "/tmp" then Some "/tmp"
       else None;
     isFile := fun p => Some (p =? "/tmp/x.jpg");
     errno := fun _ _ => "ENOENT";
     fetch := fun _ => Some (ResponseBody 0);
     randomHex := fun _ n => "id" ++ string_of_nat n;
     streamJSON := fun _ => JObj [] |}.

Definition buffer : value := VBuffer [Byte.x89; Byte.x50].

(** [{ type: 'photo', media: 'AgACAgI' }]: a media description whose
    [media] is a file identifier already known to the server. *)
Definition resolved_media : object :=
  [("type", VStr "photo"); ("media", VStr "AgACAgI")].

(** [{ source: '/tmp/x.jpg' }] *)
Definition file_ref : object := [("source", VStr "/tmp/x.jpg")].

(** [{ chat_id: 7, media: { type: 'photo', media: 'AgACAgI' },
    photo: { source: <buffer> } }] *)
Definition payload_resolved_media : object :=
  [("chat_id", VNum 7);
   ("media", VObj resolved_media);
   ("photo", VObj [("source", buffer)])].

(** The message of a failed request, naming the request URL. *)
Definition fetch_error : Error :=
  {| name := "FetchError";
     message := "request to https://api.telegram.org/bot12345:ABCDEF/getMe failed, reason: socket hang up" |}.

(** A message that names the URL twice. *)
Definition redirect_error : Error :=
  {| name := "FetchError";
     message := "request to https://api.telegram.org/bot12345:ABCDEF/getMe failed, reason: redirected to https://api.telegram.org/bot12345:ABCDEF/getMe" |}.

Definition fetch_pre : string := "request to https://api.telegram.org".
Definition fetch_post : string := "getMe failed, reason: socket hang up".

Definition redirect_pre : string :=
  "request to https://api.telegram.org/bot12345:ABCDEF/getMe failed, reason: redirected to https://api.telegram.org".
Definition redirect_post : string := "getMe".

(** [{ chat_id: 7, documents: [{ source: '/tmp/x.jpg' }] }]: an array
    whose element carries the [source] key directly. *)
Definition payload_direct_element : object :=
  [("chat_id", VNum 7); ("documents", VArr [VObj file_ref])].

(** [{ chat_id: 7, media: [{ type: 'photo', media: { source:
    '/tmp/x.jpg' } }] }] *)
Definition payload_media_group : object :=
  [("chat_id", VNum 7);
   ("media", VArr [VObj [("type", VStr "photo");
                         ("media", VObj file_ref)]])].

(** [{ chat_id: 7, text: 'hi', options: { ids: [1, undefined],
    ratio: NaN }, reply_to: null }] *)
Definition payload_nested_undefined : object :=
  [("chat_id", VNum 7);
   ("text", VStr "hi");
   ("options", VObj [("ids", VArr [VNum 1; VUndefined]);
                     ("ratio", VNum NaN)]);
   ("reply_to", VNull)].

(** [{ chat_id: 7, text: 'hi', entities: [{ offset: 0, user: null }],
    latitude: 55.75, reply_to: null }] *)
Definition payload_plain : object :=
  [("chat_id", VNum 7);
   ("text", VStr "hi");
   ("entities", VArr [VObj [("offset", VNum 0); ("user", VNull)]]);
   ("latitude", VNum (Fin (DNum false (Several n5 [d5; d7] n5) 2)));
   ("reply_to", VNull)].

(** [{ photo: { source: <buffer> }, thumbnail: { source: '' } }]: the
    thumbnail's source is the empty string. *)
Definition payload_empty_thumbnail : object :=
  [("chat_id", VNum 7);
   ("photo", VObj [("source", buffer)]);
   ("thumbnail", VObj [("source", VStr "")])].

(** [{ chat_id: 7, photo: { source: <buffer> }, thumbnail: { source:
    '/tmp/x.jpg' } }] *)
Definition payload_photo_thumbnail : object :=
  [("chat_id", VNum 7);
   ("photo", VObj [("source", buffer)]);
   ("thumbnail", VObj file_ref)].






(** [{ chat_id: 7, text: 'hi', reply_markup: { inline_keyboard: [] } }] *)
Definition markup : value := VObj [("inline_keyboard", VArr [])].

Definition payload_markup : object :=
  [("chat_id", VNum 7); ("text", VStr "hi"); ("reply_markup", markup)].

(** The same next to an uploaded photo. *)
Definition payload_markup_photo : object :=
  [("chat_id", VNum 7); ("photo", VObj [("source", buffer)]);
   ("reply_markup", markup)].

(** [{ url: 'https://example.org/cat.png', source: '/nowhere' }] *)
Definition url_ref : object :=
  [("url", VStr "https://example.org/cat.png");
   ("source", VStr "/nowhere")].

(** [{ source: <buffer>, filename: 'cat.png' }] *)
Definition named_buffer_ref : object :=
  [("source", buffer); ("filename", VStr "cat.png")].

(** [{ type: 'photo', media: { source: '/tmp/x.jpg' }, caption: 'hi' }] *)
Definition media_description : object :=
  [("type", VStr "photo"); ("media", VObj file_ref);
   ("caption", VStr "hi")].

(** [{ chat_id: 7, entities: [null] }] *)
Definition payload_null_element : object :=
  [("chat_id", VNum 7); ("entities", VArr [VNull])].

(** [{ chat_id: 7, text: 'hi', disable_notification: true }] *)
Definition payload_no_null : object :=
  [("chat_id", VNum 7); ("text", VStr "hi");
   ("disable_notification", VBool true);
   ("entities", VArr [VObj [("offset", VNum 0)]; VNull])].

(** [{ chat_id: 7, reply_to: null }] *)
Definition payload_null_field : object :=
  [("chat_id", VNum 7); ("reply_to", VNull)].

(** A message without any credential path. *)
Definition plain_error : Error :=
  {| name := "TypeError";
     message := "Unable to upload '/tmp', not a file" |}.

(** [{ chat_id: 7, photo: { source: <buffer> }, caption: 'hi',
    reply_to: undefined }] *)
Definition payload_immediate : object :=
  [("chat_id", VNum 7);
   ("photo", VObj [("source", buffer)]);
   ("caption", VStr "hi");
   ("reply_to", VUndefined)].



(** [[{ type: 'photo', media: { source: <buffer> } }, null]] *)
Definition group_with_null : list value :=
  [VObj [("type", VStr "photo"); ("media", VObj [("source", buffer)])];
   VNull].


(** [[{ type: 'bold', offset: 0, length: 2 }, 'x']] *)
Definition plain_items : list value :=
  [VObj [("type", VStr "bold"); ("offset", VNum 0); ("length", VNum 2)];
   VStr "x"].





End Examples.

(** ** Vocabulary of the specification *)

Module Spec.


(** The error kind "FilesystemFailure" ("stat/symlink/read error"):
    any other rejection of [realpath] or [stat]. *)
Definition FilesystemFailure (e : error) : bool :=
  match e with
  | FsError _ code _ => negb (code =? "ENOENT")
  | _ => false
  end.



(** The filename a part gets when the reference names none. *)
Definition explicit_or (o : object) (default : string) : string :=
  match lookup "filename" o with
  | Some f => if nullish f then default else to_string f
  | None => default
  end.

(** Credential paths: [/bot<id>:<secret>/] and [/user<id>:<secret>/],
    with a non-empty decimal [<id>] and a non-empty [<secret>] free of
    slashes. *)
Definition is_credential (mode id secret : string) : bool :=
  ((mode =? "bot") || (mode =? "user")) &&
  negb (id =? "") && all_chars is_digit id &&
  negb (secret =? "") && all_chars not_slash secret.

Definition credential (mode id secret : string) : string :=
  "/" ++ mode ++ id ++ ":" ++ secret ++ "/".

Definition redacted (mode id : string) : string :=
  "/" ++ mode ++ id ++ ":[REDACTED]/".

(** No credential path begins before offset [n] of [msg]. *)
Definition no_credential_before (n : nat) (msg : string) : Prop :=
  forall pre mode id secret post,
    is_credential mode id secret = true ->
    msg = pre ++ credential mode id secret ++ post ->
    n <= String.length pre.

(** The same, decided by running the matcher at each of the first [n]
    offsets. *)
Fixpoint no_match_before (n : nat) (s : string) : bool :=
  match n with
  | 0 => true
  | S n' =>
      match match_here s with
      | Some _ => false
      | None =>
          match s with
          | EmptyString => true
          | String _ r => no_match_before n' r
          end
      end
  end.

(** *** Attachment shapes, as the selection rule words them *)

(** "carrying a [source] or [url] key" *)
Definition carries_ref_key (v : value) : Prop :=
  exists o, v = VObj o /\
            (lookup "source" o <> None \/ lookup "url" o <> None).

(** "directly or nested one level under a [media] key" *)
Definition attachment_shaped (v : value) : Prop :=
  carries_ref_key v \/
  exists o m, v = VObj o /\ lookup "media" o = Some m /\ carries_ref_key m.

(** "an object or array element" *)
Definition holds_attachment (v : value) : Prop :=
  attachment_shaped v \/
  exists items item,
    v = VArr items /\ In item items /\ attachment_shaped item.

(** "at least one AttachmentRef-shaped value anywhere in the mapping",
    fields named [link_preview_options] apart *)
Definition contains_attachment (payload : object) : Prop :=
  exists k v,
    In (k, v) payload /\ k <> "link_preview_options" /\ holds_attachment v.

(** *** What the scan looks for *)

(** An object with a truthy [source] or a truthy [url]. *)
Definition names_medium (v : value) : Prop :=
  exists o x,
    v = VObj o /\
    (lookup "source" o = Some x \/ lookup "url" o = Some x) /\
    truthy x = true.

(** An object whose [media] is such an object. *)
Definition has_medium (v : value) : Prop :=
  exists o m, v = VObj o /\ lookup "media" o = Some m /\ names_medium m.

(** In an array only the elements' [media] is looked at; a value that
    is not an array is looked at itself and under its [media]. *)
Definition field_found (v : value) : Prop :=
  match v with
  | VArr items => exists item, In item items /\ has_medium item
  | _ => names_medium v \/ has_medium v
  end.

Definition scan_finds (payload : object) : Prop :=
  exists k v,
    In (k, v) payload /\ k <> "link_preview_options" /\ field_found v.

(** The mappings on which the scan does not throw whatever it finds:
    no array has a [null] or [undefined] element (destructuring it
    throws) and no object has [media: null] ([in] applied to it
    throws). *)
Definition scan_safe_field (v : value) : bool :=
  match v with
  | VArr items => forallb (fun item => negb (nullish item)) items
  | VObj o =>
      match lookup "media" o with
      | Some VNull => false
      | _ => true
      end
  | _ => true
  end.

Definition scan_safe (payload : object) : bool :=
  forallb (fun kv => (fst kv =? "link_preview_options")
                     || scan_safe_field (snd kv)) payload.

(** The same search as a computation. *)
Definition prop_of (o : object) (k : string) : value :=
  match lookup k o with
  | Some x => x
  | None => VUndefined
  end.

Definition names_medium_b (v : value) : bool :=
  match v with
  | VObj o => truthy (prop_of o "source") || truthy (prop_of o "url")
  | _ => false
  end.

Definition has_medium_b (v : value) : bool :=
  match v with
  | VObj o => names_medium_b (prop_of o "media")
  | _ => false
  end.

Definition field_found_b (v : value) : bool :=
  match v with
  | VArr items => existsb has_medium_b items
  | _ => names_medium_b v || has_medium_b v
  end.

Definition scan_finds_b (payload : object) : bool :=
  existsb (fun kv => negb (fst kv =? "link_preview_options")
                     && field_found_b (snd kv)) payload.

(** *** The JSON body read back *)

(** "the input mapping with all nullish-valued keys (at any depth)
    removed" *)
Fixpoint without_nullish_keys (v : value) : value :=
  match v with
  | VArr items => VArr (map without_nullish_keys items)
  | VObj props =>
      VObj ((fix go (l : list (string * value)) : list (string * value) :=
               match l with
               | [] => []
               | (k, x) :: r =>
                   if nullish x then go r
                   else (k, without_nullish_keys x) :: go r
               end) props)
  | _ => v
  end.

(** The same, with moreover every nullish array element turned into
    [null], every number that is not finite turned into [null], and
    negative zero turned into zero. *)
Fixpoint json_view (v : value) : value :=
  match v with
  | VNum NegZero => VNum (Fin DZero)
  | VNum NaN | VNum (Inf _) => VNull
  | VArr items =>
      VArr (map (fun x => if nullish x then VNull else json_view x) items)
  | VObj props =>
      VObj ((fix go (l : list (string * value)) : list (string * value) :=
               match l with
               | [] => []
               | (k, x) :: r =>
                   if nullish x then go r
                   else (k, json_view x) :: go r
               end) props)
  | _ => v
  end.

(** Values made of what JSON has a notation for, and [undefined]: no
    buffer and no stream at any depth. *)
Fixpoint plain_data (v : value) : bool :=
  match v with
  | VArr items => forallb plain_data items
  | VObj props => forallb (fun kv => plain_data (snd kv)) props
  | VBuffer _ | VStream _ => false
  | _ => true
  end.

(** *** Parts and identifiers *)

(** The number of parts that bear a name. *)
Definition count_name (n : string) (l : list part) : nat :=
  List.length (filter (fun p => part_name p =? n) l).

(** The i-th attachment identifier of a call. *)
Definition attachment_id (w : World) (i : nat) : string :=
  randomHex w 16 i.

(** The identifiers of the draws from [lo] up to [hi] are pairwise
    distinct. *)
Definition distinct_ids (w : World) (lo hi : nat) : Prop :=
  forall i j,
    lo <= i < hi -> lo <= j < hi ->
    attachment_id w i = attachment_id w j -> i = j.

(** From state [s] to state [s'] the form grew by parts whose names
    are either in [K] (the field names) or identifiers drawn in
    between, the latter on binary parts and on at most one part each. *)
Definition summary (w : World) (K : string -> Prop) (s s' : state) : Prop :=
  exists new : list part,
    form s' = (form s ++ new)%list /\
    draws s <= draws s' /\
    (forall p, In p new ->
       K (part_name p) \/
       exists i, draws s <= i < draws s' /\
                 part_name p = attachment_id w i /\ is_binary p = true) /\
    (forall i, draws s <= i < draws s' ->
       count_name (attachment_id w i) new <= 1).

(** The same, for steps whose draws lie from [lo] up to [hi]; the
    draws only go up whatever the step. *)
Definition summary_in (w : World) (K : string -> Prop) (lo hi : nat)
  (s s' : state) : Prop :=
  draws s <= draws s' /\
  (lo <= draws s -> draws s' <= hi -> summary w K s s').

(** *** Group items *)

Definition is_object (v : value) : bool := type_tag_eqb (typeof v) TObject.

(** [item.media] *)
Definition media_of (item : value) : value :=
  match item with
  | VObj o => prop_of o "media"
  | _ => VUndefined
  end.

(** [item.thumb ?? item.thumbnail] *)
Definition thumb_of (o : object) : value :=
  if nullish (prop_of o "thumb") then prop_of o "thumbnail"
  else prop_of o "thumb".



(** *** Values that resolve to a body *)

(** A truthy [source] that is a path, a stream or a buffer. *)
Definition source_yields (o : object) : bool :=
  match lookup "source" o with
  | Some (VStr path) => negb (path =? "")
  | Some (VStream _) | Some (VBuffer _) => true
  | _ => false
  end.

(** A [url] other than [undefined], or else such a [source]. *)
Definition yields_body (media : value) : bool :=
  match media with
  | VObj o =>
      match lookup "url" o with
      | Some VUndefined | None => source_yields o
      | Some _ => true
      end
  | _ => false
  end.

(** "every [attach://<id>] token appearing in the body of a textual part
    has exactly one corresponding part whose field name is [<id>]", for
    the parts whose whole body is such a token. *)
Definition references_resolved (parts : list part) : Prop :=
  forall p id,
    In p parts ->
    part_body_of p = BText ("attach://" ++ id) ->
    count_name id parts = 1.

(** From [s] to [s'] parts were only added to the form. *)
Definition form_grows (s s' : state) : Prop :=
  exists new : list part, form s' = (form s ++ new)%list.

(** *** JSON fields *)

(** The member of a JSON object under a key. *)
Fixpoint member_of (k : string) (ms : list (string * json)) : option json :=
  match ms with
  | [] => None
  | (k', j) :: r => if k' =? k then Some j else member_of k r
  end.

Definition member (k : string) (doc : json) : option json :=
  match doc with
  | JObj ms => member_of k ms
  | _ => None
  end.

Definition is_json_string (j : json) : bool :=
  match j with
  | JStr _ => true
  | _ => false
  end.

(** *** Further vocabulary *)

(** [`${id}.${DEFAULT_EXTENSIONS[id] ?? 'dat'}`] *)
Definition default_filename (id : string) : string :=
  id ++ "." ++ default_extension id.

(** [v === null] *)
Definition is_null (v : value) : bool :=
  match v with
  | VNull => true
  | _ => false
  end.

(** No object, at any depth, has a property whose value is [null]. *)
Fixpoint no_null_member (v : value) : bool :=
  match v with
  | VArr items => forallb no_null_member items
  | VObj props =>
      forallb (fun kv => negb (is_null (snd kv)) &&
                         no_null_member (snd kv)) props
  | _ => true
  end.

(** What a field gives without any file or network access: nothing
    for a nullish value, its string conversion for a scalar, and the
    body itself for an object that has no [url], no [media] and a
    buffer or a stream as [source]. *)
Definition immediate_parts (entry : string * value) : option (list part) :=
  let '(k, v) := entry in
  if nullish v then Some []
  else if is_scalar v then Some [text_part k (to_string v)]
  else
    match v with
    | VObj o =>
        match lookup "url" o, lookup "media" o, lookup "source" o with
        | None, None, Some (VBuffer b) =>
            Some [{| part_name := k;
                     part_filename :=
                       Some (explicit_or o (default_filename k));
                     part_body_of := BBuffer b |}]
        | None, None, Some (VStream s) =>
            Some [{| part_name := k;
                     part_filename :=
                       Some (explicit_or o (default_filename k));
                     part_body_of := BStream s |}]
        | _, _, _ => None
        end
    | _ => None
    end.

(** The parts of a whole mapping, field after field. *)
Fixpoint immediate_form (payload : object) : option (list part) :=
  match payload with
  | [] => Some []
  | entry :: rest =>
      match immediate_parts entry, immediate_form rest with
      | Some ps, Some qs => Some (ps ++ qs)%list
      | _, _ => None
      end
  end.

(** A key that is neither a thumbnail field nor a JSON field. *)
Definition plain_key (k : string) : bool :=
  negb ((k =? "thumb") || (k =? "thumbnail")) &&
  negb (existsb (String.eqb k) FORM_DATA_JSON_FIELDS).


(** What the loop over the JSON fields leaves under a field: nothing
    where there was nothing, and else a string, or [undefined] where
    [JSON.stringify] gave that. *)
Definition settled (payload : object) (field : string) : Prop :=
  match lookup field payload with
  | Some v => typeof v = TString \/ v = VUndefined
  | None => True
  end.

(** No credential path anywhere in a message. *)
Definition no_credential (msg : string) : Prop :=
  forall pre mode id secret post,
    is_credential mode id secret = true ->
    msg <> pre ++ credential mode id secret ++ post.


(** [v !== undefined] *)
Definition defined (v : value) : bool :=
  negb (type_tag_eqb (typeof v) TUndefined).

(** An object with both [media] and [type] present and other than
    [undefined]: what the last test of [attachFormValue] takes for a
    media description. *)
Definition describes_media (o : object) : bool :=
  match lookup "media" o, lookup "type" o with
  | Some media, Some type => defined media && defined type
  | _, _ => false
  end.

(** [id === 'thumb' || id === 'thumbnail'] *)
Definition thumbnail_key (id : string) : bool :=
  (id =? "thumb") || (id =? "thumbnail").


(** No stream at any depth. *)
Fixpoint no_stream (v : value) : bool :=
  match v with
  | VStream _ => false
  | VArr items => forallb no_stream items
  | VObj props => forallb (fun kv => no_stream (snd kv)) props
  | _ => true
  end.


(** *** References and the parts they name *)

(** The parts of a body that answer a reference under [id] to the
    value [v]: exactly one, a binary one, when [v] yields a body, and
    none when it does not. *)
Definition resolved_as (parts : list part) (v : value) (id : string)
  : Prop :=
  count_name id parts = (if yields_body v then 1 else 0) /\
  forall p, In p parts -> part_name p = id -> is_binary p = true.

(** An item of an array field and what is written in its place, next
    to the parts of the body: an item whose [media] is of type object
    carries a reference for it under [media], and when the thumbnail
    read from [thumb] or else [thumbnail] is of type object, a
    reference for that one, under another identifier, under
    [thumbnail]; any other item is written as it is. *)
Definition item_resolved (parts : list part) (item item' : value) : Prop :=
  if is_object (media_of item) then
    exists o id,
      item = VObj o /\
      resolved_as parts (media_of item) id /\
      if is_object (thumb_of o) then
        exists id',
          id' <> id /\
          resolved_as parts (thumb_of o) id' /\
          item' = VObj (set "thumbnail" (attach_ref id')
                          (set "media" (attach_ref id) o))
      else item' = VObj (set "media" (attach_ref id) o)
  else item' = item.

(** No part of [l] bears an identifier drawn from [lo] up to [hi]. *)
Definition foreign (w : World) (lo hi : nat) (l : list part) : Prop :=
  forall i, lo <= i < hi -> count_name (attachment_id w i) l = 0.

(** The parts of [l] that bear an identifier drawn from [lo] up to
    [hi] are binary. *)
Definition binary_ids (w : World) (lo hi : nat) (l : list part) : Prop :=
  forall p i,
    lo <= i < hi -> In p l ->
    part_name p = attachment_id w i -> is_binary p = true.

End Spec.

(** * Properties *)

(** ** Basic facts about the monad and the value operations *)

Lemma lookup_set_same (k : string) (v : value) (o : object) :
  lookup k (JS.set k v o) = Some v.
Proof.
  induction o as [|[k' v'] r IH]; simpl.
  - now rewrite String.eqb_refl.
  - destruct (k' =? k) eqn:E; simpl; rewrite E; auto.
Qed.

Lemma lookup_set_other (k k' : string) (v : value) (o : object) :
  k <> k' -> lookup k (JS.set k' v o) = lookup k o.
Proof.
  intros Hne. induction o as [|[k0 v0] r IH]; simpl.
  - destruct (k' =? k) eqn:E; auto.
    apply String.eqb_eq in E. congruence.
  - destruct (k0 =? k') eqn:E; simpl.
    + apply String.eqb_eq in E. subst k0.
      destruct (k' =? k) eqn:E'; auto.
      apply String.eqb_eq in E'. congruence.
    + destruct (k0 =? k); auto.
Qed.

Lemma keys_set_present (k : string) (v : value) (o : object) :
  lookup k o <> None -> keys (JS.set k v o) = keys o.
Proof.
  induction o as [|[k0 v0] r IH]; simpl; intros H.
  - congruence.
  - destruct (k0 =? k) eqn:E; simpl; auto.
    f_equal. auto.
Qed.

Lemma lookup_In (k : string) (v : value) (o : object) :
  lookup k o = Some v -> In (k, v) o.
Proof.
  induction o as [|[k0 v0] r IH]; simpl; intros H.
  - discriminate.
  - destruct (k0 =? k) eqn:E.
    + apply String.eqb_eq in E. left. congruence.
    + right. auto.
Qed.

Lemma In_lookup (k : string) (v : value) (o : object) :
  NoDup (keys o) -> In (k, v) o -> lookup k o = Some v.
Proof.
  induction o as [|[k0 v0] r IH]; simpl; intros Hnd Hin.
  - contradiction.
  - inversion Hnd as [|? ? Hnotin Hnd']; subst.
    destruct Hin as [Heq | Hin].
    + inversion Heq; subst. now rewrite String.eqb_refl.
    + destruct (k0 =? k) eqn:E.
      * apply String.eqb_eq in E. subst k0.
        exfalso. apply Hnotin. unfold keys.
        change k with (fst (k, v)). now apply in_map.
      * auto.
Qed.

(** A task that fails in every state makes [mapM] fail. *)
Lemma mapM_fails {A B} (f : A -> M B) (l : list A) (x : A) :
  In x l ->
  (forall s, exists e, f x s = Err e) ->
  forall s, exists e, mapM f l s = Err e.
Proof.
  intros Hin Hfail.
  induction l as [|y r IH]; simpl in *; [contradiction|].
  intros s. unfold bind.
  destruct (f y s) as [[b s1]|e] eqn:Ey.
  - destruct Hin as [-> | Hin].
    + destruct (Hfail s) as [e He]. congruence.
    + destruct (IH Hin s1) as [e He]. rewrite He. eauto.
  - eauto.
Qed.

(** ** The pass over [FORM_DATA_JSON_FIELDS] *)

Lemma keys_stringify_field (w : World) (payload : object) (field : string) :
  keys (stringify_field w payload field) = keys payload.
Proof.
  unfold stringify_field.
  destruct (lookup field payload) as [v|] eqn:E; auto.
  destruct v; auto; apply keys_set_present; congruence.
Qed.

Lemma lookup_stringify_field_other
  (w : World) (payload : object) (field k : string) :
  k <> field ->
  lookup k (stringify_field w payload field) = lookup k payload.
Proof.
  intros Hne. unfold stringify_field.
  destruct (lookup field payload) as [v|] eqn:E; auto.
  destruct v; auto; now apply lookup_set_other.
Qed.

Lemma keys_fold_stringify (w : World) (fields : list string) :
  forall payload,
    keys (fold_left (stringify_field w) fields payload) = keys payload.
Proof.
  induction fields as [|f r IH]; simpl; intros payload; auto.
  rewrite IH. apply keys_stringify_field.
Qed.

Lemma lookup_fold_stringify_other
  (w : World) (fields : list string) (k : string) :
  ~ In k fields ->
  forall payload,
    lookup k (fold_left (stringify_field w) fields payload)
    = lookup k payload.
Proof.
  induction fields as [|f r IH]; simpl; intros Hnotin payload; auto.
  rewrite IH by tauto.
  apply lookup_stringify_field_other. intros ->. tauto.
Qed.

Lemma keys_stringify_json_fields (w : World) (payload : object) :
  keys (stringify_json_fields w payload) = keys payload.
Proof. apply keys_fold_stringify. Qed.

Lemma lookup_stringify_json_fields_other
  (w : World) (payload : object) (k : string) :
  ~ In k FORM_DATA_JSON_FIELDS ->
  lookup k (stringify_json_fields w payload) = lookup k payload.
Proof. intros H. now apply lookup_fold_stringify_other. Qed.

(** A field whose attachment fails in every state makes the whole
    multipart encoding fail. *)
Lemma buildFormDataConfig_fails
  (w : World) (payload : object) (k : string) (v : value) :
  ~ In k FORM_DATA_JSON_FIELDS ->
  lookup k payload = Some v ->
  (forall s, exists e, attachFormValue w k v s = Err e) ->
  forall s, exists e, buildFormDataConfig w payload s = Err e.
Proof.
  intros Hk Hlook Hfail s.
  unfold buildFormDataConfig, bind. simpl.
  match goal with
  | |- context [mapM ?f ?l ?s0] =>
      destruct (mapM_fails f l k) with (s := s0) as [e He]
  end.
  - rewrite keys_stringify_json_fields.
    apply lookup_In in Hlook. unfold keys.
    change k with (fst (k, v)). now apply in_map.
  - intros s1. rewrite lookup_stringify_json_fields_other by assumption.
    rewrite Hlook. apply Hfail.
  - rewrite He. eauto.
Qed.

(** ** C10: an already resolved [media] string next to [type] *)

(** C10.  A field (other than [thumb]/[thumbnail]) whose value is an
    object with both [media] and [type] defined, [media] being a
    string: [attachFormValue] hands the string to [attachFormMedia],
    where ['url' in media] throws a TypeError, so the multipart
    encoding of any mapping with such a field fails; the array branch
    passes an item of the same shape through unchanged. *)
Theorem C10_resolved_media_string_throws
  (w : World) (id : string) (o : object) (s : string) (t : value)
  (payload : object) (st : state) :
  (id =? "thumb") || (id =? "thumbnail") = false ->
  ~ In id FORM_DATA_JSON_FIELDS ->
  lookup "media" o = Some (VStr s) ->
  lookup "type" o = Some t ->
  t <> VUndefined ->
  lookup id payload = Some (VObj o) ->
  attachFormValue w id (VObj o) st = Err JsTypeError /\
  (exists e, buildFormDataConfig w payload st = Err e) /\
  attach_item w (VObj o) st = Ok (VObj o, st).
Proof.
  intros Hid Hjson Hmedia Htype Ht Hfield.
  assert (Hthrow : forall s0, attachFormValue w id (VObj o) s0 = Err JsTypeError).
  { intros s0. unfold attachFormValue. simpl. rewrite Hid.
    simpl. rewrite Hmedia, Htype. simpl.
    destruct t; try congruence; reflexivity. }
  split; [apply Hthrow|]. split.
  - apply buildFormDataConfig_fails with (k := id) (v := VObj o); auto.
    intros s0. eauto.
  - unfold attach_item, bind, lift. simpl. rewrite Hmedia. reflexivity.
Qed.

(** The mapping [{ chat_id: 7, media: { type: 'photo', media:
    'AgACAgI' }, photo: { source: <buffer> } }] is one the scan sends
    to the multipart builder. *)
Lemma payload_resolved_media_is_multipart :
  includesMedia Examples.payload_resolved_media = Ok true.
Proof. reflexivity. Qed.

Lemma C10_witness :
  ((("media" =? "thumb") || ("media" =? "thumbnail") = false) /\
   ~ In "media" FORM_DATA_JSON_FIELDS /\
   lookup "media" Examples.resolved_media = Some (VStr "AgACAgI") /\
   lookup "type" Examples.resolved_media = Some (VStr "photo") /\
   VStr "photo" <> VUndefined /\
   lookup "media" Examples.payload_resolved_media
   = Some (VObj Examples.resolved_media)) /\
  (attachFormValue Examples.world "media" (VObj Examples.resolved_media)
     start = Err JsTypeError /\
   (exists e, buildFormDataConfig Examples.world
                Examples.payload_resolved_media start
              = Err e) /\
   attach_item Examples.world (VObj Examples.resolved_media)
     start
   = Ok (VObj Examples.resolved_media, start)).
Proof.
  assert (H1 : ("media" =? "thumb") || ("media" =? "thumbnail") = false)
    by reflexivity.
  assert (H2 : ~ In "media" FORM_DATA_JSON_FIELDS).
  { simpl. intros [H|[H|[H|[H|[H|[]]]]]]; discriminate. }
  assert (H3 : lookup "media" Examples.resolved_media = Some (VStr "AgACAgI"))
    by reflexivity.
  assert (H4 : lookup "type" Examples.resolved_media = Some (VStr "photo"))
    by reflexivity.
  assert (H5 : VStr "photo" <> VUndefined) by discriminate.
  assert (H6 : lookup "media" Examples.payload_resolved_media
               = Some (VObj Examples.resolved_media)) by reflexivity.
  split.
  - repeat split; assumption.
  - exact (C10_resolved_media_string_throws Examples.world "media"
             Examples.resolved_media "AgACAgI" (VStr "photo")
             Examples.payload_resolved_media start
             H1 H2 H3 H4 H5 H6).
Defined.

(** ** C9: the webhook reply *)

(** [JSON.stringify] of an object is always a string. *)
Lemma document_object (sj : stream -> json) (payload : object) :
  document sj None (VObj payload)
  = Some (JObj (serialize_object (SerializeJSONProperty sj None) payload)).
Proof. reflexivity. Qed.

(** C9.  Whatever the payload (and so whatever [includesMedia] would
    say about it), [answerToWebhook] makes exactly these calls on the
    inbound response: [setHeader('content-type', 'application/json')]
    when the headers were not yet sent, then [end] with the JSON text
    of the payload; it resolves [true].  No multipart body is built. *)
Theorem C9_answerToWebhook_always_json
  (w : World) (response : Response) (payload : object) (options : Options) :
  exists doc,
    document (streamJSON w) None (VObj payload) = Some doc /\
    answerToWebhook w response payload options
    = ({| headersSent := headersSent response;
          calls :=
            calls response ++
            (if headersSent response then []
             else [SetHeader "content-type" "application/json"]) ++
            [End (Some (render doc)) "utf-8"] |},
       true).
Proof.
  eexists. split; [apply document_object|].
  unfold answerToWebhook, JSON_stringify, stringify.
  rewrite document_object. simpl.
  destruct (headersSent response) eqn:E; unfold call; simpl; rewrite ?E.
  - reflexivity.
  - now rewrite <- app_assoc.
Qed.

(** ** The Media Resolver *)

Ltac unfold_monad :=
  unfold bind, lift, ret, throw, addPart, randomBytesHex in *.

Ltac break_match :=
  match goal with
  | H : context [match ?x with _ => _ end] |- _ =>
      let E := fresh "E" in destruct x eqn:E
  | |- context [match ?x with _ => _ end] =>
      let E := fresh "E" in destruct x eqn:E
  end.

(** [open_source] changes nothing in the state and, when it succeeds,
    hands back a stream on the file. *)
Lemma open_source_effect
  (w : World) (filename : value) (path : string) (st st' : state)
  (fileName mediaSource : value) :
  open_source w filename path st = Ok ((fileName, mediaSource), st') ->
  st' = st /\ mediaSource = VStream (FileStream path).
Proof.
  unfold open_source, throw, ret. intros H.
  destruct (realpath w path) as [resolved|]; [|discriminate].
  destruct (isFile w resolved) as [[|]|]; try discriminate.
  inversion H; subst. auto.
Qed.

(** A successful [attachFormMedia] draws nothing and adds at most one
    part, a binary one named [id]. *)
Lemma attachFormMedia_effect
  (w : World) (media : value) (id : string) (st st' : state) :
  attachFormMedia w media id st = Ok (tt, st') ->
  draws st' = draws st /\
  (form st' = form st \/
   exists p, form st' = (form st ++ [p])%list /\
             part_name p = id /\ is_binary p = true).
Proof.
  unfold attachFormMedia. unfold_monad. intros H.
  destruct (get media "filename") as [filename|]; [|discriminate].
  destruct (has_in "url" media &&& _) as [[|]|]; try discriminate.
  - destruct (get media "url") as [url|]; [|discriminate].
    destruct (fetch w url) as [res_body|]; [|discriminate].
    inversion H; subst; simpl. split; auto.
    right. eexists. split; [reflexivity|]. split; reflexivity.
  - destruct (has_in "source" media &&& _) as [[|]|]; try discriminate.
    + destruct (get media "source") as [source|]; [|discriminate].
      destruct source; simpl in H;
        try (inversion H; subst; simpl; auto; fail);
        try (inversion H; subst; simpl; split; auto; right;
             eexists; split; [reflexivity|]; split; reflexivity).
      destruct (open_source w filename s st) as [[[fn ms] s1]|] eqn:Eo;
        [|discriminate].
      apply open_source_effect in Eo. destruct Eo as [-> ->].
      simpl in H. inversion H; subst; simpl. split; auto.
      right. eexists. split; [reflexivity|]. split; reflexivity.
    + inversion H; subst. auto.
Qed.
(** ** C7: a source given as a path *)

(** What [attachFormMedia] does with a non-empty [source] path when no
    [url] is given. *)
Lemma attachFormMedia_path
  (w : World) (o : object) (path id : string) (st : state) :
  lookup "source" o = Some (VStr path) ->
  path <> "" ->
  lookup "url" o = None \/ lookup "url" o = Some VUndefined ->
  attachFormMedia w (VObj o) id st
  = match realpath w path with
    | None => Err (FsError Realpath (errno w Realpath path) path)
    | Some resolved =>
        match isFile w resolved with
        | None => Err (FsError Stat (errno w Stat resolved) resolved)
        | Some false => Err (NotAFile path)
        | Some true =>
            Ok (tt,
                {| form :=
                     form st ++
                     [{| part_name := id;
                         part_filename :=
                           Some (Spec.explicit_or o (basename path));
                         part_body_of := BStream (FileStream path) |}];
                   draws := draws st |})
        end
    end.
Proof.
  intros Hsrc Hpath Hurl.
  assert (Hne : (path =? "") = false) by now apply String.eqb_neq.
  unfold attachFormMedia, open_source, truthy_prop, Spec.explicit_or.
  unfold_monad. simpl.
  assert (Hu : (match lookup "url" o with
                | Some _ => Ok true | None => Ok false end &&&
                (let? url := match lookup "url" o with
                             | Some x => Ok x | None => Ok VUndefined end in
                 Ok (negb (type_tag_eqb (typeof url) TUndefined))))
               = Ok false).
  { destruct Hurl as [-> | ->]; reflexivity. }
  rewrite Hu. rewrite Hsrc. simpl. rewrite Hne. simpl.
  destruct (realpath w path) as [resolved|];
    [|destruct (lookup "filename" o); reflexivity].
  destruct (isFile w resolved) as [[|]|];
    destruct (lookup "filename" o) as [f|]; try reflexivity.
  destruct (nullish f); reflexivity.
Qed.






(** ** C4: thumbnail fields *)

(** The claim as it is stated, at the input it names: [thumb] given
    as the string ["/tmp/x.jpg"], a path to a real file.  The scalar
    test of [attachFormValue] comes before the test on the field name,
    so a single textual part holding the string itself is appended: no
    [attach://] reference and no binary part. *)
Lemma C4_counterexample :
  realpath Examples.world "/tmp/x.jpg" = Some "/tmp/x.jpg" /\
  isFile Examples.world "/tmp/x.jpg" = Some true /\
  attachFormValue Examples.world "thumb" (VStr "/tmp/x.jpg") start
  = Ok (tt, {| form := [text_part "thumb" "/tmp/x.jpg"]; draws := 0 |}) /\
  ~ (exists st' id p,
        attachFormValue Examples.world "thumb" (VStr "/tmp/x.jpg") start
        = Ok (tt, st') /\
        In (text_part "thumb" ("attach://" ++ id)) (form st') /\
        In p (form st') /\ part_name p = id /\ is_binary p = true).
Proof.
  repeat split; try reflexivity.
  intros (st' & id & p & Hrun & _ & Hin & _ & Hbin).
  vm_compute in Hrun. inversion Hrun; subst st'. simpl in Hin.
  destruct Hin as [<- | []]. discriminate.
Qed.

(** C4, amended.  Under [thumb] or [thumbnail]:
    - a string, boolean or number is sent inline, as one textual part
      holding its string conversion;
    - any other non-nullish value is handed to [attachFormMedia] under a
      freshly drawn identifier, and when that succeeds one textual part
      [attach://<id>] is appended under the field name, after the at
      most one binary part named [<id>] the resolver added; when the
      resolver fails the call fails with its error;
    - in particular [{ source: path }] with [path] naming a regular
      file gives exactly two parts: the binary part named [<id>] with
      the path's base name as filename, then the reference. *)
Theorem C4_thumbnail_fields
  (w : World) (id : string) (v : value) (st : state) :
  id = "thumb" \/ id = "thumbnail" ->
  let attachmentId := randomHex w 16 (draws st) in
  let drawn := {| form := form st; draws := S (draws st) |} in
  (is_scalar v = true ->
   attachFormValue w id v st
   = Ok (tt, {| form := form st ++ [text_part id (to_string v)];
                draws := draws st |})) /\
  (nullish v = false -> is_scalar v = false ->
   match attachFormMedia w v attachmentId drawn with
   | Ok (_, resolved) =>
       attachFormValue w id v st
       = Ok (tt, {| form := form resolved ++
                            [text_part id ("attach://" ++ attachmentId)];
                    draws := S (draws st) |}) /\
       (form resolved = form st \/
        exists p, form resolved = (form st ++ [p])%list /\
                  part_name p = attachmentId /\ is_binary p = true)
   | Err e => attachFormValue w id v st = Err e
   end) /\
  (forall path resolved,
      path <> "" ->
      realpath w path = Some resolved ->
      isFile w resolved = Some true ->
      attachFormValue w id (VObj [("source", VStr path)]) st
      = Ok (tt,
            {| form :=
                 form st ++
                 [{| part_name := attachmentId;
                     part_filename := Some (basename path);
                     part_body_of := BStream (FileStream path) |};
                  text_part id ("attach://" ++ attachmentId)];
               draws := S (draws st) |})).
Proof.
  intros Hid attachmentId drawn.
  assert (Hname : (id =? "thumb") || (id =? "thumbnail") = true).
  { destruct Hid as [-> | ->]; reflexivity. }
  assert (Hobj : forall v0, nullish v0 = false -> is_scalar v0 = false ->
    attachFormValue w id v0 st
    = match attachFormMedia w v0 attachmentId drawn with
      | Ok (_, resolved) =>
          Ok (tt, {| form := form resolved ++
                             [text_part id ("attach://" ++ attachmentId)];
                     draws := draws resolved |})
      | Err e => Err e
      end).
  { intros v0 Hn Hs. unfold attachFormValue. rewrite Hn, Hs, Hname.
    unfold_monad. fold attachmentId. fold drawn.
    destruct (attachFormMedia w v0 attachmentId drawn) as [[[] r]|e];
      reflexivity. }
  split; [|split].
  - intros Hs. unfold attachFormValue.
    assert (Hn : nullish v = false) by (destruct v; unfold is_scalar in *; simpl in *; congruence).
    rewrite Hn, Hs. reflexivity.
  - intros Hn Hs. rewrite (Hobj v Hn Hs).
    destruct (attachFormMedia w v attachmentId drawn) as [[[] r]|e] eqn:E;
      [|reflexivity].
    apply attachFormMedia_effect in E. destruct E as [Hd Hf].
    rewrite Hd. simpl. split; [reflexivity | exact Hf].
  - intros path resolved Hpath Hreal Hfile.
    rewrite Hobj by reflexivity.
    rewrite (attachFormMedia_path w [("source", VStr path)] path
               attachmentId drawn) by auto.
    rewrite Hreal, Hfile. simpl. rewrite <- app_assoc. reflexivity.
Qed.


Lemma C4_witness :
  ("thumb" = "thumb" \/ "thumb" = "thumbnail") /\
  attachFormValue Examples.world "thumb" (VObj Examples.file_ref) start
  = Ok (tt,
        {| form :=
             [{| part_name := "id0";
                 part_filename := Some "x.jpg";
                 part_body_of := BStream (FileStream "/tmp/x.jpg") |};
              text_part "thumb" "attach://id0"];
           draws := 1 |}).
Proof.
  assert (H : "thumb" = "thumb" \/ "thumb" = "thumbnail")
    by (left; reflexivity).
  split; [exact H|].
  refine (proj2 (proj2 (C4_thumbnail_fields Examples.world "thumb"
                          (VObj Examples.file_ref) start H))
            "/tmp/x.jpg" "/tmp/x.jpg" _ _ _).
  - discriminate.
  - reflexivity.
  - reflexivity.
Defined.

(** ** C8: redaction *)

Lemma string_app_assoc (a b c : string) : (a ++ b) ++ c = a ++ b ++ c.
Proof. induction a; simpl; congruence. Qed.

Lemma string_length_app (a b : string) :
  String.length (a ++ b) = String.length a + String.length b.
Proof. induction a; simpl; auto. Qed.

Lemma strip_prefix_app (p s : string) : strip_prefix p (p ++ s) = Some s.
Proof.
  induction p as [|c p IH]; simpl.
  - now destruct s.
  - now rewrite Ascii.eqb_refl.
Qed.

Lemma strip_prefix_sound (p s r : string) :
  strip_prefix p s = Some r -> s = p ++ r.
Proof.
  revert s. induction p as [|c p IH]; intros s H; simpl in *.
  - destruct s; inversion H; reflexivity.
  - destruct s as [|d s]; [discriminate|].
    destruct (Ascii.eqb c d) eqn:E; [|discriminate].
    apply Ascii.eqb_eq in E. subst d. f_equal. auto.
Qed.

Lemma span_app (p : ascii -> bool) (a b : string) :
  all_chars p a = true -> stops p b -> span p (a ++ b) = (a, b).
Proof.
  intros Ha Hb. induction a as [|c a IH]; simpl in *.
  - destruct b as [|d b]; simpl in *; [reflexivity|now rewrite Hb].
  - apply andb_true_iff in Ha. destruct Ha as [Hc Ha].
    rewrite Hc, IH by assumption. reflexivity.
Qed.

Lemma span_sound (p : ascii -> bool) (s a b : string) :
  span p s = (a, b) ->
  s = a ++ b /\ all_chars p a = true /\ stops p b.
Proof.
  revert a b. induction s as [|c s IH]; intros a b H; simpl in *.
  - inversion H; subst. simpl. auto.
  - destruct (p c) eqn:Ec.
    + destruct (span p s) as [a' b'] eqn:Es. inversion H; subst.
      destruct (IH a' b eq_refl) as (-> & Ha & Hb).
      simpl. rewrite Ec. auto.
    + inversion H; subst. simpl. auto.
Qed.

Lemma credential_app (mode id secret post : string) :
  Spec.credential mode id secret ++ post
  = "/" ++ mode ++ id ++ ":" ++ secret ++ "/" ++ post.
Proof.
  unfold Spec.credential. simpl. f_equal.
  repeat (rewrite string_app_assoc; simpl). reflexivity.
Qed.

Lemma redacted_app (mode id post : string) :
  Spec.redacted mode id ++ post
  = "/" ++ mode ++ id ++ ":[REDACTED]/" ++ post.
Proof.
  unfold Spec.redacted. simpl. f_equal.
  repeat (rewrite string_app_assoc; simpl). reflexivity.
Qed.

Lemma is_credential_inv (mode id secret : string) :
  Spec.is_credential mode id secret = true ->
  (mode = "bot" \/ mode = "user") /\
  id <> "" /\ all_chars is_digit id = true /\
  secret <> "" /\ all_chars not_slash secret = true.
Proof.
  unfold Spec.is_credential. intros H.
  repeat (apply andb_true_iff in H; destruct H as [H ?]).
  apply orb_true_iff in H.
  repeat split; auto.
  - destruct H as [H|H]; apply String.eqb_eq in H; auto.
  - apply String.eqb_neq. now apply negb_true_iff.
  - apply String.eqb_neq. now apply negb_true_iff.
Qed.

(** The matcher finds a credential path that starts the string. *)
Lemma match_here_complete (mode id secret post : string) :
  Spec.is_credential mode id secret = true ->
  match_here (Spec.credential mode id secret ++ post)
  = Some (mode, id, post).
Proof.
  intros H. apply is_credential_inv in H.
  destruct H as (Hmode & Hid & Hdig & Hsec & Hns).
  rewrite credential_app. unfold match_here.
  change (strip_prefix "/" ("/" ++ mode ++ id ++ ":" ++ secret ++ "/" ++ post))
    with (Some (mode ++ id ++ ":" ++ secret ++ "/" ++ post)).
  assert (Hm : match_mode (mode ++ id ++ ":" ++ secret ++ "/" ++ post)
               = Some (mode, id ++ ":" ++ secret ++ "/" ++ post)).
  { destruct Hmode as [-> | ->]; reflexivity. }
  cbv beta iota. rewrite Hm.
  rewrite (span_app is_digit id (":" ++ secret ++ "/" ++ post))
    by (auto; reflexivity).
  apply String.eqb_neq in Hid. rewrite Hid.
  change (strip_prefix ":" (":" ++ secret ++ "/" ++ post))
    with (Some (secret ++ "/" ++ post)).
  cbv beta iota.
  rewrite (span_app not_slash secret ("/" ++ post)) by (auto; reflexivity).
  apply String.eqb_neq in Hsec. rewrite Hsec.
  reflexivity.
Qed.

Lemma match_mode_sound (s g r : string) :
  match_mode s = Some (g, r) ->
  (g = "bot" \/ g = "user") /\ s = g ++ r.
Proof.
  unfold match_mode. intros H.
  destruct (strip_prefix "bot" s) as [r1|] eqn:E1.
  - inversion H; subst. apply strip_prefix_sound in E1. auto.
  - destruct (strip_prefix "user" s) as [r2|] eqn:E2; [|discriminate].
    inversion H; subst. apply strip_prefix_sound in E2. auto.
Qed.

(** Whatever the matcher finds is a credential path. *)
Lemma match_here_sound (s g1 g2 rest : string) :
  match_here s = Some (g1, g2, rest) ->
  exists secret,
    Spec.is_credential g1 g2 secret = true /\
    s = Spec.credential g1 g2 secret ++ rest.
Proof.
  unfold match_here. intros H.
  destruct (strip_prefix "/" s) as [s1|] eqn:E1; [|discriminate].
  destruct (match_mode s1) as [[m s2]|] eqn:E2; [|discriminate].
  destruct (span is_digit s2) as [d s3] eqn:E3.
  destruct (d =? "") eqn:Ed; [discriminate|].
  destruct (strip_prefix ":" s3) as [s4|] eqn:E4; [|discriminate].
  destruct (span not_slash s4) as [secret s5] eqn:E5.
  destruct (secret =? "") eqn:Es; [discriminate|].
  destruct (strip_prefix "/" s5) as [r|] eqn:E6; [|discriminate].
  inversion H; subst m d r.
  apply strip_prefix_sound in E1, E4, E6.
  apply match_mode_sound in E2. destruct E2 as [Hmode E2].
  apply span_sound in E3, E5.
  destruct E3 as (E3 & Hd & _). destruct E5 as (E5 & Hs & _).
  exists secret. split.
  - unfold Spec.is_credential. rewrite Ed, Es, Hd, Hs. simpl.
    destruct Hmode as [-> | ->]; reflexivity.
  - rewrite credential_app. subst. reflexivity.
Qed.

Lemma replace_equation (s : string) :
  replace s
  = match match_here s with
    | Some (g1, g2, rest) => "/" ++ g1 ++ g2 ++ ":[REDACTED]/" ++ rest
    | None =>
        match s with
        | EmptyString => ""
        | String c r => String c (replace r)
        end
    end.
Proof. destruct s; reflexivity. Qed.

(** The replacement happens at the leftmost credential path. *)
Lemma replace_leftmost (pre mode id secret post : string) :
  Spec.is_credential mode id secret = true ->
  Spec.no_credential_before (String.length pre)
    (pre ++ Spec.credential mode id secret ++ post) ->
  replace (pre ++ Spec.credential mode id secret ++ post)
  = pre ++ Spec.redacted mode id ++ post.
Proof.
  intros Hc. induction pre as [|c pre IH]; intros Hleft.
  - change ("" ++ Spec.credential mode id secret ++ post)
      with (Spec.credential mode id secret ++ post).
    rewrite replace_equation, match_here_complete by assumption.
    rewrite redacted_app. reflexivity.
  - change (String c pre ++ Spec.credential mode id secret ++ post)
      with (String c (pre ++ Spec.credential mode id secret ++ post)) in *.
    rewrite replace_equation.
    destruct (match_here
                (String c (pre ++ Spec.credential mode id secret ++ post)))
      as [[[g1 g2] rest]|] eqn:E.
    + apply match_here_sound in E. destruct E as (secret' & Hc' & E).
      specialize (Hleft "" g1 g2 secret' rest Hc' E).
      simpl in Hleft. lia.
    + change (String c pre ++ Spec.redacted mode id ++ post)
        with (String c (pre ++ Spec.redacted mode id ++ post)).
      f_equal. apply IH.
      intros pre' m' i' s' post' Hc' E'.
      specialize (Hleft (String c pre') m' i' s' post' Hc').
      simpl in Hleft. apply le_S_n, Hleft. now f_equal.
Qed.

Lemma no_match_before_sound (n : nat) (s : string) :
  Spec.no_match_before n s = true -> Spec.no_credential_before n s.
Proof.
  revert s. induction n as [|n IH]; intros s H pre m i sec post Hc E.
  - lia.
  - cbn [Spec.no_match_before] in H. destruct pre as [|c pre].
    + change (s = Spec.credential m i sec ++ post) in E.
      rewrite E, match_here_complete in H by assumption.
      discriminate.
    + destruct (match_here s); [discriminate|].
      change (s = String c (pre ++ Spec.credential m i sec ++ post)) in E.
      subst s. simpl. apply le_n_S.
      eapply IH; eauto.
Qed.

(** C8.  The code at the failing input, a message that names the
    credential path twice: the second [/bot12345:ABCDEF/] is still
    there after the redaction, so the secret is in the rethrown
    error.  The regular expression has no [g] flag and [replace]
    rewrites its first match only. *)
Lemma C8_second_credential_path_survives :
  message Examples.redirect_error
  = Examples.redirect_pre ++ "/bot12345:ABCDEF/" ++ Examples.redirect_post /\
  redactToken Examples.redirect_error
  <> Throw {| name := "FetchError";
              message := Examples.redirect_pre ++ "/bot12345:[REDACTED]/"
                         ++ Examples.redirect_post |} /\
  redactToken Examples.redirect_error
  = Throw {| name := "FetchError";
             message :=
               "request to https://api.telegram.org/bot12345:[REDACTED]/getMe failed, reason: redirected to https://api.telegram.org"
               ++ "/bot12345:ABCDEF/" ++ Examples.redirect_post |}.
Proof.
  split; [reflexivity|]. split.
  - intros H. vm_compute in H. discriminate.
  - vm_compute. reflexivity.
Qed.

(** What [redactToken] does do: it rewrites the leftmost credential
    path of the message, [/bot<id>:<secret>/] or [/user<id>:<secret>/],
    to [/bot<id>:[REDACTED]/] or [/user<id>:[REDACTED]/], leaves the
    rest of the message as it is, and rethrows the error. *)
Lemma redactToken_leftmost
  (err : Error) (pre mode id secret post : string) :
  Spec.is_credential mode id secret = true ->
  message err = pre ++ Spec.credential mode id secret ++ post ->
  Spec.no_credential_before (String.length pre) (message err) ->
  redactToken err
  = Throw {| name := name err;
             message := pre ++ Spec.redacted mode id ++ post |}.
Proof.
  intros Hc Hmsg Hleft. unfold redactToken. rewrite Hmsg in *.
  now rewrite replace_leftmost.
Qed.

(** ** C1: the structural scan *)

Lemma names_medium_reflect (v : value) :
  Spec.names_medium_b v = true <-> Spec.names_medium v.
Proof.
  unfold Spec.names_medium. split.
  - destruct v; simpl; try discriminate. intros H.
    apply orb_true_iff in H. unfold Spec.prop_of in H.
    destruct H as [H|H].
    + destruct (lookup "source" props) as [x|] eqn:E; [|discriminate].
      exists props, x. auto.
    + destruct (lookup "url" props) as [x|] eqn:E; [|discriminate].
      exists props, x. auto.
  - intros (o & x & -> & [H|H] & Ht); simpl; unfold Spec.prop_of;
      rewrite H, Ht; auto using orb_true_r.
Qed.

Lemma has_medium_reflect (v : value) :
  Spec.has_medium_b v = true <-> Spec.has_medium v.
Proof.
  unfold Spec.has_medium. split.
  - destruct v; simpl; try discriminate. intros H.
    unfold Spec.prop_of in H.
    destruct (lookup "media" props) as [m|] eqn:E; [|discriminate].
    exists props, m. rewrite <- names_medium_reflect. auto.
  - intros (o & m & -> & H & Hm). simpl. unfold Spec.prop_of.
    rewrite H. now apply names_medium_reflect.
Qed.

Lemma field_found_reflect (v : value) :
  Spec.field_found_b v = true <-> Spec.field_found v.
Proof.
  destruct v; unfold Spec.field_found_b, Spec.field_found;
    try (rewrite orb_true_iff, names_medium_reflect, has_medium_reflect;
         tauto).
  rewrite existsb_exists.
  split; intros (item & Hin & H); exists item; split; auto;
    now apply has_medium_reflect.
Qed.

Lemma scan_finds_reflect (payload : object) :
  Spec.scan_finds_b payload = true <-> Spec.scan_finds payload.
Proof.
  unfold Spec.scan_finds_b, Spec.scan_finds. rewrite existsb_exists. split.
  - intros ([k v] & Hin & H). simpl in H.
    apply andb_true_iff in H. destruct H as [Hk Hf].
    exists k, v. repeat split; auto.
    + apply String.eqb_neq. now apply negb_true_iff.
    + now apply field_found_reflect.
  - intros (k & v & Hin & Hk & Hf). exists (k, v). split; auto. simpl.
    apply andb_true_iff. split.
    + apply negb_true_iff. now apply String.eqb_neq.
    + now apply field_found_reflect.
Qed.

(** [media.source || media.url], and the object tests of the outer
    callback, on a value that is an object and not [null]. *)
Lemma truthy_source_or_url (m : value) :
  typeof m = TObject -> m <> VNull ->
  (truthy_prop m "source" ||| truthy_prop m "url")
  = Ok (Spec.names_medium_b m).
Proof.
  intros Ht Hn. destruct m; try discriminate; try congruence;
    try reflexivity.
  unfold truthy_prop, Spec.names_medium_b, Spec.prop_of. simpl.
  destruct (lookup "source" props) as [x|]; simpl;
    [destruct (truthy x); simpl|];
    destruct (lookup "url" props) as [y|]; reflexivity.
Qed.

Lemma has_source_or_url (m : value) :
  typeof m = TObject -> m <> VNull ->
  ((hasProp m "source" &&& truthy_prop m "source") |||
   (hasProp m "url" &&& truthy_prop m "url"))
  = Ok (Spec.names_medium_b m).
Proof.
  intros Ht Hn. destruct m; try discriminate; try congruence;
    try reflexivity.
  unfold hasProp, truthy_prop, Spec.names_medium_b, Spec.prop_of. simpl.
  destruct (lookup "source" props) as [x|]; simpl;
    [destruct (truthy x); simpl|];
    destruct (lookup "url" props) as [y|]; reflexivity.
Qed.

Lemma item_includes_media_safe (item : value) :
  nullish item = false ->
  item_includes_media item = Ok (Spec.has_medium_b item).
Proof.
  intros Hn. unfold item_includes_media.
  destruct item; try discriminate; try reflexivity.
  simpl. unfold Spec.prop_of.
  destruct (lookup "media" props) as [m|]; [|reflexivity]. simpl.
  destruct (truthy m) eqn:Et; simpl.
  - destruct (type_tag_eqb (typeof m) TObject) eqn:Eo; simpl.
    + apply truthy_source_or_url.
      * destruct m; simpl in *; congruence.
      * intros ->. discriminate.
    + destruct m; simpl in *; try discriminate; reflexivity.
  - destruct m; simpl in *; try discriminate; reflexivity.
Qed.

Lemma some_items_safe (items : list value) :
  forallb (fun item => negb (nullish item)) items = true ->
  some item_includes_media items = Ok (existsb Spec.has_medium_b items).
Proof.
  induction items as [|item r IH]; simpl; intros H; [reflexivity|].
  apply andb_true_iff in H. destruct H as [Hi Hr].
  rewrite item_includes_media_safe by now apply negb_true_iff.
  simpl. destruct (Spec.has_medium_b item); simpl; auto.
Qed.

Lemma media_clause (o : object) :
  Spec.scan_safe_field (VObj o) = true ->
  (hasPropType (VObj o) "media" TObject &&&
   (let? media := get (VObj o) "media" in
    (hasProp media "source" &&& truthy_prop media "source") |||
    (hasProp media "url" &&& truthy_prop media "url")))
  = Ok (Spec.has_medium_b (VObj o)).
Proof.
  intros Hsafe. unfold hasPropType, Spec.has_medium_b, Spec.prop_of.
  simpl in *.
  destruct (lookup "media" o) as [m|]; [|reflexivity]. simpl.
  destruct m; try discriminate; try reflexivity.
  simpl. apply (has_source_or_url (VObj props)); [reflexivity|discriminate].
Qed.

Lemma object_clause (o : object) :
  Spec.scan_safe_field (VObj o) = true ->
  ((hasProp (VObj o) "source" &&& truthy_prop (VObj o) "source") |||
   (hasProp (VObj o) "url" &&& truthy_prop (VObj o) "url") |||
   (hasPropType (VObj o) "media" TObject &&&
    (let? media := get (VObj o) "media" in
     (hasProp media "source" &&& truthy_prop media "source") |||
     (hasProp media "url" &&& truthy_prop media "url"))))
  = Ok (Spec.names_medium_b (VObj o) || Spec.has_medium_b (VObj o)).
Proof.
  intros Hsafe. rewrite (media_clause o Hsafe).
  rewrite (has_source_or_url (VObj o)) by (reflexivity || discriminate).
  destruct (Spec.names_medium_b (VObj o)); reflexivity.
Qed.

Lemma entry_includes_media_safe (k : string) (v : value) :
  (k =? "link_preview_options") || Spec.scan_safe_field v = true ->
  entry_includes_media (k, v)
  = Ok (negb (k =? "link_preview_options") && Spec.field_found_b v).
Proof.
  intros H. unfold entry_includes_media.
  destruct (k =? "link_preview_options"); [reflexivity|].
  simpl in H. simpl negb. rewrite andb_true_l.
  destruct v; try reflexivity.
  - destruct b; reflexivity.
  - destruct n as [[|neg m e]| | |neg]; reflexivity.
  - simpl. destruct (s =? ""); reflexivity.
  - now apply some_items_safe.
  - change (Ok (truthy (VObj props)) &&&
            Ok (type_tag_eqb (typeof (VObj props)) TObject))
      with (Ok true).
    unfold rand_ at 1. now apply object_clause.
Qed.

Lemma includesMedia_safe (payload : object) :
  Spec.scan_safe payload = true ->
  includesMedia payload = Ok (Spec.scan_finds_b payload).
Proof.
  unfold includesMedia, Spec.scan_safe, Spec.scan_finds_b.
  induction payload as [|[k v] r IH]; intros H; [reflexivity|].
  cbn [forallb fst snd] in H.
  apply andb_true_iff in H. destruct H as [He Hr].
  cbn [some existsb fst snd].
  rewrite entry_includes_media_safe by assumption.
  unfold rbind.
  destruct (negb (k =? "link_preview_options") && Spec.field_found_b v);
    simpl; auto.
Qed.

(** The claim as it is stated, on [{ chat_id: 7, documents: [{ source:
    '/tmp/x.jpg' }] }]: an array element carries a [source] key
    directly, and the scan, which looks only at the [media] of array
    elements, answers false. *)
Lemma C1_counterexample :
  Spec.contains_attachment Examples.payload_direct_element /\
  includesMedia Examples.payload_direct_element = Ok false /\
  ~ (includesMedia Examples.payload_direct_element = Ok true <->
     Spec.contains_attachment Examples.payload_direct_element).
Proof.
  assert (H : Spec.contains_attachment Examples.payload_direct_element).
  { exists "documents", (VArr [VObj Examples.file_ref]).
    split; [simpl; auto|]. split; [discriminate|].
    right. exists [VObj Examples.file_ref], (VObj Examples.file_ref).
    split; [reflexivity|]. split; [simpl; auto|].
    left. exists Examples.file_ref. split; [reflexivity|].
    left. discriminate. }
  split; [exact H|]. split; [reflexivity|].
  intros [_ Hback]. specialize (Hback H). discriminate.
Qed.

(** C1, amended.  On a mapping with no nullish array element and no
    [media: null], [includesMedia] returns true if and only if some
    field not named [link_preview_options] is an array with an element
    whose [media] is an object with a truthy [source] or [url], or is
    itself an object with a truthy [source] or [url], directly or one
    level under [media]; otherwise it returns false. *)
Theorem C1_includesMedia_finds
  (payload : object) :
  Spec.scan_safe payload = true ->
  (includesMedia payload = Ok true <-> Spec.scan_finds payload) /\
  (includesMedia payload = Ok false <-> ~ Spec.scan_finds payload).
Proof.
  intros Hsafe. rewrite (includesMedia_safe payload Hsafe).
  rewrite <- scan_finds_reflect.
  destruct (Spec.scan_finds_b payload); split; split;
    intros H; try reflexivity; congruence.
Qed.

Lemma C1_witness :
  Spec.scan_safe Examples.payload_media_group = true /\
  (includesMedia Examples.payload_media_group = Ok true <->
   Spec.scan_finds Examples.payload_media_group) /\
  (includesMedia Examples.payload_media_group = Ok false <->
   ~ Spec.scan_finds Examples.payload_media_group).
Proof.
  split; [reflexivity|].
  exact (C1_includesMedia_finds Examples.payload_media_group eq_refl).
Defined.

(** ** C3: the JSON body *)

Section JsonView.
Variable sj : stream -> json.

Let ser := SerializeJSONProperty sj (Some replacer).

Lemma serialize_nullish (key : string) (v : value) :
  nullish v = true -> ser key v = None.
Proof. destruct v; try discriminate; reflexivity. Qed.

Lemma serialize_array_view (items : list value) :
  Forall (fun v =>
            Spec.plain_data v = true -> nullish v = false ->
            exists j, (forall key, ser key v = Some j) /\
                      value_of_json j = Spec.json_view v) items ->
  forallb Spec.plain_data items = true ->
  forall i,
    map value_of_json (serialize_array ser i items)
    = map (fun x => if nullish x then VNull else Spec.json_view x) items.
Proof.
  induction 1 as [|v r Hv Hr IH]; intros Hp i; [reflexivity|].
  cbn [forallb] in Hp. apply andb_true_iff in Hp. destruct Hp as [Hpv Hpr].
  cbn [serialize_array map]. rewrite IH by assumption. f_equal.
  destruct (nullish v) eqn:En.
  - now rewrite serialize_nullish.
  - destruct (Hv Hpv eq_refl) as (j & Hj & Hview).
    now rewrite Hj.
Qed.

Lemma serialize_object_view (props : list (string * value)) :
  Forall (fun kv =>
            Spec.plain_data (snd kv) = true -> nullish (snd kv) = false ->
            exists j, (forall key, ser key (snd kv) = Some j) /\
                      value_of_json j = Spec.json_view (snd kv)) props ->
  forallb (fun kv => Spec.plain_data (snd kv)) props = true ->
  map (fun kv => (fst kv, value_of_json (snd kv)))
    (serialize_object ser props)
  = (fix go (l : list (string * value)) : list (string * value) :=
       match l with
       | [] => []
       | (k, x) :: r =>
           if nullish x then go r else (k, Spec.json_view x) :: go r
       end) props.
Proof.
  induction 1 as [|[k v] r Hv Hr IH]; intros Hp; [reflexivity|].
  cbn [forallb snd] in Hp. apply andb_true_iff in Hp.
  destruct Hp as [Hpv Hpr].
  cbn [serialize_object]. cbn [snd] in Hv.
  destruct (nullish v) eqn:En.
  - rewrite serialize_nullish by assumption. now apply IH.
  - destruct (Hv Hpv eq_refl) as (j & Hj & Hview).
    rewrite Hj. cbn [map fst snd]. rewrite Hview. f_equal. now apply IH.
Qed.

(** With [replacer], a plain value that is not nullish has a
    document, and the document reads back as the value's JSON view. *)
Lemma serialize_view (v : value) :
  Spec.plain_data v = true -> nullish v = false ->
  exists j, (forall key, ser key v = Some j) /\
            value_of_json j = Spec.json_view v.
Proof.
  induction v using value_ind'; intros Hp Hn; try discriminate.
  - exists (JBool b). split; reflexivity.
  - destruct n as [x| | |neg];
      [exists (JNum x)|exists (JNum DZero)|exists JNull|exists JNull];
      split; reflexivity.
  - exists (JStr s). split; reflexivity.
  - exists (JArr (serialize_array ser 0 items)). split; [reflexivity|].
    cbn [value_of_json Spec.json_view]. f_equal.
    now apply serialize_array_view.
  - exists (JObj (serialize_object ser props)). split; [reflexivity|].
    cbn [value_of_json Spec.json_view]. f_equal.
    now apply serialize_object_view.
Qed.
End JsonView.

(** Whatever the scan looks for is attachment-shaped in the sense of
    the selection rule. *)
Lemma names_medium_carries (v : value) :
  Spec.names_medium v -> Spec.carries_ref_key v.
Proof.
  intros (o & x & -> & H & _). exists o. split; [reflexivity|].
  destruct H as [H|H]; rewrite H; [left|right]; discriminate.
Qed.

Lemma has_medium_shaped (v : value) :
  Spec.has_medium v -> Spec.attachment_shaped v.
Proof.
  intros (o & m & -> & H & Hm). right. exists o, m.
  auto using names_medium_carries.
Qed.

Lemma scan_finds_contains (payload : object) :
  Spec.scan_finds payload -> Spec.contains_attachment payload.
Proof.
  intros (k & v & Hin & Hk & Hf). exists k, v. repeat split; auto.
  unfold Spec.holds_attachment.
  assert (Hgen : Spec.names_medium v \/ Spec.has_medium v ->
                 Spec.attachment_shaped v).
  { intros [H|H]; [left; now apply names_medium_carries
                  |now apply has_medium_shaped]. }
  destruct v; simpl in Hf; auto.
  destruct Hf as (item & Hitem & Hm).
  right. exists items, item. auto using has_medium_shaped.
Qed.

(** ** What a multipart call leaves in the form *)

Lemma count_name_app (n : string) (a b : list part) :
  Spec.count_name n (a ++ b) = Spec.count_name n a + Spec.count_name n b.
Proof.
  unfold Spec.count_name. now rewrite filter_app, length_app.
Qed.

Lemma count_name_pos (n : string) (l : list part) :
  1 <= Spec.count_name n l -> exists p, In p l /\ part_name p = n.
Proof.
  unfold Spec.count_name. intros H.
  destruct (filter (fun p => part_name p =? n) l) as [|p r] eqn:E.
  - simpl in H. lia.
  - assert (Hin : In p (filter (fun p => part_name p =? n) l))
      by (rewrite E; simpl; auto).
    apply filter_In in Hin. destruct Hin as [Hin Hn].
    exists p. split; auto. now apply String.eqb_eq.
Qed.

Lemma count_name_zero (n : string) (l : list part) :
  (forall p, In p l -> part_name p <> n) -> Spec.count_name n l = 0.
Proof.
  intros H. destruct (Spec.count_name n l) as [|c] eqn:E; [reflexivity|].
  destruct (count_name_pos n l) as (p & Hin & Hn); [lia|].
  exfalso. eapply H; eauto.
Qed.

Lemma get_media_of (item m : value) :
  get item "media" = Ok m -> m = Spec.media_of item.
Proof.
  destruct item; simpl; try discriminate; try congruence.
  unfold Spec.prop_of. destruct (lookup "media" props); congruence.
Qed.

Lemma media_of_object (item : value) :
  Spec.is_object (Spec.media_of item) = true -> exists o, item = VObj o.
Proof. destruct item; try discriminate. eauto. Qed.

Lemma get_prop_of (o : object) (k : string) :
  get (VObj o) k = Ok (Spec.prop_of o k).
Proof. unfold Spec.prop_of. simpl. now destruct (lookup k o). Qed.

(** The array callback on an object whose [media] is of type object. *)
Lemma attach_item_object (w : World) (o : object) (s : state) :
  Spec.is_object (Spec.prop_of o "media") = true ->
  attach_item w (VObj o) s
  = match attachFormMedia w (Spec.prop_of o "media")
            (Spec.attachment_id w (draws s))
            {| form := form s; draws := S (draws s) |} with
    | Err e => Err e
    | Ok (_, s1) =>
        if Spec.is_object (Spec.thumb_of o) then
          match attachFormMedia w (Spec.thumb_of o)
                  (Spec.attachment_id w (draws s1))
                  {| form := form s1; draws := S (draws s1) |} with
          | Err e => Err e
          | Ok (_, s2) =>
              Ok (VObj (JS.set "thumbnail"
                          (attach_ref (Spec.attachment_id w (draws s1)))
                          (JS.set "media"
                             (attach_ref (Spec.attachment_id w (draws s)))
                             o)), s2)
          end
        else
          Ok (VObj (JS.set "media"
                      (attach_ref (Spec.attachment_id w (draws s))) o), s1)
    end.
Proof.
  intros Hobj. unfold attach_item. unfold_monad.
  rewrite !get_prop_of. unfold Spec.is_object in *. rewrite Hobj.
  cbn [negb]. unfold Spec.attachment_id.
  destruct (attachFormMedia w (Spec.prop_of o "media") _ _)
    as [[[] s1]|e]; [|reflexivity].
  unfold Spec.thumb_of.
  destruct (nullish (Spec.prop_of o "thumb"));
    rewrite ?get_prop_of;
    match goal with
    | |- context [type_tag_eqb (typeof ?t) TObject] =>
        destruct (type_tag_eqb (typeof t) TObject)
    end; try reflexivity;
    match goal with
    | |- context [attachFormMedia w ?t ?i ?st] =>
        destruct (attachFormMedia w t i st) as [[[] s2]|e2]
    end; reflexivity.
Qed.




(** The array branch of [attachFormValue]. *)
Lemma attachFormValue_array_run
  (w : World) (id : string) (items : list value) (s s' : state) :
  (id =? "thumb") || (id =? "thumbnail") = false ->
  attachFormValue w id (VArr items) s = Ok (tt, s') ->
  exists items' s1,
    mapM (attach_item w) items s = Ok (items', s1) /\
    s' = {| form := form s1 ++ [text_part id (stringified w (VArr items'))];
            draws := draws s1 |}.
Proof.
  intros Hid H. unfold attachFormValue in H.
  cbn [nullish] in H. change (is_scalar (VArr items)) with false in H.
  cbv iota in H. rewrite Hid in H. unfold bind at 1 in H.
  destruct (mapM (attach_item w) items s) as [[items' s1]|e] eqn:E;
    [|discriminate].
  unfold addPart in H. inversion H; subst s'. eauto.
Qed.

Section Summary.
Variable w : World.
(** The draws of the call, *)
Variables lo hi : nat.
Hypothesis Hdistinct : Spec.distinct_ids w lo hi.

(** and the names the fields may use: none of them is an identifier
    of the call. *)
Variable K : string -> Prop.
Hypothesis HK : forall i, lo <= i < hi -> ~ K (Spec.attachment_id w i).

Lemma summary_refl (s : state) : Spec.summary w K s s.
Proof.
  exists []. rewrite app_nil_r. repeat split; auto.
  intros p [].
Qed.

(** What a run adds bears no identifier drawn outside the run. *)
Lemma summary_outside (s s' : state) (new : list part) (i : nat) :
  lo <= draws s -> draws s' <= hi -> lo <= i < hi ->
  (forall p, In p new ->
     K (part_name p) \/
     exists j, draws s <= j < draws s' /\
               part_name p = Spec.attachment_id w j /\ is_binary p = true) ->
  i < draws s \/ draws s' <= i ->
  Spec.count_name (Spec.attachment_id w i) new = 0.
Proof.
  intros Hlo Hhi Hi Hn Hout. apply count_name_zero. intros p Hin Hp.
  destruct (Hn p Hin) as [Hk | (j & Hj & Hq & _)].
  - rewrite Hp in Hk. exact (HK i Hi Hk).
  - rewrite Hp in Hq. apply Hdistinct in Hq; lia.
Qed.

Lemma summary_trans (s1 s2 s3 : state) :
  lo <= draws s1 -> draws s3 <= hi ->
  Spec.summary w K s1 s2 -> Spec.summary w K s2 s3 ->
  Spec.summary w K s1 s3.
Proof.
  intros Hlo Hhi (n1 & Hf1 & Hd1 & Hn1 & Hc1) (n2 & Hf2 & Hd2 & Hn2 & Hc2).
  exists (n1 ++ n2)%list. split; [|split; [|split]].
  - rewrite Hf2, Hf1. now rewrite app_assoc.
  - lia.
  - intros p Hin. apply in_app_or in Hin. destruct Hin as [Hin|Hin].
    + destruct (Hn1 p Hin) as [Hk | (i & Hi & Hp & Hb)]; [now left|].
      right. exists i. repeat split; auto; lia.
    + destruct (Hn2 p Hin) as [Hk | (i & Hi & Hp & Hb)]; [now left|].
      right. exists i. repeat split; auto; lia.
  - intros i Hi. rewrite count_name_app.
    destruct (Nat.lt_ge_cases i (draws s2)) as [Hlt|Hge].
    + rewrite (summary_outside s2 s3 n2 i); [|lia|lia|lia|exact Hn2|lia].
      specialize (Hc1 i). lia.
    + rewrite (summary_outside s1 s2 n1 i); [|lia|lia|lia|exact Hn1|lia].
      specialize (Hc2 i). lia.
Qed.

Lemma count_name_one (n : string) (p : part) : Spec.count_name n [p] <= 1.
Proof.
  unfold Spec.count_name. cbn [filter].
  destruct (part_name p =? n); simpl; lia.
Qed.

(** One part under a field name. *)
Lemma summary_field_part (s : state) (p : part) :
  K (part_name p) ->
  Spec.summary w K s {| form := form s ++ [p]; draws := draws s |}.
Proof.
  intros Hk. exists [p]. repeat split; auto.
  - intros q [<- | []]. now left.
  - intros i _. apply count_name_one.
Qed.

(** A resolution under a field name. *)
Lemma summary_field_media (media : value) (id : string) (s s' : state) :
  K id ->
  attachFormMedia w media id s = Ok (tt, s') ->
  Spec.summary w K s s'.
Proof.
  intros Hk H. apply attachFormMedia_effect in H.
  destruct H as [Hd [Hf | (p & Hf & Hp & Hb)]].
  - exists []. rewrite app_nil_r. repeat split; auto; try lia.
    intros p [].
  - exists [p]. repeat split; auto; try lia.
    intros q [<- | []]. left. now rewrite Hp.
Qed.

(** A resolution under a freshly drawn identifier. *)
Lemma summary_fresh_media (media : value) (s s' : state) :
  attachFormMedia w media (Spec.attachment_id w (draws s))
    {| form := form s; draws := S (draws s) |} = Ok (tt, s') ->
  draws s' = S (draws s) /\
  Spec.summary w K s s'.
Proof.
  intros H. apply attachFormMedia_effect in H. simpl in H.
  destruct H as [Hd [Hf | (p & Hf & Hp & Hb)]].
  - split; [exact Hd|].
    exists []. rewrite app_nil_r. repeat split; auto; try lia.
    intros p [].
  - split; [exact Hd|].
    exists [p]. repeat split; auto; try lia.
    + intros q [<- | []]. right. exists (draws s).
      repeat split; auto; lia.
    + intros i _. apply count_name_one.
Qed.

(** The same steps, with their draws within the call. *)
Lemma summary_in_refl (s : state) : Spec.summary_in w K lo hi s s.
Proof. split; [lia|]. intros _ _. apply summary_refl. Qed.

Lemma summary_in_trans (s1 s2 s3 : state) :
  Spec.summary_in w K lo hi s1 s2 -> Spec.summary_in w K lo hi s2 s3 ->
  Spec.summary_in w K lo hi s1 s3.
Proof.
  intros [Hd1 H1] [Hd2 H2]. split; [lia|]. intros Hlo Hhi.
  apply (summary_trans s1 s2 s3 Hlo Hhi); [apply H1|apply H2]; lia.
Qed.

Lemma summary_in_field_part (s : state) (p : part) :
  K (part_name p) ->
  Spec.summary_in w K lo hi s {| form := form s ++ [p]; draws := draws s |}.
Proof.
  intros Hk. split; [simpl; lia|]. intros _ _.
  now apply summary_field_part.
Qed.

Lemma summary_in_field_media (media : value) (id : string) (s s' : state) :
  K id ->
  attachFormMedia w media id s = Ok (tt, s') ->
  Spec.summary_in w K lo hi s s'.
Proof.
  intros Hk H. split.
  - apply attachFormMedia_effect in H. destruct H as [Hd _]. lia.
  - intros _ _. exact (summary_field_media media id s s' Hk H).
Qed.

Lemma summary_in_fresh_media (media : value) (s s' : state) :
  attachFormMedia w media (Spec.attachment_id w (draws s))
    {| form := form s; draws := S (draws s) |} = Ok (tt, s') ->
  Spec.summary_in w K lo hi s s'.
Proof.
  intros H. destruct (summary_fresh_media media s s' H) as [Hd Hs].
  split; [lia|]. intros _ _. exact Hs.
Qed.

End Summary.

(** ** Relations that every step of the multipart builder respects *)

Section Closure.
Variable w : World.
(** The names of the fields. *)
Variable K : string -> Prop.
(** A relation between the states before and after a step ... *)
Variable R : state -> state -> Prop.
(** ... that holds of no step and of two steps in a row, *)
Hypothesis R_refl : forall s, R s s.
Hypothesis R_trans : forall s1 s2 s3, R s1 s2 -> R s2 s3 -> R s1 s3.
(** of adding a part under a field name, *)
Hypothesis R_field_part :
  forall s p,
    K (part_name p) ->
    R s {| form := form s ++ [p]; draws := draws s |}.
(** and of a resolution under a field name or under a fresh
    identifier. *)
Hypothesis R_field_media :
  forall media id s s',
    K id -> attachFormMedia w media id s = Ok (tt, s') -> R s s'.
Hypothesis R_fresh_media :
  forall media s s',
    attachFormMedia w media (Spec.attachment_id w (draws s))
      {| form := form s; draws := S (draws s) |} = Ok (tt, s') ->
    R s s'.

(** The array callback. *)
Lemma attach_item_closed (item item' : value) (s s' : state) :
  attach_item w item s = Ok (item', s') -> R s s'.
Proof.
  intros H.
  destruct (Spec.is_object (Spec.media_of item)) eqn:Eobj.
  - destruct (media_of_object item Eobj) as [o ->].
    simpl in Eobj. rewrite (attach_item_object w o s Eobj) in H.
    destruct (attachFormMedia w (Spec.prop_of o "media") _ _)
      as [[[] s1]|e] eqn:E1; [|discriminate].
    pose proof (R_fresh_media _ _ _ E1) as Hs1.
    destruct (Spec.is_object (Spec.thumb_of o)).
    + destruct (attachFormMedia w (Spec.thumb_of o) _ _)
        as [[[] s2]|e] eqn:E2; [|discriminate].
      pose proof (R_fresh_media _ _ _ E2) as Hs2.
      inversion H; subst. eapply R_trans; eauto.
    + inversion H; subst. exact Hs1.
  - unfold attach_item in H. unfold_monad.
    destruct (get item "media") as [m|] eqn:Em; [|discriminate].
    apply get_media_of in Em. subst m.
    unfold Spec.is_object in Eobj. rewrite Eobj in H. cbn [negb] in H.
    inversion H; subst. apply R_refl.
Qed.

Lemma mapM_attach_item_closed (items : list value) :
  forall (items' : list value) (s s' : state),
    mapM (attach_item w) items s = Ok (items', s') ->
    R s s'.
Proof.
  induction items as [|item r IH]; intros items' s s' H.
  - simpl in H. unfold ret in H. inversion H; subst. apply R_refl.
  - cbn [mapM] in H. unfold bind at 1 in H.
    destruct (attach_item w item s) as [[item' s1]|e] eqn:E1;
      [|discriminate].
    unfold bind at 1 in H.
    destruct (mapM (attach_item w) r s1) as [[r' s2]|e] eqn:E2;
      [|discriminate].
    unfold ret in H. inversion H; subst items' s'. clear H.
    eapply R_trans.
    + eapply attach_item_closed; eauto.
    + eapply IH; eauto.
Qed.

(** One field of the mapping. *)
Lemma attachFormValue_closed (id : string) (v : value) (s s' : state) :
  K id ->
  attachFormValue w id v s = Ok (tt, s') ->
  R s s'.
Proof.
  intros Hk H.
  destruct ((id =? "thumb") || (id =? "thumbnail")) eqn:Hid.
  - unfold attachFormValue in H.
    destruct (nullish v);
      [unfold ret in H; inversion H; apply R_refl|].
    destruct (is_scalar v);
      [unfold addPart in H; inversion H; now apply R_field_part|].
    rewrite Hid in H. unfold_monad.
    change (randomHex w 16 (draws s))
      with (Spec.attachment_id w (draws s)) in H.
    destruct (attachFormMedia w v _ _) as [[[] s1]|e] eqn:E;
      [|discriminate].
    inversion H; subst s'. clear H.
    pose proof (R_fresh_media _ _ _ E) as Hs.
    eapply R_trans; [exact Hs|].
    now apply R_field_part.
  - destruct v;
      try (unfold attachFormValue in H; cbn in H;
           unfold ret, addPart in H; inversion H;
           (apply R_refl || now apply R_field_part)).
    1: { destruct (attachFormValue_array_run w id items s s' Hid H)
           as (items' & s1 & Hmap & ->).
         eapply R_trans.
         - eapply mapM_attach_item_closed; eauto.
         - now apply R_field_part. }
    all: unfold attachFormValue in H; cbn [nullish] in H;
      match type of H with
      | context [is_scalar ?x] => change (is_scalar x) with false in H
      end;
      cbv iota in H; rewrite Hid in H;
      unfold bind at 1, lift at 1 in H;
      match type of H with
      | context [match ?c with Ok _ => _ | Err _ => _ end] =>
          destruct c as [[|]|]; try discriminate
      end;
      try (eapply R_field_media; eassumption).
    all: unfold bind at 1, randomBytesHex in H;
      unfold bind at 1, lift at 1 in H;
      match type of H with
      | context [get ?x "media"] =>
          destruct (get x "media") as [m|]; [|discriminate]
      end;
      unfold bind at 1 in H;
      change (randomHex w 16 (draws s))
        with (Spec.attachment_id w (draws s)) in H;
      destruct (attachFormMedia w m _ _) as [[[] s1]|e] eqn:E;
        [|discriminate];
      unfold addPart in H; inversion H; subst s'; clear H;
      pose proof (R_fresh_media _ _ _ E) as Hs;
      (eapply R_trans; [exact Hs|]);
      now apply R_field_part.
Qed.

(** All the fields of a mapping, in the order of its keys. *)
Lemma mapM_fields_closed (payload : object) (ks : list string) :
  (forall k, In k ks -> K k) ->
  forall (r : list unit) (s s' : state),
    mapM (fun key =>
            attachFormValue w key
              match lookup key payload with
              | Some v => v
              | None => VUndefined
              end) ks s = Ok (r, s') ->
    R s s'.
Proof.
  induction ks as [|k ks IH]; intros Hks r s s' H.
  - simpl in H. unfold ret in H. inversion H. apply R_refl.
  - cbn [mapM] in H. unfold bind at 1 in H.
    match type of H with
    | context [attachFormValue w k ?v s] =>
        destruct (attachFormValue w k v s) as [[[] s1]|e] eqn:E1;
          [|discriminate]
    end.
    unfold bind at 1 in H.
    match type of H with
    | context [mapM ?f ks s1] =>
        destruct (mapM f ks s1) as [[r' s2]|e] eqn:E2; [|discriminate]
    end.
    unfold ret in H. inversion H; subst r s'. clear H.
    eapply R_trans.
    + eapply attachFormValue_closed; [|exact E1]. apply Hks. now left.
    + eapply IH; [|exact E2]. intros k' Hk'. apply Hks. now right.
Qed.

Lemma buildFormDataConfig_closed
  (payload : object) (s s' : state) (cfg : RequestInit) :
  (forall k, In k (keys payload) -> K k) ->
  buildFormDataConfig w payload s = Ok (cfg, s') ->
  body cfg = FormBody (randomHex w 32 (draws s)) (form s') /\
  R {| form := []; draws := S (draws s) |} s'.
Proof.
  intros Hks H. unfold buildFormDataConfig in H.
  unfold bind at 1, randomBytesHex at 1 in H.
  unfold bind at 1, newForm at 1 in H.
  unfold bind at 1 in H.
  match type of H with
  | context [mapM ?f ?l ?s0] =>
      destruct (mapM f l s0) as [[r s1]|e] eqn:E; [|discriminate]
  end.
  inversion H; subst cfg s'. clear H. split; [reflexivity|].
  eapply mapM_fields_closed; [|exact E].
  intros k Hk. apply Hks.
  now rewrite keys_stringify_json_fields in Hk.
Qed.
End Closure.

(** The summary of a whole multipart call. *)
Lemma buildFormDataConfig_summary
  (w : World) (lo hi : nat) (Hdistinct : Spec.distinct_ids w lo hi)
  (K : string -> Prop)
  (HK : forall i, lo <= i < hi -> ~ K (Spec.attachment_id w i))
  (payload : object) (s s' : state) (cfg : RequestInit) :
  (forall k, In k (keys payload) -> K k) ->
  buildFormDataConfig w payload s = Ok (cfg, s') ->
  body cfg = FormBody (randomHex w 32 (draws s)) (form s') /\
  Spec.summary_in w K lo hi {| form := []; draws := S (draws s) |} s'.
Proof.
  apply (buildFormDataConfig_closed w K (Spec.summary_in w K lo hi)).
  - apply summary_in_refl.
  - now apply summary_in_trans.
  - now apply summary_in_field_part.
  - now apply summary_in_field_media.
  - now apply summary_in_fresh_media.
Qed.

(** Every step only adds parts to the form. *)
Lemma form_grows_refl (s : state) : Spec.form_grows s s.
Proof. exists []. now rewrite app_nil_r. Qed.

Lemma form_grows_trans (s1 s2 s3 : state) :
  Spec.form_grows s1 s2 -> Spec.form_grows s2 s3 -> Spec.form_grows s1 s3.
Proof.
  intros (n1 & H1) (n2 & H2). exists (n1 ++ n2)%list.
  rewrite H2, H1. now rewrite app_assoc.
Qed.

Lemma attachFormMedia_grows
  (w : World) (media : value) (id : string) (s s' : state) :
  attachFormMedia w media id s = Ok (tt, s') -> Spec.form_grows s s'.
Proof.
  intros Hm. apply attachFormMedia_effect in Hm.
  destruct Hm as [_ [Hf | (p & Hf & _)]].
  - exists []. now rewrite app_nil_r.
  - exists [p]. exact Hf.
Qed.

Lemma attachFormValue_grows
  (w : World) (id : string) (v : value) (s s' : state) :
  attachFormValue w id v s = Ok (tt, s') -> Spec.form_grows s s'.
Proof.
  apply (attachFormValue_closed w (fun _ => True) Spec.form_grows); auto.
  - apply form_grows_refl.
  - apply form_grows_trans.
  - intros s0 p _. exists [p]. reflexivity.
  - intros media id0 s0 s1 _. apply attachFormMedia_grows.
  - intros media s0 s1 Hm. apply attachFormMedia_grows in Hm. exact Hm.
Qed.


(** A successful resolution adds exactly one binary part under its
    name when the value yields a body, and nothing otherwise. *)
Lemma attachFormMedia_source_yields
  (w : World) (o : object) (id : string) (s s' : state) :
  lookup "url" o = None \/ lookup "url" o = Some VUndefined ->
  attachFormMedia w (VObj o) id s = Ok (tt, s') ->
  if Spec.source_yields o then
    exists p, s' = {| form := form s ++ [p]; draws := draws s |} /\
              part_name p = id /\ is_binary p = true
  else s' = s.
Proof.
  intros Hurl. unfold Spec.source_yields.
  destruct (lookup "source" o) as [src|] eqn:Esrc.
  - destruct src as [| |b|n|path|items|props|bytes|str];
      try (unfold attachFormMedia, truthy_prop; unfold_monad;
           cbn [get has_in]; rewrite Esrc;
           destruct Hurl as [-> | ->]; cbn;
           destruct (lookup "filename" o); cbn;
           repeat match goal with
                  | |- context [if ?b then _ else _] => destruct b; cbn
                  end;
           intros H; inversion H; subst;
           first [reflexivity
                 |eexists; split; [reflexivity|]; split; reflexivity]).
    destruct (String.eqb_spec path "") as [-> | Hne]; cbn [negb].
    + unfold attachFormMedia, truthy_prop; unfold_monad.
      cbn [get has_in]. rewrite Esrc.
      destruct Hurl as [-> | ->]; cbn;
        destruct (lookup "filename" o); cbn;
        intros H; inversion H; subst; reflexivity.
    + rewrite (attachFormMedia_path w o path id s Esrc Hne Hurl).
      destruct (realpath w path) as [resolved|]; [|discriminate].
      destruct (isFile w resolved) as [[|]|]; try discriminate.
      intros H. inversion H. eexists. split; [reflexivity|].
      split; reflexivity.
  - unfold attachFormMedia, truthy_prop; unfold_monad.
    cbn [get has_in]. rewrite Esrc.
    destruct Hurl as [-> | ->]; cbn;
      destruct (lookup "filename" o); cbn;
      intros H; inversion H; subst; reflexivity.
Qed.

Lemma attachFormMedia_yields
  (w : World) (media : value) (id : string) (s s' : state) :
  attachFormMedia w media id s = Ok (tt, s') ->
  if Spec.yields_body media then
    exists p, s' = {| form := form s ++ [p]; draws := draws s |} /\
              part_name p = id /\ is_binary p = true
  else s' = s.
Proof.
  destruct media;
    try (unfold attachFormMedia; unfold_monad; cbn; intros H;
         (discriminate || (inversion H; subst; reflexivity))).
  cbn [Spec.yields_body].
  destruct (lookup "url" props) as [url|] eqn:Eurl.
  - destruct url;
      try (apply attachFormMedia_source_yields; auto; fail);
      unfold attachFormMedia; unfold_monad; cbn [get has_in];
      rewrite Eurl; cbn;
      destruct (lookup "filename" props); cbn;
      (destruct (fetch w _); [|discriminate]);
      intros H; inversion H; eexists; (split; [reflexivity|]);
      split; reflexivity.
  - apply attachFormMedia_source_yields; auto.
Qed.

(** ** C2: references and the parts they name *)

(** The claim as it is stated, on [{ chat_id: 7, photo: { source:
    <buffer> }, thumbnail: { source: '' } }], which the scan sends to
    the multipart builder: the body holds the textual part
    [thumbnail = attach://id1], and no part is named [id1], the empty
    source of the thumbnail having produced none. *)
Lemma C2_counterexample :
  includesMedia Examples.payload_empty_thumbnail = Ok true /\
  exists cfg st' parts,
    buildFormDataConfig Examples.world Examples.payload_empty_thumbnail
      start = Ok (cfg, st') /\
    body cfg = FormBody "id0" parts /\
    In (text_part "thumbnail" "attach://id1") parts /\
    Spec.count_name "id1" parts = 0 /\
    ~ Spec.references_resolved parts.
Proof.
  split; [reflexivity|].
  eexists. eexists. eexists.
  split; [vm_compute; reflexivity|].
  split; [reflexivity|].
  split; [simpl; auto|].
  split; [reflexivity|].
  intros H.
  specialize (H (text_part "thumbnail" "attach://id1") "id1").
  simpl in H.
  assert (Hc : Spec.count_name "id1"
                 [text_part "chat_id" "7";
                  {| part_name := "photo";
                     part_filename := Some "photo.jpg";
                     part_body_of := BBuffer [Byte.x89; Byte.x50] |};
                  text_part "thumbnail" "attach://id1"] = 1)
    by (apply H; auto).
  vm_compute in Hc. discriminate.
Qed.

Lemma string_of_Z_inj (a b : Z) : string_of_Z a = string_of_Z b -> a = b.
Proof.
  unfold string_of_Z. intros H.
  assert (Hn : forall z, Z.to_int z <> Decimal.Pos Decimal.Nil /\
                         Z.to_int z <> Decimal.Neg Decimal.Nil).
  { intros [|p|p]; simpl; split; try discriminate;
      intros E; inversion E as [E'];
      now apply DecimalPos.Unsigned.to_uint_nonnil in E'. }
  apply DecimalZ.to_int_inj.
  apply (f_equal NilZero.int_of_string) in H.
  rewrite !NilZero.isi in H by apply Hn.
  now inversion H.
Qed.

Lemma distinct_ids_world (lo hi : nat) :
  Spec.distinct_ids Examples.world lo hi.
Proof.
  intros i j _ _ H. unfold Spec.attachment_id in H. simpl in H.
  inversion H as [H']. apply string_of_Z_inj in H'.
  now apply Nat2Z.inj.
Qed.

(** ** C5: arrays of group items *)





(** ** C6: JSON fields *)

(** [JSON.stringify] gives a string for everything but [undefined]. *)
Lemma JSON_stringify_defined (w : World) (v : value) :
  v <> VUndefined -> exists text, JSON_stringify w v = Some text.
Proof.
  intros Hv. unfold JSON_stringify, stringify, document.
  destruct v as [| | |[[|]| | |]| | | | |]; try congruence; simpl; eauto.
Qed.

Lemma lookup_stringify_field_same
  (w : World) (payload : object) (field : string) (v : value) (text : string) :
  lookup field payload = Some v ->
  typeof v <> TString ->
  JSON_stringify w v = Some text ->
  lookup field (stringify_field w payload field) = Some (VStr text).
Proof.
  intros Hl Ht Hs. unfold stringify_field. rewrite Hl.
  destruct v; try (simpl in Ht; congruence);
    rewrite Hs; apply lookup_set_same.
Qed.

Lemma lookup_stringify_field_string
  (w : World) (payload : object) (field k : string) (text : string) :
  lookup k payload = Some (VStr text) ->
  lookup k (stringify_field w payload field) = Some (VStr text).
Proof.
  intros Hl. destruct (String.eqb_spec k field) as [-> | Hne].
  - unfold stringify_field. now rewrite Hl.
  - now rewrite lookup_stringify_field_other.
Qed.

Lemma lookup_fold_stringify_string
  (w : World) (fields : list string) (k : string) (text : string) :
  forall payload,
    lookup k payload = Some (VStr text) ->
    lookup k (fold_left (stringify_field w) fields payload)
    = Some (VStr text).
Proof.
  induction fields as [|f r IH]; simpl; intros payload Hl; auto.
  apply IH. now apply lookup_stringify_field_string.
Qed.

Lemma lookup_fold_stringify_in
  (w : World) (fields : list string) (field : string) (v : value)
  (text : string) :
  In field fields ->
  typeof v <> TString ->
  JSON_stringify w v = Some text ->
  forall payload,
    lookup field payload = Some v ->
    lookup field (fold_left (stringify_field w) fields payload)
    = Some (VStr text).
Proof.
  intros Hin Ht Hs.
  induction fields as [|f r IH]; simpl; intros payload Hl; [contradiction|].
  destruct (String.eqb_spec f field) as [-> | Hne].
  - apply lookup_fold_stringify_string.
    eapply lookup_stringify_field_same; eauto.
  - destruct Hin as [Heq | Hin]; [congruence|].
    apply IH; auto.
    rewrite lookup_stringify_field_other by congruence. exact Hl.
Qed.

(** After the pass, a listed field holds a string or [undefined]. *)
Lemma stringify_field_result
  (w : World) (payload : object) (field : string) (x : value) :
  lookup field (stringify_field w payload field) = Some x ->
  typeof x = TString \/ x = VUndefined.
Proof.
  unfold stringify_field.
  destruct (lookup field payload) as [v|] eqn:E; [|congruence].
  destruct v;
    try (rewrite lookup_set_same; intros H; inversion H; subst;
         destruct (JSON_stringify w _); auto; fail).
  rewrite E. intros H. inversion H. auto.
Qed.

Lemma fold_stringify_keeps
  (w : World) (fields : list string) (k : string) :
  forall payload x,
    (forall y, lookup k payload = Some y ->
               typeof y = TString \/ y = VUndefined) ->
    lookup k (fold_left (stringify_field w) fields payload) = Some x ->
    typeof x = TString \/ x = VUndefined.
Proof.
  induction fields as [|f r IH]; simpl; intros payload x Hinv Hl; auto.
  eapply IH; [|exact Hl].
  intros y Hy. destruct (String.eqb_spec k f) as [-> | Hne].
  - eapply stringify_field_result; eauto.
  - rewrite lookup_stringify_field_other in Hy by assumption. auto.
Qed.

Lemma fold_stringify_result
  (w : World) (fields : list string) (field : string) :
  In field fields ->
  forall payload x,
    lookup field (fold_left (stringify_field w) fields payload) = Some x ->
    typeof x = TString \/ x = VUndefined.
Proof.
  induction fields as [|f r IH]; simpl; intros Hin payload x Hl;
    [contradiction|].
  destruct (String.eqb_spec f field) as [-> | Hne].
  - eapply fold_stringify_keeps; [|exact Hl].
    intros y Hy. eapply stringify_field_result; eauto.
  - destruct Hin as [Heq | Hin]; [congruence|]. eapply IH; eauto.
Qed.

(** A part added for one of the keys is in the final form. *)
Lemma mapM_fields_contains
  (w : World) (payload : object) (k : string) (p : part) :
  (forall s,
      attachFormValue w k
        match lookup k payload with
        | Some v => v
        | None => VUndefined
        end s
      = Ok (tt, {| form := form s ++ [p]; draws := draws s |})) ->
  forall (ks : list string) (r : list unit) (s s' : state),
    In k ks ->
    mapM (fun key =>
            attachFormValue w key
              match lookup key payload with
              | Some v => v
              | None => VUndefined
              end) ks s = Ok (r, s') ->
    In p (form s').
Proof.
  intros Hk.
  assert (Hgrow : forall (ks : list string) r s s',
             mapM (fun key =>
                     attachFormValue w key
                       match lookup key payload with
                       | Some v => v
                       | None => VUndefined
                       end) ks s = Ok (r, s') ->
             Spec.form_grows s s').
  { induction ks as [|k0 ks IH]; intros r s s' H.
    - simpl in H. unfold ret in H. inversion H. apply form_grows_refl.
    - cbn [mapM] in H. unfold bind at 1 in H.
      match type of H with
      | context [attachFormValue w k0 ?v s] =>
          destruct (attachFormValue w k0 v s) as [[[] s1]|e] eqn:E1;
            [|discriminate]
      end.
      unfold bind at 1 in H.
      match type of H with
      | context [mapM ?f ks s1] =>
          destruct (mapM f ks s1) as [[r' s2]|e] eqn:E2; [|discriminate]
      end.
      unfold ret in H. inversion H; subst.
      eapply form_grows_trans.
      + eapply attachFormValue_grows; eauto.
      + eapply IH; eauto. }
  induction ks as [|k0 ks IH]; intros r s s' Hin H; [contradiction|].
  cbn [mapM] in H. unfold bind at 1 in H.
  match type of H with
  | context [attachFormValue w k0 ?v s] =>
      destruct (attachFormValue w k0 v s) as [[[] s1]|e] eqn:E1;
        [|discriminate]
  end.
  unfold bind at 1 in H.
  match type of H with
  | context [mapM ?f ks s1] =>
      destruct (mapM f ks s1) as [[r' s2]|e] eqn:E2; [|discriminate]
  end.
  unfold ret in H. inversion H; subst r s'. clear H.
  destruct (String.eqb_spec k0 k) as [-> | Hne].
  - rewrite Hk in E1. inversion E1; subst s1.
    destruct (Hgrow _ _ _ _ E2) as (new & Hf). rewrite Hf. cbn [form].
    apply in_or_app. left. apply in_or_app. right. simpl. auto.
  - destruct Hin as [Heq | Hin]; [congruence|]. eapply IH; eauto.
Qed.

(** The claim as it is stated, on [{ chat_id: 7, text: 'hi',
    reply_markup: { inline_keyboard: [] } }]: the scan answers false,
    and in the body [buildJSONConfig] builds, which is
    [{"chat_id":7,"text":"hi","reply_markup":{"inline_keyboard":[]}}],
    [reply_markup] is an object, not a string. *)
Lemma C6_counterexample :
  In "reply_markup" FORM_DATA_JSON_FIELDS /\
  lookup "reply_markup" Examples.payload_markup = Some Examples.markup /\
  includesMedia Examples.payload_markup = Ok false /\
  exists doc,
    document (streamJSON Examples.world) (Some replacer)
      (VObj Examples.payload_markup) = Some doc /\
    body (buildJSONConfig Examples.world (VObj Examples.payload_markup))
    = JsonBody (Some (render doc)) /\
    Spec.member "reply_markup" doc
    = Some (JObj [("inline_keyboard", JArr [])]) /\
    ~ (exists j, Spec.member "reply_markup" doc = Some j /\
                 Spec.is_json_string j = true).
Proof.
  split; [simpl; auto|]. split; [reflexivity|]. split; [reflexivity|].
  eexists. split; [reflexivity|]. split; [reflexivity|].
  split; [reflexivity|].
  intros (j & Hj & Hs). simpl in Hj. inversion Hj; subst j. discriminate.
Qed.

(** C6, amended.  [buildFormDataConfig] starts with the pass over the
    allowlist, after which every listed field holds a string or
    [undefined]; a listed field that held a value other than a string
    and other than [undefined] then holds its JSON text, and the body,
    when the encoding succeeds, has that text as a textual part under
    the field's name.  [buildJSONConfig] has no such pass. *)
Theorem C6_json_fields_in_multipart
  (w : World) (payload : object) (field : string) (v : value) (st : state) :
  In field FORM_DATA_JSON_FIELDS ->
  lookup field payload = Some v ->
  typeof v <> TString ->
  v <> VUndefined ->
  (forall f x,
      In f FORM_DATA_JSON_FIELDS ->
      lookup f (stringify_json_fields w payload) = Some x ->
      typeof x = TString \/ x = VUndefined) /\
  exists text,
    JSON_stringify w v = Some text /\
    lookup field (stringify_json_fields w payload) = Some (VStr text) /\
    forall cfg st',
      buildFormDataConfig w payload st = Ok (cfg, st') ->
      exists boundary parts,
        body cfg = FormBody boundary parts /\
        In (text_part field text) parts.
Proof.
  intros Hin Hl Ht Hv. split.
  - intros f x Hf. now apply fold_stringify_result.
  - destruct (JSON_stringify_defined w v Hv) as [text Hs].
    exists text. split; [exact Hs|].
    assert (Hfield : lookup field (stringify_json_fields w payload)
                     = Some (VStr text)).
    { unfold stringify_json_fields.
      eapply lookup_fold_stringify_in; eauto. }
    split; [exact Hfield|].
    intros cfg st' H. unfold buildFormDataConfig in H.
    unfold bind at 1, randomBytesHex at 1 in H.
    unfold bind at 1, newForm at 1 in H.
    unfold bind at 1 in H.
    match type of H with
    | context [mapM ?f ?l ?s0] =>
        destruct (mapM f l s0) as [[r s1]|e] eqn:E; [|discriminate]
    end.
    inversion H; subst cfg st'. clear H.
    eexists. exists (form s1). split; [reflexivity|].
    eapply mapM_fields_contains; [| |exact E].
    + intros s. rewrite Hfield. reflexivity.
    + rewrite keys_stringify_json_fields.
      apply lookup_In in Hl. unfold keys.
      change field with (fst (field, v)). now apply in_map.
Qed.

Lemma C6_witness :
  (In "reply_markup" FORM_DATA_JSON_FIELDS /\
   lookup "reply_markup" Examples.payload_markup_photo
   = Some Examples.markup /\
   typeof Examples.markup <> TString /\
   Examples.markup <> VUndefined) /\
  (forall f x,
      In f FORM_DATA_JSON_FIELDS ->
      lookup f (stringify_json_fields Examples.world
                  Examples.payload_markup_photo) = Some x ->
      typeof x = TString \/ x = VUndefined) /\
  exists text,
    JSON_stringify Examples.world Examples.markup = Some text /\
    lookup "reply_markup"
      (stringify_json_fields Examples.world Examples.payload_markup_photo)
    = Some (VStr text) /\
    forall cfg st',
      buildFormDataConfig Examples.world Examples.payload_markup_photo start
      = Ok (cfg, st') ->
      exists boundary parts,
        body cfg = FormBody boundary parts /\
        In (text_part "reply_markup" text) parts.
Proof.
  assert (H1 : In "reply_markup" FORM_DATA_JSON_FIELDS) by (simpl; auto).
  assert (H2 : lookup "reply_markup" Examples.payload_markup_photo
               = Some Examples.markup) by reflexivity.
  assert (H3 : typeof Examples.markup <> TString) by discriminate.
  assert (H4 : Examples.markup <> VUndefined) by discriminate.
  split; [repeat split; assumption|].
  exact (C6_json_fields_in_multipart Examples.world
           Examples.payload_markup_photo "reply_markup" Examples.markup
           start H1 H2 H3 H4).
Defined.

(** ** Reading JSON texts back *)

Lemma parse_chars_escape_char (c : ascii) (k : string) :
  parse_chars (escape_char c ++ k)
  = match parse_chars k with
    | Some (t, r) => Some (String c t, r)
    | None => None
    end.
Proof. destruct c as [[] [] [] [] [] [] [] []]; reflexivity. Qed.

Lemma parse_chars_escape (s rest : string) :
  parse_chars (escape s ++ dquote ++ rest) = Some (s, rest).
Proof.
  induction s as [|c s IH]; [reflexivity|].
  cbn [escape]. rewrite string_app_assoc, parse_chars_escape_char, IH.
  reflexivity.
Qed.

Lemma parse_chars_quote (s rest : string) :
  exists body, quote s ++ rest = String "034" body /\
               parse_chars body = Some (s, rest).
Proof.
  exists (escape s ++ dquote ++ rest). split.
  - unfold quote. cbn. now rewrite string_app_assoc.
  - apply parse_chars_escape.
Qed.

(** Decimal notations *)
Lemma string_of_uint_digits (d : Decimal.uint) :
  all_chars is_digit (NilEmpty.string_of_uint d) = true.
Proof. induction d; simpl; auto. Qed.

Lemma nilzero_string_of_uint (d : Decimal.uint) :
  d <> Decimal.Nil ->
  NilZero.string_of_uint d = NilEmpty.string_of_uint d.
Proof. destruct d; try reflexivity. congruence. Qed.

Lemma string_of_uint_nonempty (d : Decimal.uint) :
  d <> Decimal.Nil -> NilEmpty.string_of_uint d <> "".
Proof. destruct d; simpl; congruence. Qed.

Lemma parse_integer_uint (d : Decimal.uint) (rest : string) :
  d <> Decimal.Nil -> stops is_digit rest ->
  parse_integer (NilZero.string_of_uint d ++ rest)
  = Some (Z.of_int (Decimal.Pos d), rest).
Proof.
  intros Hd Hrest.
  assert (Hp : forall t, all_chars is_digit t = true -> t <> "" ->
               parse_integer (t ++ rest)
               = (let '(ds, r) := span is_digit (t ++ rest) in
                  if ds =? "" then None
                  else match NilZero.uint_of_string ds with
                       | Some u => Some (Z.of_int (Decimal.Pos u), r)
                       | None => None
                       end)).
  { intros t Ht Hne. destruct t as [|c t]; [congruence|].
    simpl in Ht. apply andb_true_iff in Ht. destruct Ht as [Hc _].
    unfold parse_integer. cbn [append].
    destruct c as [[] [] [] [] [] [] [] []]; try discriminate; reflexivity. }
  rewrite Hp.
  - rewrite span_app; auto.
    + rewrite NilZero.usu by assumption.
      destruct (String.eqb_spec (NilZero.string_of_uint d) "") as [E|_];
        [|reflexivity].
      rewrite nilzero_string_of_uint in E by assumption.
      now apply string_of_uint_nonempty in E.
    + rewrite nilzero_string_of_uint by assumption.
      apply string_of_uint_digits.
  - rewrite nilzero_string_of_uint by assumption.
    apply string_of_uint_digits.
  - rewrite nilzero_string_of_uint by assumption.
    now apply string_of_uint_nonempty.
Qed.

Lemma parse_integer_neg (d : Decimal.uint) (rest : string) :
  d <> Decimal.Nil -> stops is_digit rest ->
  parse_integer (String "-" (NilZero.string_of_uint d) ++ rest)
  = Some (Z.of_int (Decimal.Neg d), rest).
Proof.
  intros Hd Hrest. cbn [append parse_integer].
  rewrite span_app; auto.
  - rewrite NilZero.usu by assumption.
    destruct (String.eqb_spec (NilZero.string_of_uint d) "") as [E|_];
      [|reflexivity].
    rewrite nilzero_string_of_uint in E by assumption.
    now apply string_of_uint_nonempty in E.
  - rewrite nilzero_string_of_uint by assumption.
    apply string_of_uint_digits.
Qed.

Lemma to_int_nonnil (z : Z) :
  match Z.to_int z with
  | Decimal.Pos d | Decimal.Neg d => d <> Decimal.Nil
  end.
Proof.
  destruct z; simpl; try discriminate;
    apply DecimalPos.Unsigned.to_uint_nonnil.
Qed.

Lemma parse_integer_string_of_Z (n : Z) (rest : string) :
  stops is_digit rest ->
  parse_integer (string_of_Z n ++ rest) = Some (n, rest).
Proof.
  intros Hrest. unfold string_of_Z.
  pose proof (to_int_nonnil n) as Hn.
  pose proof (DecimalZ.of_to n) as Hof.
  destruct (Z.to_int n) as [d|d]; cbn [NilZero.string_of_int].
  - rewrite parse_integer_uint by assumption. now rewrite Hof.
  - rewrite parse_integer_neg by assumption. now rewrite Hof.
Qed.

Lemma string_of_Z_head (n : Z) :
  exists c r, string_of_Z n = String c r /\
              (is_digit c = true \/ c = "-"%char).
Proof.
  unfold string_of_Z. pose proof (to_int_nonnil n) as Hn.
  destruct (Z.to_int n) as [d|d]; cbn [NilZero.string_of_int].
  - rewrite nilzero_string_of_uint by assumption.
    pose proof (string_of_uint_digits d) as Hd.
    destruct (NilEmpty.string_of_uint d) as [|c r] eqn:E.
    + now apply string_of_uint_nonempty in E.
    + simpl in Hd. apply andb_true_iff in Hd. destruct Hd as [Hc _].
      exists c, r. auto.
  - eexists. eexists. split; [reflexivity|]. now right.
Qed.

Lemma string_app_nil_r (s : string) : s ++ "" = s.
Proof. induction s; simpl; congruence. Qed.

(** *** Numbers *)

Lemma text_of_digits_app (a b : list digit) :
  text_of_digits (a ++ b) = text_of_digits a ++ text_of_digits b.
Proof. induction a as [|d a IH]; [reflexivity|]. cbn. now rewrite IH. Qed.

Lemma char_of_digit (d : digit) : is_digit (char_of d) = true.
Proof. now destruct d. Qed.

Lemma text_of_digits_digits (l : list digit) :
  all_chars is_digit (text_of_digits l) = true.
Proof.
  induction l as [|d l IH]; [reflexivity|].
  cbn [text_of_digits all_chars]. now rewrite char_of_digit, IH.
Qed.

Lemma digit_of_char_of (d : digit) : digit_of_char (char_of d) = d.
Proof. now destruct d. Qed.

Lemma digits_of_text_app (a b : string) :
  digits_of_text (a ++ b) = (digits_of_text a ++ digits_of_text b)%list.
Proof. induction a as [|c a IH]; [reflexivity|]. cbn. now rewrite IH. Qed.

Lemma digits_of_text_of_digits (l : list digit) :
  digits_of_text (text_of_digits l) = l.
Proof.
  induction l as [|d l IH]; [reflexivity|].
  cbn [text_of_digits digits_of_text]. now rewrite digit_of_char_of, IH.
Qed.

Lemma text_of_digits_length (l : list digit) :
  String.length (text_of_digits l) = List.length l.
Proof. induction l as [|d l IH]; [reflexivity|]. cbn. now rewrite IH. Qed.

Lemma text_of_digits_nonempty (l : list digit) :
  l <> [] -> (text_of_digits l =? "") = false.
Proof. destruct l; [congruence|reflexivity]. Qed.

Lemma stops_number_digit (rest : string) :
  stops number_char rest -> stops is_digit rest.
Proof.
  destruct rest as [|c r]; [auto|]. unfold stops, number_char.
  intros H. now destruct (is_digit c).
Qed.

Lemma span_digits (l : list digit) (rest : string) :
  stops is_digit rest ->
  span is_digit (text_of_digits l ++ rest) = (text_of_digits l, rest).
Proof. intros H. apply span_app; [apply text_of_digits_digits|exact H]. Qed.

Lemma nonzero_of_digit_of (f : nonzero) : nonzero_of (digit_of f) = Some f.
Proof. now destruct f. Qed.

Lemma drop_zeros_nonzero (f : nonzero) (l : list digit) :
  drop_zeros (digit_of f :: l) = (0, digit_of f :: l).
Proof. now destruct f. Qed.

Lemma drop_zeros_repeat (n : nat) (l : list digit) :
  drop_zeros (repeat d0 n ++ l)
  = (n + fst (drop_zeros l), snd (drop_zeros l)).
Proof.
  induction n as [|n IH].
  - cbn [repeat app plus]. now destruct (drop_zeros l).
  - cbn [repeat app drop_zeros]. now rewrite IH.
Qed.

Lemma drop_zeros_all (n : nat) : drop_zeros (repeat d0 n) = (n, []).
Proof.
  induction n as [|n IH]; [reflexivity|].
  cbn [repeat drop_zeros]. now rewrite IH.
Qed.

Lemma rev_repeat_d0 (n : nat) : rev (repeat d0 n) = repeat d0 n.
Proof.
  induction n as [|n IH]; [reflexivity|].
  cbn [repeat rev]. rewrite IH. clear IH.
  induction n as [|n IH]; [reflexivity|]. cbn. now rewrite IH.
Qed.

Lemma digits_head (m : mantissa) :
  exists f r, digits m = digit_of f :: r.
Proof. destruct m; cbn; eauto. Qed.

Lemma digits_nonempty (m : mantissa) : digits m <> [].
Proof. destruct m; discriminate. Qed.

(** A significand is read back from its digits, whatever zeros
    follow them. *)
Lemma mantissa_of_digits (m : mantissa) (n : nat) :
  mantissa_of (digits m ++ repeat d0 n) = Some m.
Proof.
  unfold mantissa_of. destruct m as [f|f middle l]; cbn [digits app].
  - now rewrite nonzero_of_digit_of, rev_repeat_d0, drop_zeros_all.
  - rewrite nonzero_of_digit_of.
    rewrite <- app_assoc, !rev_app_distr, rev_repeat_d0.
    cbn [rev app]. rewrite <- app_assoc. cbn [app].
    rewrite drop_zeros_repeat, drop_zeros_nonzero.
    cbn [snd]. now rewrite nonzero_of_digit_of, rev_involutive.
Qed.

Lemma decimal_of_digits_canonical
  (negative : bool) (m : mantissa) (z k : nat) (point : Z) :
  decimal_of_digits negative (repeat d0 z ++ digits m ++ repeat d0 k) point
  = Some (DNum negative m (point - Z.of_nat z)).
Proof.
  unfold decimal_of_digits. rewrite drop_zeros_repeat.
  destruct (digits_head m) as (f & r & E).
  rewrite E. cbn [app]. rewrite drop_zeros_nonzero. cbn [fst snd].
  rewrite Nat.add_0_r.
  change (digit_of f :: (r ++ repeat d0 k)%list)
    with ((digit_of f :: r) ++ repeat d0 k)%list.
  rewrite <- E, mantissa_of_digits. reflexivity.
Qed.

Lemma decimal_of_digits_plain
  (negative : bool) (m : mantissa) (point : Z) :
  decimal_of_digits negative (digits m) point
  = Some (DNum negative m point).
Proof.
  pose proof (decimal_of_digits_canonical negative m 0 0 point) as H.
  cbn [repeat app] in H. rewrite app_nil_r in H. rewrite H.
  do 2 f_equal. lia.
Qed.

Lemma parse_fraction_none (rest : string) :
  stops number_char rest -> parse_fraction rest = Some ("", rest).
Proof.
  destruct rest as [|c r]; [reflexivity|]. unfold stops, number_char.
  intros H. destruct c as [[] [] [] [] [] [] [] []];
    try discriminate; reflexivity.
Qed.

Lemma parse_exponent_none (rest : string) :
  stops number_char rest -> parse_exponent rest = Some (0%Z, rest).
Proof.
  destruct rest as [|c r]; [reflexivity|]. unfold stops, number_char.
  intros H. destruct c as [[] [] [] [] [] [] [] []];
    try discriminate; reflexivity.
Qed.

Lemma parse_fraction_digits (l : list digit) (rest : string) :
  l <> [] -> stops is_digit rest ->
  parse_fraction (String "." (text_of_digits l ++ rest))
  = Some (text_of_digits l, rest).
Proof.
  intros Hl Hrest. cbn [parse_fraction].
  now rewrite span_digits, text_of_digits_nonempty.
Qed.

Lemma parse_exponent_text (e : Z) (rest : string) :
  stops is_digit rest ->
  parse_exponent (String "e" (exponent_text e ++ rest)) = Some (e, rest).
Proof.
  intros Hrest. unfold exponent_text. cbn [parse_exponent].
  change (Ascii.eqb "e" "e" || Ascii.eqb "e" "E")%bool with true.
  cbv iota.
  destruct e as [|p|p]; cbn [Z.ltb Z.compare Z.abs append].
  - exact (parse_integer_string_of_Z 0 rest Hrest).
  - destruct (string_of_Z_head (Z.pos p)) as (c & r & E & Hc).
    rewrite <- (parse_integer_string_of_Z (Z.pos p) rest Hrest).
    rewrite E. cbn [append].
    destruct Hc as [Hc|Hc].
    + destruct c as [[] [] [] [] [] [] [] []];
        try discriminate; reflexivity.
    + exfalso. subst c. unfold string_of_Z in E. cbn in E.
      pose proof (DecimalPos.Unsigned.to_uint_nonnil p) as Hn.
      rewrite nilzero_string_of_uint in E by exact Hn.
      pose proof (string_of_uint_digits (Pos.to_uint p)) as Hd.
      rewrite E in Hd. discriminate.
  - change (String "-" (string_of_Z (Z.pos p) ++ rest))
      with (string_of_Z (Z.neg p) ++ rest).
    now apply parse_integer_string_of_Z.
Qed.

Lemma zeros_text (n : nat) : zeros n = text_of_digits (repeat d0 n).
Proof. reflexivity. Qed.

Lemma decimal_of_digits_trailing
  (negative : bool) (m : mantissa) (k : nat) (point : Z) :
  decimal_of_digits negative (digits m ++ repeat d0 k) point
  = Some (DNum negative m point).
Proof.
  pose proof (decimal_of_digits_canonical negative m 0 k point) as H.
  cbn [repeat app] in H. rewrite H. do 2 f_equal. lia.
Qed.

Lemma decimal_of_digits_leading
  (negative : bool) (m : mantissa) (z : nat) (point : Z) :
  decimal_of_digits negative (repeat d0 z ++ digits m) point
  = Some (DNum negative m (point - Z.of_nat z)).
Proof.
  pose proof (decimal_of_digits_canonical negative m z 0 point) as H.
  cbn [repeat] in H. now rewrite app_nil_r in H.
Qed.

(** The integer form: the digits, then zeros. *)
Lemma parse_unsigned_integer
  (negative : bool) (m : mantissa) (z : nat) (rest : string) :
  stops number_char rest ->
  parse_unsigned negative
    ((text_of_digits (digits m) ++ zeros z) ++ rest)
  = Some (DNum negative m (Z.of_nat (List.length (digits m) + z)), rest).
Proof.
  intros Hrest. rewrite zeros_text, <- text_of_digits_app.
  unfold parse_unsigned.
  rewrite span_digits by now apply stops_number_digit.
  rewrite text_of_digits_nonempty
    by (intros E; apply app_eq_nil in E; destruct E as [E _];
        now apply digits_nonempty in E).
  rewrite parse_fraction_none, parse_exponent_none by exact Hrest.
  rewrite string_app_nil_r, digits_of_text_of_digits.
  rewrite text_of_digits_length, length_app, repeat_length.
  rewrite decimal_of_digits_trailing. do 3 f_equal. lia.
Qed.

(** The form with a decimal point inside the digits. *)
Lemma parse_unsigned_point
  (negative : bool) (m : mantissa) (n : nat) (rest : string) :
  0 < n < List.length (digits m) ->
  stops number_char rest ->
  parse_unsigned negative
    ((text_of_digits (firstn n (digits m)) ++ "."
      ++ text_of_digits (skipn n (digits m))) ++ rest)
  = Some (DNum negative m (Z.of_nat n), rest).
Proof.
  intros Hn Hrest.
  rewrite !string_app_assoc. cbn [append].
  unfold parse_unsigned.
  rewrite span_digits by reflexivity.
  assert (Hfirst : List.length (firstn n (digits m)) = n)
    by (apply firstn_length_le; lia).
  assert (Hskip : skipn n (digits m) <> []).
  { intros E. apply (f_equal (@List.length digit)) in E.
    rewrite length_skipn in E. cbn in E. lia. }
  rewrite text_of_digits_nonempty
    by (intros E; rewrite E in Hfirst; cbn in Hfirst; lia).
  rewrite parse_fraction_digits
    by (auto; now apply stops_number_digit).
  rewrite parse_exponent_none by exact Hrest.
  rewrite digits_of_text_app, !digits_of_text_of_digits, firstn_skipn.
  rewrite text_of_digits_length, Hfirst, decimal_of_digits_plain.
  do 3 f_equal. lia.
Qed.

(** The form that begins with [0.]: zeros, then the digits. *)
Lemma parse_unsigned_small
  (negative : bool) (m : mantissa) (z : nat) (rest : string) :
  stops number_char rest ->
  parse_unsigned negative
    (("0." ++ zeros z ++ text_of_digits (digits m)) ++ rest)
  = Some (DNum negative m (- Z.of_nat z), rest).
Proof.
  intros Hrest. rewrite zeros_text, <- text_of_digits_app.
  change ("0." ++ text_of_digits (repeat d0 z ++ digits m))
    with (text_of_digits [d0]
          ++ String "." (text_of_digits (repeat d0 z ++ digits m))).
  rewrite !string_app_assoc. cbn [append].
  change (String "0" (String "." ?x)) with (String "0" (String "." x)).
  change (String "0"
            (String "."
               (text_of_digits (repeat d0 z ++ digits m) ++ rest)))
    with (text_of_digits [d0]
          ++ String "."
               (text_of_digits (repeat d0 z ++ digits m) ++ rest)).
  unfold parse_unsigned.
  rewrite span_digits by reflexivity.
  cbn [text_of_digits char_of String.eqb Ascii.eqb Bool.eqb].
  rewrite parse_fraction_digits.
  - rewrite parse_exponent_none by exact Hrest.
    change (digits_of_text ("0" ++ text_of_digits (repeat d0 z ++ digits m)))
      with (d0 :: digits_of_text
                    (text_of_digits (repeat d0 z ++ digits m))).
    rewrite digits_of_text_of_digits.
    change (d0 :: repeat d0 z ++ digits m)%list
      with (repeat d0 (S z) ++ digits m)%list.
    rewrite decimal_of_digits_leading. do 3 f_equal.
    cbn [String.length]. lia.
  - intros E. apply app_eq_nil in E. destruct E as [_ E].
    now apply digits_nonempty in E.
  - now apply stops_number_digit.
Qed.

(** The exponent form of a single digit. *)
Lemma parse_unsigned_exponent_single
  (negative : bool) (f : nonzero) (e : Z) (rest : string) :
  stops number_char rest ->
  parse_unsigned negative
    ((text_of_digits [digit_of f] ++ "e" ++ exponent_text e) ++ rest)
  = Some (DNum negative (Single f) (1 + e), rest).
Proof.
  intros Hrest. rewrite !string_app_assoc. cbn [append].
  unfold parse_unsigned.
  rewrite span_digits by reflexivity.
  cbn [text_of_digits String.eqb]. destruct (char_of (digit_of f)) eqn:Ec.
  cbn [parse_fraction].
  rewrite parse_exponent_text by now apply stops_number_digit.
  rewrite string_app_nil_r. cbn [digits_of_text String.length].
  rewrite <- Ec, digit_of_char_of.
  exact (f_equal (fun x => match x with
                           | Some y => Some (y, rest)
                           | None => None
                           end)
           (decimal_of_digits_plain negative (Single f) _)).
Qed.

(** The exponent form of several digits: a point after the first. *)
Lemma parse_unsigned_exponent_several
  (negative : bool) (f : nonzero) (middle : list digit) (l : nonzero)
  (e : Z) (rest : string) :
  stops number_char rest ->
  parse_unsigned negative
    (String (char_of (digit_of f))
       ("." ++ text_of_digits (middle ++ [digit_of l]) ++ "e"
        ++ exponent_text e) ++ rest)
  = Some (DNum negative (Several f middle l) (1 + e), rest).
Proof.
  intros Hrest.
  change (String (char_of (digit_of f))
            ("." ++ text_of_digits (middle ++ [digit_of l]) ++ "e"
             ++ exponent_text e) ++ rest)
    with (text_of_digits [digit_of f]
          ++ String "."
               ((text_of_digits (middle ++ [digit_of l])
                 ++ String "e" (exponent_text e)) ++ rest)).
  rewrite string_app_assoc. cbn [append].
  unfold parse_unsigned.
  rewrite span_digits by reflexivity.
  rewrite text_of_digits_nonempty by discriminate.
  rewrite parse_fraction_digits;
    [|now destruct middle|reflexivity].
  rewrite parse_exponent_text by now apply stops_number_digit.
  rewrite digits_of_text_app, !digits_of_text_of_digits.
  cbn [app text_of_digits String.length].
  exact (f_equal (fun x => match x with
                           | Some y => Some (y, rest)
                           | None => None
                           end)
           (decimal_of_digits_plain negative (Several f middle l) _)).
Qed.

(** What Number::toString writes for a positive number reads back as
    that number. *)
Lemma parse_unsigned_text
  (negative : bool) (m : mantissa) (n : Z) (rest : string) :
  stops number_char rest ->
  parse_unsigned negative (unsigned_text m n ++ rest)
  = Some (DNum negative m n, rest).
Proof.
  intros Hrest. unfold unsigned_text.
  pose proof (digits_nonempty m) as Hne.
  assert (Hk : 1 <= List.length (digits m))
    by (destruct (digits m); [congruence|cbn; lia]).
  destruct ((Z.of_nat (List.length (digits m)) <=? n)%Z && (n <=? 21)%Z)
    eqn:Ea.
  { apply andb_true_iff in Ea. destruct Ea as [Ea _].
    apply Z.leb_le in Ea.
    rewrite parse_unsigned_integer by exact Hrest.
    do 3 f_equal. lia. }
  destruct ((0 <? n)%Z && (n <=? 21)%Z) eqn:Eb.
  { apply andb_true_iff in Eb. destruct Eb as [Eb Eb'].
    apply Z.ltb_lt in Eb. rewrite Eb', andb_true_r in Ea.
    apply Z.leb_gt in Ea.
    rewrite parse_unsigned_point by (auto; lia).
    do 3 f_equal. lia. }
  destruct ((-6 <? n)%Z && (n <=? 0)%Z) eqn:Ec.
  { apply andb_true_iff in Ec. destruct Ec as [_ Ec].
    apply Z.leb_le in Ec.
    rewrite parse_unsigned_small by exact Hrest.
    do 3 f_equal. lia. }
  destruct m as [f|f middle l]; cbn [digits].
  - rewrite parse_unsigned_exponent_single by exact Hrest.
    do 3 f_equal. lia.
  - destruct (middle ++ [digit_of l])%list as [|x t] eqn:E;
      [now destruct middle|].
    rewrite <- E.
    rewrite parse_unsigned_exponent_several by exact Hrest.
    do 3 f_equal. lia.
Qed.

Lemma unsigned_text_head (m : mantissa) (n : Z) :
  exists c r, unsigned_text m n = String c r /\ is_digit c = true.
Proof.
  unfold unsigned_text.
  destruct (digits_head m) as (f & t & E). rewrite E.
  assert (Hf : is_digit (char_of (digit_of f)) = true)
    by apply char_of_digit.
  destruct (_ && _).
  { cbn [text_of_digits append]. eauto. }
  destruct ((0 <? n)%Z && (n <=? 21)%Z) eqn:Eb.
  { apply andb_true_iff in Eb. destruct Eb as [Eb _].
    apply Z.ltb_lt in Eb.
    destruct (Z.to_nat n) eqn:En; [lia|].
    cbn [firstn text_of_digits append]. eauto. }
  clear Eb. destruct (_ && _).
  { cbn [append]. eexists. eexists. split; reflexivity. }
  destruct t; cbn [text_of_digits append]; eauto.
Qed.

Lemma decimal_text_head (x : decimal) :
  exists c r, decimal_text x = String c r /\
              (is_digit c = true \/ c = "-"%char).
Proof.
  destruct x as [|[|] m n]; cbn [decimal_text append].
  - eexists. eexists. split; [reflexivity|]. now left.
  - eexists. eexists. split; [reflexivity|]. now right.
  - destruct (unsigned_text_head m n) as (c & r & -> & Hc). eauto.
Qed.

(** What [JSON.stringify] writes for a finite number reads back as
    that number. *)
Lemma parse_number_decimal_text (x : decimal) (rest : string) :
  stops number_char rest ->
  parse_number (decimal_text x ++ rest) = Some (x, rest).
Proof.
  intros Hrest. destruct x as [|[|] m n]; cbn [decimal_text].
  - cbn [append parse_number]. unfold parse_unsigned.
    change (String "0" rest) with (text_of_digits [d0] ++ rest).
    rewrite span_digits by now apply stops_number_digit.
    cbn [text_of_digits char_of String.eqb Ascii.eqb Bool.eqb].
    now rewrite parse_fraction_none, parse_exponent_none by exact Hrest.
  - cbn [append parse_number]. now apply parse_unsigned_text.
  - cbn [append].
    rewrite <- (parse_unsigned_text false m n rest Hrest).
    destruct (unsigned_text_head m n) as (c & r & -> & Hc).
    cbn [append parse_number].
    destruct c as [[] [] [] [] [] [] [] []];
      try discriminate; reflexivity.
Qed.

Lemma render_head (j : json) :
  exists c r, render j = String c r /\ opens_value c = true.
Proof.
  destruct j as [|[|]|n|s|items|ms]; cbn [render];
    try (eexists; eexists; split; [reflexivity|reflexivity]).
  - destruct (decimal_text_head n) as (c & r & -> & [Hc | ->]).
    + exists c, r. split; [reflexivity|]. unfold opens_value.
      now rewrite Hc.
    + exists "-"%char, r. split; reflexivity.
Qed.

Lemma after_opening (c d : ascii) (k : string) :
  opens_value c = true -> opens_value d = false ->
  after d (String c k) = None.
Proof.
  intros Hc Hd. unfold after.
  destruct (Ascii.eqb_spec c d) as [-> |]; [congruence|reflexivity].
Qed.

Lemma after_render (j : json) (d : ascii) (k : string) :
  opens_value d = false -> after d (render j ++ k) = None.
Proof.
  intros Hd. destruct (render_head j) as (c & r & -> & Hc).
  now apply after_opening.
Qed.

(** A number's text sends the parser to the number rule. *)
Lemma parse_value_number (fuel : nat) (c : ascii) (k : string) :
  is_digit c = true \/ c = "-"%char ->
  parse_value (S fuel) (String c k)
  = match parse_number (String c k) with
    | Some (z, rest) => Some (JNum z, rest)
    | None => None
    end.
Proof.
  intros H.
  destruct c as [[] [] [] [] [] [] [] []];
    destruct H as [H|H]; try discriminate; reflexivity.
Qed.

Lemma after_head (c : ascii) (r : string) : after c (String c r) = Some r.
Proof. unfold after. now rewrite Ascii.eqb_refl. Qed.

Section Sequences.
Variable fuel : nat.
Variable tail : string.

(** The elements of an array, read after its first bracket. *)
Lemma parse_elements_render (x : json) (items : list json) :
Forall (fun j => forall rest, stops number_char rest ->
                 parse_value fuel (render j ++ rest) = Some (j, rest))
  (x :: items) ->
forall n, List.length (x :: items) <= n ->
parse_elements (parse_value fuel) n
  (String.concat "," (map render (x :: items)) ++ "]" ++ tail)
= Some (x :: items, tail).
Proof.
revert x. induction items as [|y l IH]; intros x Hall n Hn.
- destruct n as [|n]; [simpl in Hn; lia|].
  inversion Hall as [|? ? Hx _]; subst.
  cbn [map String.concat parse_elements].
  rewrite Hx by reflexivity. reflexivity.
- destruct n as [|n]; [simpl in Hn; lia|].
  inversion Hall as [|? ? Hx Hrest]; subst.
  change (String.concat "," (map render (x :: y :: l)))
    with (render x ++ "," ++ String.concat "," (map render (y :: l))).
  rewrite !string_app_assoc. cbn [parse_elements].
  rewrite Hx by reflexivity.
  cbn [append]. rewrite after_head.
  rewrite IH; [reflexivity|assumption|simpl in *; lia].
Qed.

(** One member, up to its value. *)
Lemma parse_member_head (k : string) (r : string) :
after "034" (quote k ++ ":" ++ r) = Some (escape k ++ dquote ++ ":" ++ r)
/\ parse_chars (escape k ++ dquote ++ ":" ++ r) = Some (k, ":" ++ r).
Proof.
split; [|apply parse_chars_escape].
unfold quote, dquote. rewrite !string_app_assoc. cbn [append].
apply after_head.
Qed.

(** The members of an object, read after its first brace. *)
Lemma parse_members_render (m : string * json) (ms : list (string * json)) :
Forall (fun kv => forall rest, stops number_char rest ->
                  parse_value fuel (render (snd kv) ++ rest)
                  = Some (snd kv, rest))
  (m :: ms) ->
forall n, List.length (m :: ms) <= n ->
parse_members (parse_value fuel) n
  (String.concat ","
     (map (fun kv => quote (fst kv) ++ ":" ++ render (snd kv)) (m :: ms))
   ++ "}" ++ tail)
= Some (m :: ms, tail).
Proof.
revert m. induction ms as [|m' l IH]; intros [k v] Hall n Hn.
- destruct n as [|n]; [simpl in Hn; lia|].
  inversion Hall as [|? ? Hv _]; subst. cbn [snd] in Hv.
  cbn [map String.concat fst snd].
  rewrite !string_app_assoc. cbn [parse_members].
  destruct (parse_member_head k (render v ++ "}" ++ tail)) as [-> ->].
  cbn [append]. rewrite after_head.
  rewrite (Hv (String "}" tail)) by reflexivity.
  reflexivity.
- destruct n as [|n]; [simpl in Hn; lia|].
  inversion Hall as [|? ? Hv Hrest]; subst. cbn [snd] in Hv.
  change (String.concat ","
            (map (fun kv => quote (fst kv) ++ ":" ++ render (snd kv))
               ((k, v) :: m' :: l)))
    with ((quote k ++ ":" ++ render v) ++ "," ++
          String.concat ","
            (map (fun kv => quote (fst kv) ++ ":" ++ render (snd kv))
               (m' :: l))).
  rewrite !string_app_assoc. cbn [parse_members].
  match goal with
  | |- context [quote k ++ ":" ++ ?r] =>
      destruct (parse_member_head k r) as [-> ->]
  end.
  cbn [append]. rewrite after_head.
  match goal with
  | |- context [render v ++ String "," ?r] =>
      rewrite (Hv (String "," r)) by reflexivity
  end.
  rewrite after_head.
  rewrite IH; [reflexivity|assumption|simpl in *; lia].
Qed.
End Sequences.

Lemma list_sum_in (l : list nat) (x : nat) : In x l -> x <= list_sum l.
Proof.
  induction l as [|y l IH]; simpl; intros H; [contradiction|].
  destruct H as [-> | H]; [lia|]. apply IH in H. lia.
Qed.

Lemma size_positive (j : json) : 1 <= size j.
Proof. destruct j; simpl; lia. Qed.

Lemma list_sum_length (A : Type) (f : A -> nat) (l : list A) :
  (forall x, 1 <= f x) -> List.length l <= list_sum (map f l).
Proof.
  intros Hf. induction l as [|x l IH]; simpl; [lia|].
  specialize (Hf x). lia.
Qed.

Lemma parse_value_string (fuel : nat) (r : string) :
  parse_value (S fuel) (String "034" r)
  = match parse_chars r with
    | Some (t, rest) => Some (JStr t, rest)
    | None => None
    end.
Proof. reflexivity. Qed.

Lemma parse_value_array (fuel : nat) (r : string) :
  parse_value (S fuel) (String "[" r)
  = match after "]" r with
    | Some r' => Some (JArr [], r')
    | None =>
        match parse_elements (parse_value fuel) fuel r with
        | Some (js, rest) => Some (JArr js, rest)
        | None => None
        end
    end.
Proof. reflexivity. Qed.

Lemma parse_value_object (fuel : nat) (r : string) :
  parse_value (S fuel) (String "{" r)
  = match after "}" r with
    | Some r' => Some (JObj [], r')
    | None =>
        match parse_members (parse_value fuel) fuel r with
        | Some (ms, rest) => Some (JObj ms, rest)
        | None => None
        end
    end.
Proof. reflexivity. Qed.

(** With enough fuel, the parser reads the text of a document back. *)
Lemma parse_value_render (j : json) :
  forall fuel rest,
    size j <= fuel -> stops number_char rest ->
    parse_value fuel (render j ++ rest) = Some (j, rest).
Proof.
  induction j as [|b|n|s|items IH|ms IH] using json_ind';
    intros fuel rest Hfuel Hrest;
    (destruct fuel as [|fuel];
     [pose proof (size_positive JNull); simpl in *; lia|]).
  - reflexivity.
  - destruct b; reflexivity.
  - cbn [render].
    destruct (decimal_text_head n) as (c & r & E & Hc).
    pose proof (parse_number_decimal_text n rest Hrest) as Hp.
    rewrite E in *. cbn [append] in *.
    rewrite parse_value_number by assumption. now rewrite Hp.
  - cbn [render]. unfold quote. rewrite !string_app_assoc.
    change (dquote ++ escape s ++ dquote ++ rest)
      with (String "034" (escape s ++ dquote ++ rest)).
    rewrite parse_value_string, parse_chars_escape. reflexivity.
  - cbn [render]. rewrite !string_app_assoc.
    destruct items as [|x items]; [reflexivity|].
    match goal with
    | |- parse_value _ ("[" ++ ?X) = _ =>
        change ("[" ++ X) with (String "[" X)
    end.
    rewrite parse_value_array.
    assert (Hclose : after "]" (String.concat "," (map render (x :: items))
                                ++ "]" ++ rest) = None).
    { destruct items as [|y l]; cbn [map String.concat];
        rewrite ?string_app_assoc; now apply after_render. }
    rewrite Hclose.
    rewrite parse_elements_render; [reflexivity| |].
    + cbn [size] in Hfuel.
      rewrite Forall_forall in IH. apply Forall_forall.
      intros y Hy rest' Hrest'. apply IH; auto.
      assert (size y <= list_sum (map size (x :: items)))
        by (apply list_sum_in; now apply in_map).
      lia.
    + cbn [size] in Hfuel.
      pose proof (list_sum_length json size (x :: items) size_positive).
      lia.
  - cbn [render]. rewrite !string_app_assoc.
    destruct ms as [|m ms]; [reflexivity|].
    match goal with
    | |- parse_value _ ("{" ++ ?X) = _ =>
        change ("{" ++ X) with (String "{" X)
    end.
    rewrite parse_value_object.
    assert (Hclose :
              after "}"
                (String.concat ","
                   (map (fun kv => quote (fst kv) ++ ":" ++ render (snd kv))
                      (m :: ms)) ++ "}" ++ rest) = None).
    { destruct m as [k v]. destruct ms as [|m' l];
        cbn [map String.concat fst snd]; unfold quote, dquote;
        rewrite ?string_app_assoc; reflexivity. }
    rewrite Hclose.
    rewrite parse_members_render; [reflexivity| |].
    + cbn [size] in Hfuel.
      rewrite Forall_forall in IH. apply Forall_forall.
      intros kv Hkv rest' Hrest'. apply IH; auto.
      assert (size (snd kv)
              <= list_sum (map (fun kv => size (snd kv)) (m :: ms)))
        by (apply list_sum_in;
            now apply (in_map (fun kv => size (snd kv)))).
      lia.
    + cbn [size] in Hfuel.
      pose proof (list_sum_length _ (fun kv : string * json => size (snd kv))
                    (m :: ms) (fun kv => size_positive (snd kv))).
      lia.
Qed.

Lemma concat_render_size (A : Type) (text : A -> string) (sz : A -> nat)
  (l : list A) :
  Forall (fun x => sz x <= String.length (text x)) l ->
  list_sum (map sz l) <= String.length (String.concat "," (map text l)).
Proof.
  induction 1 as [|x l Hx Hl IH]; [simpl; lia|].
  destruct l as [|y l].
  - simpl. lia.
  - change (String.concat "," (map text (x :: y :: l)))
      with (text x ++ "," ++ String.concat "," (map text (y :: l))).
    change (list_sum (map sz (x :: y :: l)))
      with (sz x + list_sum (map sz (y :: l))).
    rewrite !string_length_app. lia.
Qed.

Lemma size_le_length (j : json) : size j <= String.length (render j).
Proof.
  induction j as [|b|n|s|items IH|ms IH] using json_ind'; cbn [render size].
  - simpl. lia.
  - destruct b; simpl; lia.
  - destruct (decimal_text_head n) as (c & r & -> & _). simpl. lia.
  - unfold quote. rewrite !string_length_app. simpl. lia.
  - rewrite !string_length_app.
    pose proof (concat_render_size json render size items IH).
    change (String.length "[") with 1.
    change (String.length "]") with 1. lia.
  - rewrite !string_length_app.
    assert (H : list_sum (map (fun kv => size (snd kv)) ms)
                <= String.length
                     (String.concat ","
                        (map (fun kv => quote (fst kv) ++ ":"
                                        ++ render (snd kv)) ms))).
    { apply (concat_render_size (string * json)
               (fun kv => quote (fst kv) ++ ":" ++ render (snd kv))
               (fun kv => size (snd kv))).
      eapply Forall_impl; [|exact IH].
      intros kv Hkv. cbn beta in *. rewrite !string_length_app. lia. }
    change (String.length "{") with 1.
    change (String.length "}") with 1. lia.
Qed.

(** The text of a document parses back to the document. *)
Lemma parse_render (j : json) : parse (render j) = Some j.
Proof.
  unfold parse.
  rewrite <- (string_app_nil_r (render j)) at 2.
  rewrite parse_value_render; [reflexivity| |exact I].
  apply size_le_length.
Qed.

(** ** C3: the JSON body, read back *)

(** The claim as it is stated, on [{ chat_id: 7, text: 'hi', options:
    { ids: [1, undefined], ratio: NaN }, reply_to: null }]: nothing in
    it is attachment-shaped and the scan answers false; the body is
    [{"chat_id":7,"text":"hi","options":{"ids":[1,null],"ratio":null}}],
    which parsed back has [null] where the input has [undefined] in
    the array and NaN under [ratio]: it is not the input with its
    nullish-valued keys removed. *)
Lemma C3_counterexample :
  ~ Spec.contains_attachment Examples.payload_nested_undefined /\
  includesMedia Examples.payload_nested_undefined = Ok false /\
  exists text doc,
    body (buildJSONConfig Examples.world
            (VObj Examples.payload_nested_undefined))
    = JsonBody (Some text) /\
    parse text = Some doc /\
    value_of_json doc
    = VObj [("chat_id", VNum 7); ("text", VStr "hi");
            ("options", VObj [("ids", VArr [VNum 1; VNull]);
                              ("ratio", VNull)])] /\
    value_of_json doc
    <> Spec.without_nullish_keys (VObj Examples.payload_nested_undefined).
Proof.
  split; [|split; [reflexivity|]].
  - intros (k & v & Hin & Hk & Hv).
    simpl in Hin.
    destruct Hin as [H|[H|[H|[H|[]]]]]; inversion H; subst k v; clear H;
      destruct Hv as [Hs | (items & item & Hitems & _)];
      try discriminate;
      destruct Hs as [(o & Ho & Hkey) | (o & m & Ho & Hm & Hkey)];
      try discriminate; inversion Ho; subst o; clear Ho.
    + simpl in Hkey. destruct Hkey; congruence.
    + simpl in Hm. discriminate.
  - eexists. eexists. split; [reflexivity|].
    split; [vm_compute; reflexivity|].
    split; [reflexivity|]. simpl. intros H. inversion H.
Qed.

(** C3, amended.  For a mapping made of plain data (no buffer, no
    stream) with nothing attachment-shaped in it, on which the scan
    does not throw, the scan answers false, which selects JSON mode,
    and the body built by [buildJSONConfig] is a text that parses, and
    parsed back it is the input with every nullish-valued object key
    removed, at any depth, every nullish array element replaced by
    [null], every number that is not finite replaced by [null] and
    negative zero by zero. *)
Theorem C3_json_body_reads_back
  (w : World) (payload : object) :
  Spec.scan_safe payload = true ->
  ~ Spec.contains_attachment payload ->
  Spec.plain_data (VObj payload) = true ->
  includesMedia payload = Ok false /\
  exists text doc,
    body (buildJSONConfig w (VObj payload)) = JsonBody (Some text) /\
    parse text = Some doc /\
    value_of_json doc = Spec.json_view (VObj payload).
Proof.
  intros Hsafe Hnone Hplain. split.
  - rewrite (includesMedia_safe payload Hsafe). f_equal.
    destruct (Spec.scan_finds_b payload) eqn:E; [|reflexivity].
    exfalso. apply Hnone, scan_finds_contains.
    now apply scan_finds_reflect.
  - destruct (serialize_view (streamJSON w) (VObj payload) Hplain eq_refl)
      as (doc & Hdoc & Hview).
    exists (render doc), doc. split; [|split; [apply parse_render|exact Hview]].
    unfold buildJSONConfig. cbn [body].
    unfold JSON_stringify_with, stringify, document.
    now rewrite Hdoc.
Qed.

Lemma C3_witness :
  (Spec.scan_safe Examples.payload_plain = true /\
   ~ Spec.contains_attachment Examples.payload_plain /\
   Spec.plain_data (VObj Examples.payload_plain) = true) /\
  includesMedia Examples.payload_plain = Ok false /\
  exists text doc,
    body (buildJSONConfig Examples.world (VObj Examples.payload_plain))
    = JsonBody (Some text) /\
    parse text = Some doc /\
    value_of_json doc = Spec.json_view (VObj Examples.payload_plain).
Proof.
  assert (H1 : Spec.scan_safe Examples.payload_plain = true) by reflexivity.
  assert (H2 : ~ Spec.contains_attachment Examples.payload_plain).
  { intros (k & v & Hin & Hk & Hv).
    simpl in Hin.
    destruct Hin as [H|[H|[H|[H|[H|[]]]]]]; inversion H; subst k v; clear H;
      destruct Hv as [Hs | (items & item & Hitems & Hin & Hs)];
      try discriminate.
    all: try (destruct Hs as [(o & Ho & Hkey) | (o & m & Ho & Hm & Hkey)];
              discriminate).
    inversion Hitems; subst items; clear Hitems.
    destruct Hin as [<- | []].
    destruct Hs as [(o & Ho & Hkey) | (o & m & Ho & Hm & Hkey)];
      inversion Ho; subst o; clear Ho.
    - simpl in Hkey. destruct Hkey; congruence.
    - simpl in Hm. discriminate. }
  assert (H3 : Spec.plain_data (VObj Examples.payload_plain) = true)
    by reflexivity.
  split; [repeat split; assumption|].
  exact (C3_json_body_reads_back Examples.world Examples.payload_plain
           H1 H2 H3).
Defined.

(** * Further properties of the code *)

(** ** The scan, field by field *)

Lemma some_app {A} (f : A -> result bool) (l r : list A) :
  some f (l ++ r)%list
  = match some f l with
    | Ok false => some f r
    | other => other
    end.
Proof.
  induction l as [|x l IH]; [reflexivity|].
  cbn [app some]. destruct (f x) as [[|]|e]; cbn [rbind]; auto.
Qed.

(** X1.  The scan goes through the fields in key order and stops at
    the first one that settles it: over a mapping cut in two, either
    the first piece already answers true or throws, and then this is
    the outcome whatever follows, or it answers false and the outcome
    is that of the second piece. *)
Theorem X1_includesMedia_stops_at_first
  (front back : object) :
  includesMedia (front ++ back)%list
  = match includesMedia front with
    | Ok false => includesMedia back
    | settled => settled
    end.
Proof. apply some_app. Qed.

(** X2.  A [link_preview_options] field is never looked into:
    whatever its value, also one that holds a file reference or one on
    which a property read would throw, the scan answers as it does
    without the field. *)
Theorem X2_link_preview_options_skipped
  (front back : object) (v : value) :
  includesMedia (front ++ ("link_preview_options", v) :: back)%list
  = includesMedia (front ++ back)%list.
Proof.
  unfold includesMedia. rewrite !some_app.
  destruct (some entry_includes_media front) as [[|]|e]; reflexivity.
Qed.

Lemma some_throws_at {A} (f : A -> result bool) (l r : list A) (x : A) e :
  some f l = Ok false -> f x = Err e -> some f (l ++ x :: r)%list = Err e.
Proof.
  intros Hl Hx. rewrite some_app, Hl. cbn [some]. now rewrite Hx.
Qed.

Lemma item_includes_media_nullish (x : value) :
  nullish x = true -> item_includes_media x = Err JsTypeError.
Proof. destruct x; try discriminate; reflexivity. Qed.

(** X3.  The callback of the inner [some] destructures its argument,
    so an array field with a [null] or [undefined] element makes the
    scan throw a TypeError, unless an earlier field or an earlier
    element of the array already answered true.  Only the array of
    [link_preview_options] is exempt. *)
Theorem X3_nullish_array_element_throws
  (front back : object) (key : string)
  (before after : list value) (x : value) :
  includesMedia front = Ok false ->
  (key =? "link_preview_options") = false ->
  some item_includes_media before = Ok false ->
  nullish x = true ->
  includesMedia (front ++ (key, VArr (before ++ x :: after)) :: back)%list
  = Err JsTypeError.
Proof.
  intros Hfront Hkey Hbefore Hx.
  apply some_throws_at; [exact Hfront|].
  cbn [entry_includes_media]. rewrite Hkey.
  apply some_throws_at; [exact Hbefore|].
  now apply item_includes_media_nullish.
Qed.

Lemma X3_witness :
  includesMedia Examples.payload_null_element = Err JsTypeError.
Proof.
  exact (X3_nullish_array_element_throws
           [("chat_id", VNum 7)] [] "entities" [] [] VNull
           eq_refl eq_refl eq_refl eq_refl).
Defined.

(** ** The webhook reply and the outbound JSON body *)

Section Replacer.
Variable sj : stream -> json.

Lemma serialize_array_ext (f g : string -> value -> option json)
  (items : list value) :
  Forall (fun x => forall key,
            match f key x with Some j => j | None => JNull end
            = match g key x with Some j => j | None => JNull end) items ->
  forall i, serialize_array f i items = serialize_array g i items.
Proof.
  induction 1 as [|x l Hx _ IH]; intros i; [reflexivity|].
  cbn [serialize_array]. now rewrite Hx, IH.
Qed.

Lemma serialize_object_ext (f g : string -> value -> option json)
  (props : list (string * value)) :
  Forall (fun kv => forall key, f key (snd kv) = g key (snd kv)) props ->
  serialize_object f props = serialize_object g props.
Proof.
  induction 1 as [|[k x] l Hx _ IH]; [reflexivity|].
  cbn [serialize_object]. cbn [snd] in Hx. now rewrite Hx, IH.
Qed.

(** Without a [null] under an object key and without a stream, the
    replacer changes nothing below a value that is not itself
    [null]. *)
Lemma replacer_unseen (v : value) :
  Spec.no_null_member v = true -> Spec.no_stream v = true ->
  Spec.is_null v = false ->
  forall key,
    SerializeJSONProperty sj None key v
    = SerializeJSONProperty sj (Some replacer) key v.
Proof.
  induction v using value_ind'; intros Hm Hs Hn key;
    try reflexivity; try discriminate.
  - cbn [SerializeJSONProperty replaced replacer nullish]. do 2 f_equal.
    apply serialize_array_ext.
    cbn [Spec.no_null_member] in Hm. rewrite forallb_forall in Hm.
    cbn [Spec.no_stream] in Hs. rewrite forallb_forall in Hs.
    rewrite Forall_forall in *. intros x Hx k.
    destruct (Spec.is_null x) eqn:E.
    + destruct x; try discriminate. reflexivity.
    + now rewrite (H x Hx (Hm x Hx) (Hs x Hx) E k).
  - cbn [SerializeJSONProperty replaced replacer nullish]. do 2 f_equal.
    apply serialize_object_ext.
    cbn [Spec.no_null_member] in Hm. rewrite forallb_forall in Hm.
    cbn [Spec.no_stream] in Hs. rewrite forallb_forall in Hs.
    rewrite Forall_forall in *. intros kv Hkv k.
    specialize (Hm kv Hkv). apply andb_prop in Hm as [Hnn Hm].
    apply negb_true_iff in Hnn. apply H; auto.
Qed.
End Replacer.

(** X4.  The webhook reply is written with [JSON.stringify(payload)],
    the outbound JSON body with [JSON.stringify(payload, replacer)].
    For a payload that holds no stream and in which no object has a
    [null]-valued key, at any depth, the two texts are the same: the
    chunk passed to [end] is the body [buildJSONConfig] gives.  (A
    stream is an object of the runtime with properties of its own,
    [null]-valued ones among them.) *)
Theorem X4_webhook_reply_is_json_body
  (w : World) (response : Response) (payload : object) (options : Options) :
  Spec.no_null_member (VObj payload) = true ->
  Spec.no_stream (VObj payload) = true ->
  exists text,
    body (buildJSONConfig w (VObj payload)) = JsonBody (Some text) /\
    fst (answerToWebhook w response payload options)
    = call (End (Some text) "utf-8")
        (if headersSent response then response
         else call (SetHeader "content-type" "application/json") response).
Proof.
  intros Hm Hs.
  pose proof (replacer_unseen (streamJSON w) (VObj payload) Hm Hs eq_refl "")
    as Heq.
  exists (render (JObj (serialize_object
                          (SerializeJSONProperty (streamJSON w) None)
                          payload))).
  split.
  - unfold buildJSONConfig. cbn [body].
    unfold JSON_stringify_with, stringify, document.
    rewrite <- Heq. reflexivity.
  - unfold answerToWebhook, JSON_stringify, stringify.
    rewrite document_object. cbn [fst option_map].
    now destruct (headersSent response).
Qed.

Lemma X4_witness :
  exists text,
    body (buildJSONConfig Examples.world (VObj Examples.payload_no_null))
    = JsonBody (Some text) /\
    fst (answerToWebhook Examples.world
           {| headersSent := false; calls := [] |}
           Examples.payload_no_null
           {| apiRoot := "https://api.telegram.org"; apiMode := "bot";
              webhookReply := true; testEnv := false |})
    = call (End (Some text) "utf-8")
        (call (SetHeader "content-type" "application/json")
           {| headersSent := false; calls := [] |}).
Proof.
  exact (X4_webhook_reply_is_json_body Examples.world
           {| headersSent := false; calls := [] |}
           Examples.payload_no_null
           {| apiRoot := "https://api.telegram.org"; apiMode := "bot";
              webhookReply := true; testEnv := false |}
           eq_refl eq_refl).
Defined.

Lemma member_of_kept (f : string -> value -> option json)
  (payload : object) (k : string) (v : value) (j : json) :
  lookup k payload = Some v -> f k v = Some j ->
  Spec.member_of k (serialize_object f payload) = Some j.
Proof.
  induction payload as [|[k' x] r IH]; [discriminate|].
  cbn [lookup serialize_object]. intros Hl Hf.
  destruct (k' =? k) eqn:E.
  - apply String.eqb_eq in E. subst k'. injection Hl as ->.
    rewrite Hf. cbn [Spec.member_of]. now rewrite String.eqb_refl.
  - destruct (f k' x); [cbn [Spec.member_of]; rewrite E|]; now apply IH.
Qed.

Lemma member_of_absent (f : string -> value -> option json)
  (payload : object) (k : string) :
  ~ In k (keys payload) ->
  Spec.member_of k (serialize_object f payload) = None.
Proof.
  induction payload as [|[k' x] r IH]; [reflexivity|].
  cbn [keys map fst In serialize_object]. intros Hn.
  assert (E : (k' =? k) = false).
  { apply String.eqb_neq. intros ->. apply Hn. now left. }
  destruct (f k' x); [cbn [Spec.member_of]; rewrite E|];
    apply IH; intros Hin; apply Hn; now right.
Qed.

Lemma member_of_dropped (f : string -> value -> option json)
  (payload : object) (k : string) (v : value) :
  NoDup (keys payload) ->
  lookup k payload = Some v -> f k v = None ->
  Spec.member_of k (serialize_object f payload) = None.
Proof.
  induction payload as [|[k' x] r IH]; [discriminate|].
  cbn [keys map fst lookup serialize_object]. intros Hd Hl Hf.
  inversion Hd as [|? ? Hnotin Hd']; subst.
  destruct (k' =? k) eqn:E.
  - apply String.eqb_eq in E. subst k'. injection Hl as ->.
    rewrite Hf. now apply member_of_absent.
  - destruct (f k' x); [cbn [Spec.member_of]; rewrite E|]; now apply IH.
Qed.

(** X5.  Where they differ: a field whose value is [null] is a member
    of the webhook reply, with the value [null], and is no member of
    the outbound JSON body. *)
Theorem X5_null_field_kept_in_webhook_reply
  (w : World) (response : Response) (payload : object) (options : Options)
  (k : string) :
  NoDup (keys payload) ->
  lookup k payload = Some VNull ->
  exists reply sent,
    In (End (Some (render reply)) "utf-8")
       (calls (fst (answerToWebhook w response payload options))) /\
    body (buildJSONConfig w (VObj payload)) = JsonBody (Some (render sent)) /\
    Spec.member k reply = Some JNull /\
    Spec.member k sent = None.
Proof.
  intros Hd Hl.
  exists (JObj (serialize_object
                  (SerializeJSONProperty (streamJSON w) None) payload)),
         (JObj (serialize_object
                  (SerializeJSONProperty (streamJSON w) (Some replacer))
                  payload)).
  split; [|split; [reflexivity|split]].
  - unfold answerToWebhook, JSON_stringify, stringify.
    rewrite document_object. cbn [fst option_map].
    unfold call. cbn [calls]. apply in_or_app. right. now left.
  - cbn [Spec.member]. eapply member_of_kept; [exact Hl|reflexivity].
  - cbn [Spec.member]. eapply member_of_dropped; [exact Hd|exact Hl|].
    reflexivity.
Qed.

Lemma X5_witness :
  exists reply sent,
    In (End (Some (render reply)) "utf-8")
       (calls (fst (answerToWebhook Examples.world
                      {| headersSent := true; calls := [] |}
                      Examples.payload_null_field
                      {| apiRoot := "https://api.telegram.org";
                         apiMode := "bot";
                         webhookReply := true; testEnv := false |}))) /\
    body (buildJSONConfig Examples.world (VObj Examples.payload_null_field))
    = JsonBody (Some (render sent)) /\
    Spec.member "reply_to" reply = Some JNull /\
    Spec.member "reply_to" sent = None.
Proof.
  assert (Hd : NoDup (keys Examples.payload_null_field)).
  { repeat constructor; cbn; intuition discriminate. }
  exact (X5_null_field_kept_in_webhook_reply Examples.world
           {| headersSent := true; calls := [] |}
           Examples.payload_null_field
           {| apiRoot := "https://api.telegram.org"; apiMode := "bot";
              webhookReply := true; testEnv := false |}
           "reply_to" Hd eq_refl).
Defined.

(** ** The pre-pass over the JSON fields *)

Lemma set_same (k : string) (v : value) (o : object) :
  lookup k o = Some v -> set k v o = o.
Proof.
  induction o as [|[k' x] r IH]; [discriminate|].
  cbn [lookup set]. destruct (k' =? k) eqn:E.
  - intros [= ->]. reflexivity.
  - intros H. now rewrite IH.
Qed.

Lemma JSON_stringify_undefined (w : World) (v : value) :
  JSON_stringify w v = None -> v = VUndefined.
Proof.
  destruct v as [| | |[[|]| | |]| | | | |]; try discriminate; reflexivity.
Qed.

Lemma stringify_field_settles (w : World) (payload : object) (field : string) :
  Spec.settled (stringify_field w payload field) field.
Proof.
  unfold Spec.settled, stringify_field.
  destruct (lookup field payload) as [v|] eqn:E; [|now rewrite E].
  destruct v; rewrite ?lookup_set_same, ?E;
    try (now left); try (now right);
    match goal with
    | |- context [JSON_stringify w ?v] =>
        destruct (JSON_stringify w v); [now left|now right]
    end.
Qed.

Lemma stringify_field_settled (w : World) (payload : object) (field : string) :
  Spec.settled payload field -> stringify_field w payload field = payload.
Proof.
  unfold Spec.settled, stringify_field.
  destruct (lookup field payload) as [v|] eqn:E; [|reflexivity].
  intros [Ht| ->].
  - destruct v; try discriminate. reflexivity.
  - now apply set_same.
Qed.

Lemma settled_stringify_field
  (w : World) (payload : object) (field other : string) :
  Spec.settled payload field ->
  Spec.settled (stringify_field w payload other) field.
Proof.
  intros H. destruct (String.eqb_spec field other) as [->|Hne].
  - apply stringify_field_settles.
  - unfold Spec.settled. now rewrite lookup_stringify_field_other.
Qed.

Lemma settled_fold (w : World) (fields : list string) (field : string) :
  forall payload,
    Spec.settled payload field ->
    Spec.settled (fold_left (stringify_field w) fields payload) field.
Proof.
  induction fields as [|f r IH]; intros payload H; [exact H|].
  cbn [fold_left]. apply IH. now apply settled_stringify_field.
Qed.

Lemma fold_settles (w : World) (fields : list string) (field : string) :
  In field fields ->
  forall payload,
    Spec.settled (fold_left (stringify_field w) fields payload) field.
Proof.
  induction fields as [|f r IH]; intros Hin payload; [destruct Hin|].
  cbn [fold_left]. destruct Hin as [->|Hin].
  - apply settled_fold, stringify_field_settles.
  - now apply IH.
Qed.

Lemma fold_settled (w : World) (fields : list string) :
  forall payload,
    (forall f, In f fields -> Spec.settled payload f) ->
    fold_left (stringify_field w) fields payload = payload.
Proof.
  induction fields as [|f r IH]; intros payload H; [reflexivity|].
  cbn [fold_left].
  rewrite stringify_field_settled by (apply H; now left).
  apply IH. intros g Hg. apply H. now right.
Qed.

(** X6.  The loop over [FORM_DATA_JSON_FIELDS] keeps the keys and
    their order, keeps every other field, and leaves under each of
    the five fields that is present a string, or [undefined] where
    its value was [undefined]. *)
Theorem X6_json_fields_become_strings (w : World) (payload : object) :
  keys (stringify_json_fields w payload) = keys payload /\
  (forall k, ~ In k FORM_DATA_JSON_FIELDS ->
     lookup k (stringify_json_fields w payload) = lookup k payload) /\
  (forall k v, In k FORM_DATA_JSON_FIELDS ->
     lookup k (stringify_json_fields w payload) = Some v ->
     typeof v = TString \/
     (v = VUndefined /\ lookup k payload = Some VUndefined)).
Proof.
  split; [apply keys_stringify_json_fields|].
  split; [intros k; apply lookup_stringify_json_fields_other|].
  intros k v Hin Hl.
  pose proof (fold_settles w FORM_DATA_JSON_FIELDS k Hin payload) as Hs.
  unfold Spec.settled in Hs. fold (stringify_json_fields w payload) in Hs.
  rewrite Hl in Hs. destruct Hs as [Ht| ->]; [now left|].
  right. split; [reflexivity|].
  destruct (lookup k payload) as [x|] eqn:Ex.
  - destruct (JSON_stringify w x) as [text|] eqn:Et.
    + destruct (type_tag_eqb (typeof x) TString) eqn:Es.
      * destruct x; try discriminate.
        unfold stringify_json_fields in Hl.
        rewrite (lookup_fold_stringify_string w _ k s payload Ex) in Hl.
        discriminate.
      * unfold stringify_json_fields in Hl.
        rewrite (lookup_fold_stringify_in w _ k x text Hin) in Hl;
          [discriminate| |exact Et|exact Ex].
        intros Hx. rewrite Hx in Es. discriminate.
    + apply JSON_stringify_undefined in Et. now subst x.
  - exfalso.
    assert (Hk : In k (keys (stringify_json_fields w payload))).
    { apply (in_map fst) with (x := (k, VUndefined)).
      eapply lookup_In; eauto. }
    rewrite keys_stringify_json_fields in Hk.
    apply in_map_iff in Hk. destruct Hk as ([k' x] & Hk & Hx).
    cbn [fst] in Hk. subst k'.
    clear - Ex Hx. induction payload as [|[k' y] r IH]; [destruct Hx|].
    cbn [lookup] in Ex. destruct (k' =? k) eqn:E; [discriminate|].
    destruct Hx as [Hx|Hx]; [|now apply IH].
    injection Hx as -> ->. now rewrite String.eqb_refl in E.
Qed.

(** X7.  The loop is idempotent: run on its own result it changes
    nothing, so a payload object that was already sent once as
    multipart is not stringified twice. *)
Theorem X7_json_fields_idempotent (w : World) (payload : object) :
  stringify_json_fields w (stringify_json_fields w payload)
  = stringify_json_fields w payload.
Proof.
  unfold stringify_json_fields at 1. apply fold_settled.
  intros f Hf. now apply fold_settles.
Qed.

(** ** Redaction, once more *)

Lemma no_credential_tail (c : ascii) (s : string) :
  Spec.no_credential (String c s) -> Spec.no_credential s.
Proof.
  intros H pre m i sec post Hc E.
  apply (H (String c pre) m i sec post Hc). cbn. now f_equal.
Qed.

Lemma replace_no_credential (s : string) :
  Spec.no_credential s -> replace s = s.
Proof.
  induction s as [|c s IH]; intros H; [reflexivity|].
  rewrite replace_equation.
  destruct (match_here (String c s)) as [[[g1 g2] rest]|] eqn:E.
  - apply match_here_sound in E. destruct E as (secret & Hc & E).
    exfalso. exact (H "" g1 g2 secret rest Hc E).
  - f_equal. apply IH. eapply no_credential_tail, H.
Qed.

Lemma no_match_no_credential (s : string) :
  Spec.no_match_before (S (String.length s)) s = true ->
  Spec.no_credential s.
Proof.
  intros H pre m i sec post Hc E.
  pose proof (no_match_before_sound _ _ H pre m i sec post Hc E) as Hle.
  apply (f_equal String.length) in E.
  rewrite string_length_app in E. lia.
Qed.

(** X8.  An error whose message holds no credential path is rethrown
    as it is: same name, same message. *)
Theorem X8_redactToken_keeps_other_messages (err : Error) :
  Spec.no_credential (message err) -> redactToken err = Throw err.
Proof.
  intros H. unfold redactToken. rewrite replace_no_credential by exact H.
  now destruct err.
Qed.

Lemma X8_witness : redactToken Examples.plain_error = Throw Examples.plain_error.
Proof.
  assert (H : Spec.no_credential (message Examples.plain_error))
    by (apply no_match_no_credential; vm_compute; reflexivity).
  exact (X8_redactToken_keeps_other_messages Examples.plain_error H).
Defined.

Lemma all_chars_app (p : ascii -> bool) (a b : string) :
  all_chars p (a ++ b) = all_chars p a && all_chars p b.
Proof.
  induction a as [|c a IH]; [reflexivity|].
  cbn [append all_chars]. now rewrite IH, andb_assoc.
Qed.

Lemma digits_not_slash (s : string) :
  all_chars is_digit s = true -> all_chars not_slash s = true.
Proof.
  induction s as [|c s IH]; [reflexivity|].
  cbn [all_chars]. intros H. apply andb_true_iff in H as [Hc Hs].
  rewrite IH by exact Hs. rewrite andb_true_r.
  unfold not_slash, is_slash. apply negb_true_iff.
  destruct (Ascii.eqb c "/") eqn:E; [|reflexivity].
  apply Ascii.eqb_eq in E. subst c. discriminate.
Qed.

(** Between its two slashes a credential path has no slash. *)
Lemma credential_inside (mode id secret : string) :
  Spec.is_credential mode id secret = true ->
  all_chars not_slash (mode ++ id ++ ":" ++ secret) = true.
Proof.
  intros H. apply is_credential_inv in H.
  destruct H as (Hmode & _ & Hdig & _ & Hns).
  rewrite !all_chars_app, (digits_not_slash id Hdig), Hns.
  destruct Hmode as [-> | ->]; reflexivity.
Qed.

Lemma credential_shape (mode id secret post : string) :
  Spec.credential mode id secret ++ post
  = "/" ++ (mode ++ id ++ ":" ++ secret) ++ "/" ++ post.
Proof.
  rewrite credential_app. cbn [append]. f_equal.
  now rewrite !string_app_assoc.
Qed.

(** A slash-free text followed by a slash, found at the head of
    [a ++ "/" ++ x], ends within [a ++ "/"]. *)
Lemma closes_early (inside : string) :
  all_chars not_slash inside = true ->
  forall a x post,
    a ++ "/" ++ x = inside ++ "/" ++ post ->
    exists t, a ++ "/" = inside ++ "/" ++ t.
Proof.
  induction inside as [|b inside IH]; intros Hin a x post E.
  - destruct a as [|c a].
    + now exists "".
    + cbn in E. injection E as -> _. cbn. now exists (a ++ "/").
  - cbn [all_chars] in Hin. apply andb_true_iff in Hin as [Hb Hin].
    destruct a as [|c a].
    + cbn in E. injection E as <- _. discriminate.
    + cbn in E. injection E as -> E.
      destruct (IH Hin a x post E) as (t & Ht). exists t.
      cbn. now f_equal.
Qed.

(** A credential path that begins before offset [|a|] of
    [a ++ "/" ++ x] is there whatever [x] is. *)
Lemma credential_before_slash (mode id secret : string) :
  Spec.is_credential mode id secret = true ->
  forall pre a x post,
    a ++ "/" ++ x = pre ++ Spec.credential mode id secret ++ post ->
    String.length pre < String.length a ->
    exists t, a ++ "/" = pre ++ Spec.credential mode id secret ++ t.
Proof.
  intros Hc. induction pre as [|c pre IH]; intros a x post E Hlt.
  - destruct a as [|c a]; [cbn in Hlt; lia|].
    cbn [append] in E |- *. rewrite credential_shape in E.
    cbn [append] in E. injection E as -> E.
    destruct (closes_early _ (credential_inside _ _ _ Hc) a x post E)
      as (t & Ht).
    exists t. rewrite credential_shape. cbn [append]. now f_equal.
  - destruct a as [|d a]; [cbn in Hlt; lia|].
    cbn [append] in E. injection E as -> E.
    cbn [String.length] in Hlt. apply PeanoNat.lt_S_n in Hlt.
    destruct (IH a x post E Hlt) as (t & Ht).
    exists t. cbn [append]. now f_equal.
Qed.

Lemma leftmost_after_redaction (pre mode id secret post : string) :
  Spec.no_credential_before (String.length pre)
    (pre ++ Spec.credential mode id secret ++ post) ->
  Spec.no_credential_before (String.length pre)
    (pre ++ Spec.credential mode id "[REDACTED]" ++ post).
Proof.
  intros Hleft pre' m i sec post' Hc E.
  destruct (Nat.le_gt_cases (String.length pre) (String.length pre'))
    as [Hle|Hlt]; [exact Hle|exfalso].
  rewrite credential_shape in E.
  destruct (credential_before_slash m i sec Hc pre' pre _ post' E Hlt)
    as (t & Ht).
  assert (Hs : pre ++ Spec.credential mode id secret ++ post
               = pre' ++ Spec.credential m i sec
                 ++ t ++ (mode ++ id ++ ":" ++ secret) ++ "/" ++ post).
  { rewrite credential_shape.
    change ("/" ++ (mode ++ id ++ ":" ++ secret) ++ "/" ++ post)
      with ("/" ++ ((mode ++ id ++ ":" ++ secret) ++ "/" ++ post)).
    rewrite <- (string_app_assoc pre "/"), Ht.
    now rewrite !string_app_assoc. }
  specialize (Hleft pre' m i sec _ Hc Hs). lia.
Qed.

Lemma leftmost_or_none (s : string) :
  Spec.no_credential s \/
  exists pre mode id secret post,
    Spec.is_credential mode id secret = true /\
    s = pre ++ Spec.credential mode id secret ++ post /\
    Spec.no_credential_before (String.length pre) s.
Proof.
  induction s as [|c s IH].
  - left. intros pre m i sec post Hc E.
    destruct pre; [|discriminate].
    rewrite credential_app in E. discriminate.
  - destruct (match_here (String c s)) as [[[g1 g2] rest]|] eqn:E.
    + right. apply match_here_sound in E. destruct E as (secret & Hc & E).
      exists "", g1, g2, secret, rest. split; [exact Hc|].
      split; [exact E|]. intros ? ? ? ? ? _ _. cbn. lia.
    + destruct IH as [Hno|(pre & m & i & sec & post & Hc & Es & Hleft)].
      * left. intros pre m i sec post Hc E'.
        destruct pre as [|d pre].
        -- cbn [append] in E'.
           rewrite E', match_here_complete in E by exact Hc. discriminate.
        -- cbn [append] in E'. injection E' as _ E'.
           exact (Hno pre m i sec post Hc E').
      * right. exists (String c pre), m, i, sec, post.
        split; [exact Hc|]. split; [cbn [append]; now f_equal|].
        intros pre' m' i' sec' post' Hc' E'.
        destruct pre' as [|d pre'].
        -- cbn [append] in E'.
           rewrite E', match_here_complete in E by exact Hc'. discriminate.
        -- cbn [append] in E'. injection E' as _ E'.
           cbn [String.length]. apply le_n_S.
           exact (Hleft pre' m' i' sec' post' Hc' E').
Qed.

Lemma replace_idempotent (s : string) : replace (replace s) = replace s.
Proof.
  destruct (leftmost_or_none s)
    as [Hno|(pre & m & i & sec & post & Hc & -> & Hleft)].
  - now rewrite !(replace_no_credential s Hno).
  - rewrite (replace_leftmost pre m i sec post Hc Hleft).
    assert (Hr : Spec.is_credential m i "[REDACTED]" = true).
    { apply is_credential_inv in Hc.
      destruct Hc as (Hmode & Hid & Hdig & _ & _).
      unfold Spec.is_credential. rewrite Hdig.
      apply String.eqb_neq in Hid. rewrite Hid.
      destruct Hmode as [-> | ->]; reflexivity. }
    change (Spec.redacted m i) with (Spec.credential m i "[REDACTED]").
    apply (replace_leftmost pre m i "[REDACTED]" post Hr).
    now apply (leftmost_after_redaction pre m i sec post).
Qed.

(** X9.  Redacting twice is redacting once: what [redactToken] throws
    is an error it would rethrow unchanged.  The marker it wrote is
    itself read as the secret of the leftmost credential path, so a
    second pass does not reach a second credential path either. *)
Theorem X9_redactToken_idempotent (err redacted : Error) :
  redactToken err = Throw redacted ->
  redactToken redacted = Throw redacted.
Proof.
  unfold redactToken. intros [= <-]. cbn [name message].
  now rewrite replace_idempotent.
Qed.

Lemma X9_witness :
  redactToken
    {| name := "FetchError";
       message :=
         "request to https://api.telegram.org/bot12345:[REDACTED]/getMe failed, reason: redirected to https://api.telegram.org"
         ++ "/bot12345:ABCDEF/" ++ Examples.redirect_post |}
  = Throw
      {| name := "FetchError";
         message :=
           "request to https://api.telegram.org/bot12345:[REDACTED]/getMe failed, reason: redirected to https://api.telegram.org"
           ++ "/bot12345:ABCDEF/" ++ Examples.redirect_post |}.
Proof.
  apply (X9_redactToken_idempotent Examples.redirect_error).
  vm_compute. reflexivity.
Defined.

(** ** The resolver, branch by branch *)

Lemma url_test (o : object) :
  (has_in "url" (VObj o) &&&
   (let? url := get (VObj o) "url" in
    Ok (negb (type_tag_eqb (typeof url) TUndefined))))
  = Ok match lookup "url" o with
       | Some url => Spec.defined url
       | None => false
       end.
Proof. cbn. destruct (lookup "url" o); reflexivity. Qed.

Lemma fileName_choice (o : object) (id : string) :
  (let? filename := get (VObj o) "filename" in
   Ok (to_string (if nullish filename then VStr (Spec.default_filename id)
                  else filename)))
  = Ok (Spec.explicit_or o (Spec.default_filename id)).
Proof.
  unfold Spec.explicit_or. cbn [get].
  destruct (lookup "filename" o) as [f|]; [|reflexivity].
  cbn [rbind]. now destruct (nullish f).
Qed.

(** X10.  A reference whose [url] is present and not [undefined] is
    fetched, whatever else it holds: the file system is not consulted
    and [source] is not read.  A failed request makes the call fail;
    otherwise exactly one part is added, named [id], with the response
    body as its body and with the explicit filename or else
    [<id>.<ext>], the extension being that of [DEFAULT_EXTENSIONS] for
    [id], or [dat]. *)
Theorem X10_url_is_fetched
  (w : World) (o : object) (url : value) (id : string) (st : state) :
  lookup "url" o = Some url ->
  url <> VUndefined ->
  attachFormMedia w (VObj o) id st
  = match fetch w url with
    | None => Err FetchError
    | Some res_body =>
        Ok (tt,
            {| form :=
                 form st ++
                 [{| part_name := id;
                     part_filename :=
                       Some (Spec.explicit_or o (Spec.default_filename id));
                     part_body_of := BStream res_body |}];
               draws := draws st |})
    end.
Proof.
  intros Hl Hu.
  assert (Hd : Spec.defined url = true) by (destruct url; [congruence|reflexivity..]).
  unfold attachFormMedia. unfold bind at 1. unfold lift at 1.
  pose proof (fileName_choice o id) as Hf.
  destruct (get (VObj o) "filename") as [filename|] eqn:Ef;
    [|discriminate].
  cbn [rbind] in Hf. injection Hf as Hf.
  unfold bind at 1. unfold lift at 1. rewrite url_test, Hl, Hd.
  unfold bind, lift. cbn [get]. rewrite Hl.
  destruct (fetch w url); [|reflexivity].
  unfold addPart, media_part. fold (Spec.default_filename id).
  now rewrite Hf.
Qed.

Lemma X10_witness :
  attachFormMedia Examples.world (VObj Examples.url_ref) "photo" start
  = Ok (tt,
        {| form :=
             [{| part_name := "photo";
                 part_filename := Some "photo.jpg";
                 part_body_of := BStream (ResponseBody 0) |}];
           draws := 0 |}).
Proof.
  assert (H : VStr "https://example.org/cat.png" <> VUndefined)
    by discriminate.
  exact (X10_url_is_fetched Examples.world Examples.url_ref
           (VStr "https://example.org/cat.png") "photo" start eq_refl H).
Defined.

Lemma no_url_test (o : object) :
  lookup "url" o = None \/ lookup "url" o = Some VUndefined ->
  match lookup "url" o with
  | Some url => Spec.defined url
  | None => false
  end = false.
Proof. now intros [-> | ->]. Qed.

Lemma attachFormMedia_memory
  (w : World) (o : object) (source : value) (b : part_body)
  (id : string) (st : state) :
  lookup "url" o = None \/ lookup "url" o = Some VUndefined ->
  lookup "source" o = Some source ->
  binary_body source = Some b ->
  attachFormMedia w (VObj o) id st
  = Ok (tt,
        {| form :=
             form st ++
             [{| part_name := id;
                 part_filename :=
                   Some (Spec.explicit_or o (Spec.default_filename id));
                 part_body_of := b |}];
           draws := draws st |}).
Proof.
  intros Hu Hs Hb.
  unfold attachFormMedia. unfold bind at 1. unfold lift at 1.
  pose proof (fileName_choice o id) as Hf.
  destruct (get (VObj o) "filename") as [filename|] eqn:Ef;
    [|discriminate].
  cbn [rbind] in Hf. injection Hf as Hf.
  unfold bind at 1. unfold lift at 1.
  rewrite url_test, (no_url_test o Hu).
  unfold bind, lift, truthy_prop. cbn [get has_in]. rewrite Hs.
  destruct source; try discriminate; cbn [binary_body] in Hb;
    injection Hb as <-; cbn [truthy rbind rand_ ror_ ret binary_body];
    unfold ret, addPart, media_part;
    fold (Spec.default_filename id); now rewrite Hf.
Qed.

(** X11.  A reference without a [url] whose [source] is a buffer or a
    stream gives exactly one part, named [id], whose body is that
    buffer or stream itself; no file is opened and nothing is fetched,
    so the call cannot fail.  The filename is the explicit one or else
    [<id>.<ext>]. *)
Theorem X11_memory_source_is_sent_as_is
  (w : World) (o : object) (source : value) (b : part_body)
  (id : string) (st : state) :
  lookup "url" o = None \/ lookup "url" o = Some VUndefined ->
  lookup "source" o = Some source ->
  binary_body source = Some b ->
  attachFormMedia w (VObj o) id st
  = Ok (tt,
        {| form :=
             form st ++
             [{| part_name := id;
                 part_filename :=
                   Some (Spec.explicit_or o (Spec.default_filename id));
                 part_body_of := b |}];
           draws := draws st |}).
Proof. apply attachFormMedia_memory. Qed.

Lemma X11_witness :
  attachFormMedia Examples.world (VObj Examples.named_buffer_ref)
    "document" start
  = Ok (tt,
        {| form :=
             [{| part_name := "document";
                 part_filename := Some "cat.png";
                 part_body_of := BBuffer [Byte.x89; Byte.x50] |}];
           draws := 0 |}).
Proof.
  exact (X11_memory_source_is_sent_as_is Examples.world
           Examples.named_buffer_ref Examples.buffer
           (BBuffer [Byte.x89; Byte.x50]) "document" start
           (or_introl eq_refl) eq_refl eq_refl).
Defined.

(** ** Fields that are objects *)


Lemma media_type_test (o : object) :
  (hasProp (VObj o) "media" &&& hasProp (VObj o) "type" &&&
   (let? media := get (VObj o) "media" in
    Ok (negb (type_tag_eqb (typeof media) TUndefined))) &&&
   (let? type := get (VObj o) "type" in
    Ok (negb (type_tag_eqb (typeof type) TUndefined))))
  = Ok (Spec.describes_media o).
Proof.
  unfold Spec.describes_media, Spec.defined. cbn.
  destruct (lookup "media" o) as [m|]; [|reflexivity].
  destruct (lookup "type" o) as [t|]; [|reflexivity].
  cbn. now destruct (negb (type_tag_eqb (typeof m) TUndefined)).
Qed.

Lemma attachFormValue_object
  (w : World) (id : string) (o : object) (st : state) :
  Spec.thumbnail_key id = false ->
  attachFormValue w id (VObj o) st
  = if Spec.describes_media o then
      match
        attachFormMedia w (Spec.prop_of o "media")
          (Spec.attachment_id w (draws st))
          {| form := form st; draws := S (draws st) |}
      with
      | Ok (_, resolved) =>
          Ok (tt,
              {| form :=
                   form resolved ++
                   [text_part id
                      (stringified w
                         (VObj (set "media"
                                  (attach_ref
                                     (Spec.attachment_id w (draws st))) o)))];
                 draws := draws resolved |})
      | Err e => Err e
      end
    else attachFormMedia w (VObj o) id st.
Proof.
  intros Hk. unfold Spec.thumbnail_key in Hk.
  unfold attachFormValue. cbn [nullish is_scalar typeof]. rewrite Hk.
  unfold bind at 1. unfold lift at 1. rewrite media_type_test.
  destruct (Spec.describes_media o); [|reflexivity].
  unfold bind, lift, randomBytesHex, addPart, Spec.attachment_id,
    Spec.prop_of.
  cbn [get spread].
  destruct (lookup "media" o) as [m|];
    match goal with
    | |- context [attachFormMedia w ?m ?i ?s] =>
        destruct (attachFormMedia w m i s) as [[[] r]|e]; reflexivity
    end.
Qed.



(** X13.  A field, other than a thumbnail, whose value has both
    [media] and [type] present and not [undefined]: one identifier is
    drawn and [media] is resolved under it.  When that fails the call
    fails with the same error.  Otherwise the resolver has added at
    most one part, a binary one named by the identifier, and after it
    comes one textual part under the field name: the JSON text of an
    object whose [media] member is the string [attach://<id>] and
    whose other members are those of the value. *)
Theorem X13_media_description_is_rewritten
  (w : World) (id : string) (o : object) (media : value) (st : state) :
  Spec.thumbnail_key id = false ->
  Spec.describes_media o = true ->
  lookup "media" o = Some media ->
  match
    attachFormMedia w media (Spec.attachment_id w (draws st))
      {| form := form st; draws := S (draws st) |}
  with
  | Ok (_, resolved) =>
      (form resolved = form st \/
       exists p, form resolved = (form st ++ [p])%list /\
                 part_name p = Spec.attachment_id w (draws st) /\
                 is_binary p = true) /\
      exists doc,
        attachFormValue w id (VObj o) st
        = Ok (tt, {| form := form resolved ++ [text_part id (render doc)];
                     draws := S (draws st) |}) /\
        Spec.member "media" doc
        = Some (JStr ("attach://" ++ Spec.attachment_id w (draws st))) /\
        forall k v j,
          k <> "media" ->
          lookup k o = Some v ->
          SerializeJSONProperty (streamJSON w) None k v = Some j ->
          Spec.member k doc = Some j
  | Err e => attachFormValue w id (VObj o) st = Err e
  end.
Proof.
  intros Hk Hd Hm.
  rewrite (attachFormValue_object w id o st Hk), Hd.
  unfold Spec.prop_of. rewrite Hm.
  destruct (attachFormMedia w media _ _) as [[[] resolved]|e] eqn:E;
    [|reflexivity].
  apply attachFormMedia_effect in E. cbn [form draws] in E.
  destruct E as [Hdraws Hform]. split; [exact Hform|].
  eexists. split; [|split].
  - rewrite Hdraws. unfold stringified, JSON_stringify, stringify.
    rewrite document_object. reflexivity.
  - cbn [Spec.member]. eapply member_of_kept.
    + apply lookup_set_same.
    + reflexivity.
  - intros k v j Hne Hl Hj. cbn [Spec.member].
    eapply member_of_kept; [|exact Hj].
    now rewrite lookup_set_other.
Qed.

Lemma X13_witness :
  exists doc,
    attachFormValue Examples.world "media"
      (VObj Examples.media_description) start
    = Ok (tt,
          {| form :=
               [{| part_name := "id0";
                   part_filename := Some "x.jpg";
                   part_body_of := BStream (FileStream "/tmp/x.jpg") |};
                text_part "media" (render doc)];
             draws := 1 |}) /\
    Spec.member "media" doc = Some (JStr "attach://id0") /\
    forall k v j,
      k <> "media" ->
      lookup k Examples.media_description = Some v ->
      SerializeJSONProperty (streamJSON Examples.world) None k v = Some j ->
      Spec.member k doc = Some j.
Proof.
  exact (proj2 (X13_media_description_is_rewritten Examples.world "media"
                  Examples.media_description (VObj Examples.file_ref) start
                  eq_refl eq_refl eq_refl)).
Defined.

Lemma attach_item_null (w : World) (x : value) (st : state) :
  nullish x = true \/ Spec.media_of x = VNull ->
  attach_item w x st = Err JsTypeError.
Proof.
  intros [Hx|Hx].
  - destruct x; try discriminate; reflexivity.
  - destruct x; try discriminate. cbn [Spec.media_of] in Hx.
    unfold Spec.prop_of in Hx. unfold attach_item.
    unfold bind at 1. unfold lift at 1. cbn [get].
    destruct (lookup "media" props) as [m|]; [|discriminate].
    subst m. reflexivity.
Qed.

(** X14.  In an array field the callback reads [item.media] of
    every item and hands a [media] of type object to the resolver,
    [null] included: an item that is [null] or [undefined], or whose
    [media] is [null], throws a TypeError there, and the array field
    it is in makes the call fail. *)
Theorem X14_null_item_fails
  (w : World) (id : string) (items : list value) (x : value) (st : state) :
  Spec.thumbnail_key id = false ->
  In x items ->
  nullish x = true \/ Spec.media_of x = VNull ->
  attach_item w x st = Err JsTypeError /\
  exists e, attachFormValue w id (VArr items) st = Err e.
Proof.
  intros Hk Hin Hx. split; [now apply attach_item_null|].
  unfold Spec.thumbnail_key in Hk.
  unfold attachFormValue. cbn [nullish is_scalar typeof]. rewrite Hk.
  unfold bind at 1.
  destruct (mapM_fails (attach_item w) items x Hin) with (s := st)
    as [e He].
  - intros s. exists JsTypeError. now apply attach_item_null.
  - rewrite He. now exists e.
Qed.

Lemma X14_witness :
  attach_item Examples.world VNull start = Err JsTypeError /\
  exists e,
    attachFormValue Examples.world "media"
      (VArr Examples.group_with_null) start = Err e.
Proof.
  exact (X14_null_item_fails Examples.world "media"
           Examples.group_with_null VNull start
           eq_refl (or_intror (or_introl eq_refl))
           (or_introl eq_refl)).
Defined.

(** ** A mapping that needs neither the file system nor the network *)

Lemma attachFormValue_immediate
  (w : World) (k : string) (v : value) (ps : list part) (st : state) :
  Spec.thumbnail_key k = false ->
  Spec.immediate_parts (k, v) = Some ps ->
  attachFormValue w k v st
  = Ok (tt, {| form := form st ++ ps; draws := draws st |}).
Proof.
  intros Hk Hi. unfold Spec.immediate_parts in Hi.
  destruct (nullish v) eqn:En.
  - injection Hi as <-. unfold attachFormValue. rewrite En.
    rewrite app_nil_r. now destruct st.
  - destruct (is_scalar v) eqn:Es.
    + injection Hi as <-. unfold attachFormValue. now rewrite En, Es.
    + destruct v as [| | | | | |o| |]; try discriminate.
      destruct (lookup "url" o) eqn:Eu; [discriminate|].
      destruct (lookup "media" o) eqn:Em; [discriminate|].
      destruct (lookup "source" o) as [source|] eqn:Esrc; [|discriminate].
      rewrite (attachFormValue_object w k o st Hk).
      unfold Spec.describes_media. rewrite Em.
      destruct source; try discriminate; injection Hi as <-;
        eapply attachFormMedia_memory; eauto.
Qed.

Lemma mapM_immediate (w : World) (full : object) :
  forall (l : object) (parts : list part) (st : state),
    (forall k v, In (k, v) l -> lookup k full = Some v) ->
    (forall k, In k (keys l) -> Spec.thumbnail_key k = false) ->
    Spec.immediate_form l = Some parts ->
    exists units,
      mapM (fun key =>
              attachFormValue w key
                match lookup key full with
                | Some v => v
                | None => VUndefined
                end) (keys l) st
      = Ok (units, {| form := form st ++ parts; draws := draws st |}).
Proof.
  induction l as [|[k v] r IH]; intros parts st Hl Hk Hi.
  - injection Hi as <-. exists []. cbn [keys map mapM]. unfold ret.
    rewrite app_nil_r. now destruct st.
  - cbn [Spec.immediate_form] in Hi.
    destruct (Spec.immediate_parts (k, v)) as [ps|] eqn:Ep; [|discriminate].
    destruct (Spec.immediate_form r) as [qs|] eqn:Eq; [|discriminate].
    injection Hi as <-.
    cbn [keys map fst mapM]. unfold bind at 1.
    rewrite (Hl k v) by now left.
    rewrite (attachFormValue_immediate w k v ps st)
      by (try apply Hk; try exact Ep; now left).
    destruct (IH qs {| form := form st ++ ps; draws := draws st |})
      as (units & Hu).
    + intros k' v' Hin. apply Hl. now right.
    + intros k' Hin. apply Hk. now right.
    + reflexivity.
    + exists (tt :: units). unfold bind, ret. fold (keys r). rewrite Hu.
      cbn [form draws]. now rewrite app_assoc.
Qed.

Lemma lookup_absent (k : string) (o : object) :
  ~ In k (keys o) -> lookup k o = None.
Proof.
  induction o as [|[k' v] r IH]; [reflexivity|].
  cbn [keys map fst In lookup]. intros H.
  destruct (String.eqb_spec k' k) as [->|_].
  - exfalso. apply H. now left.
  - apply IH. intros Hin. apply H. now right.
Qed.

Lemma lookup_NoDup (o : object) :
  NoDup (keys o) -> forall k v, In (k, v) o -> lookup k o = Some v.
Proof.
  induction o as [|[k' x] r IH]; intros Hd k v Hin; [destruct Hin|].
  cbn [keys map fst] in Hd. inversion Hd as [|? ? Hnotin Hd']; subst.
  cbn [lookup]. destruct Hin as [[= -> ->]|Hin].
  - now rewrite String.eqb_refl.
  - destruct (String.eqb_spec k' k) as [->|_]; [|now apply IH].
    exfalso. apply Hnotin. change k with (fst (k, v)). now apply in_map.
Qed.

(** X15.  A mapping whose keys are neither thumbnail fields nor JSON
    fields and whose values are nullish, scalars, or references with
    a buffer or a stream as [source] (and neither [url] nor [media]):
    the multipart builder cannot fail on it, draws nothing but the
    boundary, and its body holds, in key order, no part for a nullish
    value, one textual part for a scalar and one binary part for a
    reference; the [content-type] header names the boundary of the
    body. *)
Theorem X15_immediate_mapping_in_key_order
  (w : World) (payload : object) (parts : list part) (st : state) :
  NoDup (keys payload) ->
  (forall k, In k (keys payload) -> Spec.plain_key k = true) ->
  Spec.immediate_form payload = Some parts ->
  buildFormDataConfig w payload st
  = Ok ({| method := "POST";
           compress := true;
           headers :=
             [("content-type",
               "multipart/form-data; boundary="
               ++ randomHex w 32 (draws st));
              ("connection", "keep-alive")];
           body := FormBody (randomHex w 32 (draws st)) parts |},
        {| form := parts; draws := S (draws st) |}).
Proof.
  intros Hd Hk Hi.
  assert (Hsame : stringify_json_fields w payload = payload).
  { apply fold_settled. intros f Hf. unfold Spec.settled.
    rewrite lookup_absent; [exact I|].
    intros Hin. specialize (Hk f Hin). unfold Spec.plain_key in Hk.
    apply andb_prop in Hk as [_ Hk]. apply negb_true_iff in Hk.
    assert (Ht : existsb (String.eqb f) FORM_DATA_JSON_FIELDS = true).
    { apply existsb_exists. exists f. split; [exact Hf|].
      apply String.eqb_refl. }
    congruence. }
  unfold buildFormDataConfig. rewrite Hsame.
  unfold bind at 1. unfold randomBytesHex at 1.
  unfold bind at 1. unfold newForm at 1.
  unfold bind at 1.
  destruct (mapM_immediate w payload payload parts
              {| form := []; draws := S (draws st) |}) as (units & Hu).
  - now apply lookup_NoDup.
  - intros k Hin. specialize (Hk k Hin). unfold Spec.plain_key in Hk.
    apply andb_prop in Hk as [Hk _]. now apply negb_true_iff in Hk.
  - exact Hi.
  - cbn [form draws] in Hu |- *. rewrite Hu. reflexivity.
Qed.

Lemma X15_witness :
  buildFormDataConfig Examples.world Examples.payload_immediate start
  = Ok ({| method := "POST";
           compress := true;
           headers :=
             [("content-type", "multipart/form-data; boundary=id0");
              ("connection", "keep-alive")];
           body :=
             FormBody "id0"
               [text_part "chat_id" "7";
                {| part_name := "photo";
                   part_filename := Some "photo.jpg";
                   part_body_of := BBuffer [Byte.x89; Byte.x50] |};
                text_part "caption" "hi"] |},
        {| form :=
             [text_part "chat_id" "7";
              {| part_name := "photo";
                 part_filename := Some "photo.jpg";
                 part_body_of := BBuffer [Byte.x89; Byte.x50] |};
              text_part "caption" "hi"];
           draws := 1 |}).
Proof.
  assert (Hd : NoDup (keys Examples.payload_immediate)).
  { repeat constructor; cbn; intuition discriminate. }
  assert (Hk : forall k, In k (keys Examples.payload_immediate) ->
                         Spec.plain_key k = true).
  { intros k Hin. cbn in Hin.
    repeat (destruct Hin as [<-|Hin]; [reflexivity|]). destruct Hin. }
  exact (X15_immediate_mapping_in_key_order Examples.world
           Examples.payload_immediate _ start Hd Hk eq_refl).
Defined.

(** ** The JSON body as a text *)

(** X16.  The body [buildJSONConfig] gives for a mapping is always a
    string, and the string is the text of one JSON document: read
    back it gives that document.  For a mapping made of plain data the
    value read back is the mapping without its nullish-valued keys, at
    any depth, and with [null] for every nullish array element. *)
Theorem X16_json_body_parses_back (w : World) (payload : object) :
  exists text doc,
    body (buildJSONConfig w (VObj payload)) = JsonBody (Some text) /\
    parse text = Some doc /\
    (Spec.plain_data (VObj payload) = true ->
     value_of_json doc = Spec.json_view (VObj payload)).
Proof.
  exists (render (JObj (serialize_object
                          (SerializeJSONProperty (streamJSON w)
                             (Some replacer)) payload))).
  eexists. split; [reflexivity|]. split; [apply parse_render|].
  intros Hp.
  destruct (serialize_view (streamJSON w) (VObj payload) Hp eq_refl)
    as (doc & Hdoc & Hview).
  specialize (Hdoc ""). cbn in Hdoc. injection Hdoc as <-. exact Hview.
Qed.

(** ** Arrays without media *)

Lemma attach_item_kept (w : World) (x : value) (st : state) :
  nullish x = false ->
  Spec.is_object (Spec.media_of x) = false ->
  attach_item w x st = Ok (x, st).
Proof.
  intros Hn Hm. unfold attach_item, bind, lift.
  destruct x; try discriminate; try reflexivity.
  cbn [Spec.media_of] in Hm. unfold Spec.prop_of, Spec.is_object in Hm.
  cbn [get]. destruct (lookup "media" props) as [m|];
    cbn [rbind]; now rewrite Hm.
Qed.

Lemma mapM_attach_item_kept (w : World) (items : list value) (st : state) :
  Forall (fun x => nullish x = false /\
                   Spec.is_object (Spec.media_of x) = false) items ->
  mapM (attach_item w) items st = Ok (items, st).
Proof.
  induction 1 as [|x r [Hn Hm] _ IH]; [reflexivity|].
  cbn [mapM]. unfold bind at 1. rewrite attach_item_kept by assumption.
  unfold bind at 1. now rewrite IH.
Qed.

(** X17.  An array field none of whose items is nullish or has a
    [media] of type object (the entities of a caption, say) draws no
    identifier and resolves nothing: the call succeeds and adds one
    textual part under the field name, the JSON text of the array as
    it was given. *)
Theorem X17_array_without_media_is_stringified
  (w : World) (id : string) (items : list value) (st : state) :
  Spec.thumbnail_key id = false ->
  Forall (fun x => nullish x = false /\
                   Spec.is_object (Spec.media_of x) = false) items ->
  attachFormValue w id (VArr items) st
  = Ok (tt,
        {| form := form st ++ [text_part id (stringified w (VArr items))];
           draws := draws st |}).
Proof.
  intros Hk Hitems. unfold Spec.thumbnail_key in Hk.
  unfold attachFormValue. cbn [nullish is_scalar typeof]. rewrite Hk.
  unfold bind. now rewrite mapM_attach_item_kept.
Qed.

Lemma X17_witness :
  attachFormValue Examples.world "caption_entities"
    (VArr Examples.plain_items) start
  = Ok (tt,
        {| form :=
             [text_part "caption_entities"
                (stringified Examples.world (VArr Examples.plain_items))];
           draws := 0 |}).
Proof.
  assert (H : Forall (fun x => nullish x = false /\
                               Spec.is_object (Spec.media_of x) = false)
                Examples.plain_items).
  { repeat constructor. }
  exact (X17_array_without_media_is_stringified Examples.world
           "caption_entities" Examples.plain_items start eq_refl H).
Defined.

(** ** C2: every reference the builder writes *)

Section References.
Variable w : World.
(** The draws of the call, *)
Variables lo hi : nat.
Hypothesis Hdistinct : Spec.distinct_ids w lo hi.
(** and the names of the fields: none of them is an identifier of the
    call. *)
Variable K : string -> Prop.
Hypothesis HK : forall i, lo <= i < hi -> ~ K (Spec.attachment_id w i).

Lemma summary_new (s s' : state) (new : list part) :
  Spec.summary w K s s' ->
  form s' = (form s ++ new)%list ->
  draws s <= draws s' /\
  forall p, In p new ->
    K (part_name p) \/
    exists i, draws s <= i < draws s' /\
              part_name p = Spec.attachment_id w i /\ is_binary p = true.
Proof.
  intros (n0 & Hf & Hd & Hn & _) E. rewrite Hf in E.
  apply app_inv_head in E. subst n0. auto.
Qed.

(** What a run adds bears no identifier drawn outside the run. *)
Lemma summary_foreign (s s' : state) (new : list part) (a b : nat) :
  Spec.summary w K s s' ->
  form s' = (form s ++ new)%list ->
  lo <= draws s -> draws s' <= hi ->
  lo <= a -> b <= hi ->
  b <= draws s \/ draws s' <= a ->
  Spec.foreign w a b new.
Proof.
  intros Hs E Hlo Hhi Ha Hb Hr i Hi.
  destruct (summary_new s s' new Hs E) as [_ Hn].
  apply (summary_outside w lo hi Hdistinct K HK s s' new i); auto; lia.
Qed.

Lemma summary_binary (s s' : state) (new : list part) :
  Spec.summary w K s s' ->
  form s' = (form s ++ new)%list ->
  Spec.binary_ids w lo hi new.
Proof.
  intros Hs E p i Hi Hin Hp.
  destruct (summary_new s s' new Hs E) as [_ Hn].
  destruct (Hn p Hin) as [Hk|(j & _ & _ & Hb)]; [|exact Hb].
  rewrite Hp in Hk. destruct (HK i Hi Hk).
Qed.

Lemma foreign_app (a b : nat) (l r : list part) :
  Spec.foreign w a b l -> Spec.foreign w a b r ->
  Spec.foreign w a b (l ++ r).
Proof.
  intros Hl Hr i Hi. rewrite count_name_app, (Hl i Hi), (Hr i Hi).
  reflexivity.
Qed.

Lemma foreign_narrow (a b a' b' : nat) (l : list part) :
  a <= a' -> b' <= b ->
  Spec.foreign w a b l -> Spec.foreign w a' b' l.
Proof. intros Ha Hb H i Hi. apply H. lia. Qed.

(** Parts that bear identifiers drawn from [lo] up to [hi] bear none
    drawn elsewhere. *)
Lemma named_foreign (a b a' b' : nat) (l : list part) :
  (forall p, In p l ->
     exists i, a <= i < b /\ part_name p = Spec.attachment_id w i) ->
  lo <= a -> b <= hi -> lo <= a' -> b' <= hi ->
  b <= a' \/ b' <= a ->
  Spec.foreign w a' b' l.
Proof.
  intros Hn Ha Hb Ha' Hb' Hr i Hi. apply count_name_zero. intros p Hin Hp.
  destruct (Hn p Hin) as (j & Hj & Hpj).
  rewrite Hp in Hpj. apply Hdistinct in Hpj; lia.
Qed.

(** A successful resolution, by what it adds. *)
Lemma attachFormMedia_count
  (media : value) (id : string) (s s' : state) :
  attachFormMedia w media id s = Ok (tt, s') ->
  exists new,
    s' = {| form := form s ++ new; draws := draws s |} /\
    Spec.count_name id new = (if Spec.yields_body media then 1 else 0) /\
    forall p, In p new -> part_name p = id.
Proof.
  intros H. apply attachFormMedia_yields in H.
  destruct (Spec.yields_body media).
  - destruct H as (p & -> & Hp & _). exists [p].
    split; [reflexivity|]. split.
    + unfold Spec.count_name. cbn [filter]. rewrite Hp.
      now rewrite String.eqb_refl.
    + now intros q [<-|[]].
  - subst s'. exists []. rewrite app_nil_r. split; [now destruct s|].
    split; [reflexivity|]. intros p [].
Qed.

(** A resolution under the identifier of draw [i], seen from a body
    in which nothing else bears that identifier. *)
Lemma resolved_in_context
  (media : value) (i : nat) (new pre post : list part) :
  lo <= i < hi ->
  Spec.count_name (Spec.attachment_id w i) new
  = (if Spec.yields_body media then 1 else 0) ->
  Spec.count_name (Spec.attachment_id w i) pre = 0 ->
  Spec.count_name (Spec.attachment_id w i) post = 0 ->
  Spec.binary_ids w lo hi (pre ++ new ++ post) ->
  Spec.resolved_as (pre ++ new ++ post) media (Spec.attachment_id w i).
Proof.
  intros Hi Hc Hpre Hpost Hb. split.
  - rewrite !count_name_app, Hpre, Hpost, Hc. lia.
  - intros p Hin Hp. exact (Hb p i Hi Hin Hp).
Qed.

(** The array callback: what it adds, and what it writes. *)
Lemma attach_item_resolved (item item' : value) (s s' : state) :
  attach_item w item s = Ok (item', s') ->
  exists new,
    form s' = (form s ++ new)%list /\
    draws s <= draws s' /\
    (forall p, In p new ->
       exists i, draws s <= i < draws s' /\
                 part_name p = Spec.attachment_id w i) /\
    forall pre post,
      lo <= draws s -> draws s' <= hi ->
      Spec.foreign w (draws s) (draws s') pre ->
      Spec.foreign w (draws s) (draws s') post ->
      Spec.binary_ids w lo hi (pre ++ new ++ post) ->
      Spec.item_resolved (pre ++ new ++ post) item item'.
Proof.
  intros H.
  destruct (Spec.is_object (Spec.media_of item)) eqn:Eobj.
  - destruct (media_of_object item Eobj) as [o ->].
    cbn [Spec.media_of] in Eobj.
    rewrite (attach_item_object w o s Eobj) in H.
    destruct (attachFormMedia w (Spec.prop_of o "media") _ _)
      as [[[] s1]|e] eqn:E1; [|discriminate].
    apply attachFormMedia_count in E1.
    destruct E1 as (n1 & -> & Hc1 & Hn1). cbn [form draws] in *.
    destruct (Spec.is_object (Spec.thumb_of o)) eqn:Ethumb.
    + destruct (attachFormMedia w (Spec.thumb_of o) _ _)
        as [[[] s2]|e] eqn:E2; [|discriminate].
      apply attachFormMedia_count in E2.
      destruct E2 as (n2 & -> & Hc2 & Hn2). cbn [form draws] in *.
      injection H as <- <-. cbn [form draws].
      exists (n1 ++ n2)%list.
      split; [now rewrite app_assoc|]. split; [lia|]. split.
      * intros p Hin. apply in_app_or in Hin. destruct Hin as [Hin|Hin].
        -- exists (draws s). split; [lia|]. now apply Hn1.
        -- exists (S (draws s)). split; [lia|]. now apply Hn2.
      * intros pre post Hlo Hhi Hpre Hpost Hb.
        assert (Hne : Spec.attachment_id w (S (draws s))
                      <> Spec.attachment_id w (draws s)).
        { intros E. apply Hdistinct in E; lia. }
        unfold Spec.item_resolved. cbn [Spec.media_of]. rewrite Eobj.
        exists o, (Spec.attachment_id w (draws s)).
        split; [reflexivity|]. split.
        -- apply resolved_in_context;
             [lia| |apply Hpre; lia|apply Hpost; lia|exact Hb].
           rewrite count_name_app, Hc1.
           rewrite (count_name_zero _ n2); [lia|].
           intros p Hin Hp. apply Hn2 in Hin. congruence.
        -- rewrite Ethumb. exists (Spec.attachment_id w (S (draws s))).
           split; [exact Hne|]. split; [|reflexivity].
           apply resolved_in_context;
             [lia| |apply Hpre; lia|apply Hpost; lia|exact Hb].
           rewrite count_name_app, Hc2.
           rewrite (count_name_zero _ n1); [lia|].
           intros p Hin Hp. apply Hn1 in Hin. congruence.
    + injection H as <- <-. cbn [form draws].
      exists n1. split; [reflexivity|]. split; [lia|]. split.
      * intros p Hin. exists (draws s). split; [lia|]. now apply Hn1.
      * intros pre post Hlo Hhi Hpre Hpost Hb.
        unfold Spec.item_resolved. cbn [Spec.media_of]. rewrite Eobj.
        exists o, (Spec.attachment_id w (draws s)).
        split; [reflexivity|]. split.
        -- apply resolved_in_context;
             [lia|exact Hc1|apply Hpre; lia|apply Hpost; lia|exact Hb].
        -- now rewrite Ethumb.
  - unfold attach_item in H. unfold_monad.
    destruct (get item "media") as [m|] eqn:Em; [|discriminate].
    apply get_media_of in Em. subst m.
    unfold Spec.is_object in Eobj. rewrite Eobj in H. cbn [negb] in H.
    injection H as <- <-.
    exists []. rewrite app_nil_r. split; [reflexivity|].
    split; [lia|]. split; [intros p []|].
    intros pre post _ _ _ _ _. unfold Spec.item_resolved.
    unfold Spec.is_object. now rewrite Eobj.
Qed.

Lemma mapM_attach_item_resolved (items : list value) :
  forall (items' : list value) (s s' : state),
    mapM (attach_item w) items s = Ok (items', s') ->
    exists new,
      form s' = (form s ++ new)%list /\
      draws s <= draws s' /\
      (forall p, In p new ->
         exists i, draws s <= i < draws s' /\
                   part_name p = Spec.attachment_id w i) /\
      forall pre post,
        lo <= draws s -> draws s' <= hi ->
        Spec.foreign w (draws s) (draws s') pre ->
        Spec.foreign w (draws s) (draws s') post ->
        Spec.binary_ids w lo hi (pre ++ new ++ post) ->
        Forall2 (Spec.item_resolved (pre ++ new ++ post)) items items'.
Proof.
  induction items as [|item r IH]; intros items' s s' H.
  - cbn [mapM] in H. unfold ret in H. injection H as <- <-.
    exists []. rewrite app_nil_r. split; [reflexivity|].
    split; [lia|]. split; [intros p []|]. constructor.
  - cbn [mapM] in H. unfold bind at 1 in H.
    destruct (attach_item w item s) as [[item' s1]|e] eqn:E1;
      [|discriminate].
    unfold bind at 1 in H.
    destruct (mapM (attach_item w) r s1) as [[r' s2]|e] eqn:E2;
      [|discriminate].
    unfold ret in H. injection H as <- <-.
    destruct (attach_item_resolved _ _ _ _ E1)
      as (nx & Hfx & Hdx & Hnx & Hx).
    destruct (IH _ _ _ E2) as (nr & Hfr & Hdr & Hnr & Hr).
    exists (nx ++ nr)%list.
    split; [now rewrite Hfr, Hfx, app_assoc|]. split; [lia|]. split.
    + intros p Hin. apply in_app_or in Hin. destruct Hin as [Hin|Hin].
      * destruct (Hnx p Hin) as (i & Hi & Hp). exists i. split; [lia|auto].
      * destruct (Hnr p Hin) as (i & Hi & Hp). exists i. split; [lia|auto].
    + intros pre post Hlo Hhi Hpre Hpost Hb. constructor.
      * replace (pre ++ (nx ++ nr) ++ post)%list
          with (pre ++ nx ++ (nr ++ post))%list
          by now rewrite !app_assoc.
        apply Hx; [lia|lia| | |].
        -- eapply foreign_narrow; [| |exact Hpre]; lia.
        -- apply foreign_app.
           ++ eapply named_foreign; [exact Hnr|lia|lia|lia|lia|]. right. lia.
           ++ eapply foreign_narrow; [| |exact Hpost]; lia.
        -- now rewrite !app_assoc in *.
      * replace (pre ++ (nx ++ nr) ++ post)%list
          with ((pre ++ nx) ++ nr ++ post)%list
          by now rewrite !app_assoc.
        apply Hr; [lia|lia| | |].
        -- apply foreign_app.
           ++ eapply foreign_narrow; [| |exact Hpre]; lia.
           ++ eapply named_foreign; [exact Hnx|lia|lia|lia|lia|]. left. lia.
        -- eapply foreign_narrow; [| |exact Hpost]; lia.
        -- now rewrite !app_assoc in *.
Qed.

(** One field, and all the fields, of a mapping. *)
Lemma field_summary (id : string) (v : value) (s s' : state) :
  K id -> attachFormValue w id v s = Ok (tt, s') ->
  Spec.summary_in w K lo hi s s'.
Proof.
  apply (attachFormValue_closed w K (Spec.summary_in w K lo hi)).
  - apply summary_in_refl.
  - now apply summary_in_trans.
  - now apply summary_in_field_part.
  - now apply summary_in_field_media.
  - now apply summary_in_fresh_media.
Qed.

Lemma fields_summary (payload : object) (ks : list string) :
  (forall k, In k ks -> K k) ->
  forall (r : list unit) (s s' : state),
    mapM (fun key =>
            attachFormValue w key
              match lookup key payload with
              | Some v => v
              | None => VUndefined
              end) ks s = Ok (r, s') ->
    Spec.summary_in w K lo hi s s'.
Proof.
  apply (mapM_fields_closed w K (Spec.summary_in w K lo hi)).
  - apply summary_in_refl.
  - now apply summary_in_trans.
  - now apply summary_in_field_part.
  - now apply summary_in_field_media.
  - now apply summary_in_fresh_media.
Qed.

(** The run of one field among the others. *)
Lemma fields_split (payload : object) (ks : list string) (k : string) :
  (forall k', In k' ks -> K k') ->
  In k ks ->
  forall (r : list unit) (s s' : state),
    mapM (fun key =>
            attachFormValue w key
              match lookup key payload with
              | Some v => v
              | None => VUndefined
              end) ks s = Ok (r, s') ->
    exists s1 s2,
      Spec.summary_in w K lo hi s s1 /\
      attachFormValue w k
        match lookup k payload with
        | Some v => v
        | None => VUndefined
        end s1 = Ok (tt, s2) /\
      Spec.summary_in w K lo hi s2 s'.
Proof.
  induction ks as [|k0 ks IH]; intros Hks Hin r s s' H; [destruct Hin|].
  cbn [mapM] in H. unfold bind at 1 in H.
  match type of H with
  | context [attachFormValue w k0 ?v s] =>
      destruct (attachFormValue w k0 v s) as [[[] s0]|e] eqn:E1;
        [|discriminate]
  end.
  unfold bind at 1 in H.
  match type of H with
  | context [mapM ?f ks s0] =>
      destruct (mapM f ks s0) as [[r' s3]|e] eqn:E2; [|discriminate]
  end.
  unfold ret in H. injection H as <- <-.
  destruct (String.string_dec k0 k) as [->|Hne].
  - exists s, s0. split; [apply summary_in_refl|]. split; [exact E1|].
    eapply fields_summary; [|exact E2].
    intros k' Hk'. apply Hks. now right.
  - destruct Hin as [Heq|Hin]; [congruence|].
    destruct (IH (fun k' Hk' => Hks k' (or_intror Hk')) Hin _ _ _ E2)
      as (s1 & s2 & Hs1 & Hrun & Hs2).
    exists s1, s2. split; [|split; [exact Hrun|exact Hs2]].
    eapply summary_in_trans; [exact Hdistinct|exact HK| |exact Hs1].
    eapply field_summary; [|exact E1]. apply Hks. now left.
Qed.

Lemma summary_grows (s s' : state) :
  Spec.summary w K s s' ->
  exists new, form s' = (form s ++ new)%list.
Proof. intros (new & Hf & _). eauto. Qed.

(** What one field adds, seen in the whole body: if, in a body cut
    in three, the middle is what the field added between two draws,
    nothing around it bears an identifier drawn in between. *)
Lemma field_in_body (s s1 s2 s' : state) :
  Spec.summary_in w K lo hi s s1 ->
  Spec.summary_in w K lo hi s1 s2 ->
  Spec.summary_in w K lo hi s2 s' ->
  lo <= draws s -> draws s' <= hi ->
  (lo <= draws s1 /\ draws s1 <= draws s2 /\ draws s2 <= hi) /\
  exists before mine after,
    form s1 = (form s ++ before)%list /\
    form s2 = (form s1 ++ mine)%list /\
    form s' = (form s ++ before ++ mine ++ after)%list /\
    Spec.foreign w (draws s1) (draws s2) before /\
    Spec.foreign w (draws s1) (draws s2) after /\
    Spec.binary_ids w lo hi (before ++ mine ++ after).
Proof.
  intros [Hd1 H1] [Hd2 H2] [Hd3 H3] Hlo Hhi.
  split; [lia|].
  assert (S1 : Spec.summary w K s s1) by (apply H1; lia).
  assert (S2 : Spec.summary w K s1 s2) by (apply H2; lia).
  assert (S3 : Spec.summary w K s2 s') by (apply H3; lia).
  destruct (summary_grows _ _ S1) as (before & Hb).
  destruct (summary_grows _ _ S2) as (mine & Hm).
  destruct (summary_grows _ _ S3) as (after & Ha).
  exists before, mine, after.
  split; [exact Hb|]. split; [exact Hm|]. split.
  { rewrite Ha, Hm, Hb. now rewrite !app_assoc. }
  split; [apply (summary_foreign s s1 before _ _ S1 Hb); lia|].
  split; [apply (summary_foreign s2 s' after _ _ S3 Ha); lia|].
  intros p i Hi Hin. apply in_app_or in Hin.
  destruct Hin as [Hin|Hin];
    [exact (summary_binary _ _ _ S1 Hb p i Hi Hin)|].
  apply in_app_or in Hin.
  destruct Hin as [Hin|Hin];
    [exact (summary_binary _ _ _ S2 Hm p i Hi Hin)
    |exact (summary_binary _ _ _ S3 Ha p i Hi Hin)].
Qed.

(** A thumbnail field. *)
Lemma thumbnail_run (k : string) (v : value) (s s' : state) :
  Spec.thumbnail_key k = true ->
  nullish v = false -> is_scalar v = false ->
  attachFormValue w k v s = Ok (tt, s') ->
  exists new,
    form s' = (form s ++ new
               ++ [text_part k
                     ("attach://" ++ Spec.attachment_id w (draws s))])%list /\
    draws s' = S (draws s) /\
    Spec.count_name (Spec.attachment_id w (draws s)) new
    = (if Spec.yields_body v then 1 else 0).
Proof.
  intros Hk Hn Hs H. unfold Spec.thumbnail_key in Hk.
  unfold attachFormValue in H. rewrite Hn, Hs, Hk in H.
  unfold bind at 1, randomBytesHex at 1 in H. unfold bind at 1 in H.
  change (randomHex w 16 (draws s))
    with (Spec.attachment_id w (draws s)) in H.
  destruct (attachFormMedia w v _ _) as [[[] r]|e] eqn:E; [|discriminate].
  apply attachFormMedia_count in E. destruct E as (new & -> & Hc & _).
  unfold addPart in H. injection H as <-. cbn [form draws].
  exists new. split; [now rewrite app_assoc|]. split; [reflexivity|exact Hc].
Qed.

(** A media description. *)
Lemma description_run (k : string) (o : object) (s s' : state) :
  Spec.thumbnail_key k = false ->
  Spec.describes_media o = true ->
  attachFormValue w k (VObj o) s = Ok (tt, s') ->
  exists new,
    form s' = (form s ++ new
               ++ [text_part k
                     (stringified w
                        (VObj (set "media"
                                 (attach_ref
                                    (Spec.attachment_id w (draws s))) o)))])%list /\
    draws s' = S (draws s) /\
    Spec.count_name (Spec.attachment_id w (draws s)) new
    = (if Spec.yields_body (Spec.prop_of o "media") then 1 else 0).
Proof.
  intros Hk Hd H. rewrite (attachFormValue_object w k o s Hk), Hd in H.
  destruct (attachFormMedia w (Spec.prop_of o "media") _ _)
    as [[[] r]|e] eqn:E; [|discriminate].
  apply attachFormMedia_count in E. destruct E as (new & -> & Hc & _).
  injection H as <-. cbn [form draws].
  exists new. split; [now rewrite app_assoc|]. split; [reflexivity|exact Hc].
Qed.

(** A part under a field name bears no identifier of the call. *)
Lemma field_part_foreign (k body : string) (i : nat) :
  lo <= i < hi ->
  K k -> Spec.count_name (Spec.attachment_id w i) [text_part k body] = 0.
Proof.
  intros Hi Hk. apply count_name_zero. intros p [<-|[]] Hp.
  cbn [part_name text_part] in Hp. rewrite Hp in Hk. exact (HK i Hi Hk).
Qed.
End References.

(** The run of one field within a whole call. *)
Lemma field_of_call
  (w : World) (payload : object) (cfg : RequestInit) (st st' : state)
  (k : string) :
  buildFormDataConfig w payload st = Ok (cfg, st') ->
  Spec.distinct_ids w (S (draws st)) (draws st') ->
  (forall i, S (draws st) <= i < draws st' ->
     ~ In (Spec.attachment_id w i) (keys payload)) ->
  In k (keys payload) ->
  exists s1 s2 before mine after,
    attachFormValue w k
      match lookup k (stringify_json_fields w payload) with
      | Some v => v
      | None => VUndefined
      end s1 = Ok (tt, s2) /\
    (S (draws st) <= draws s1 /\ draws s1 <= draws s2 /\
     draws s2 <= draws st') /\
    form s2 = (form s1 ++ mine)%list /\
    form st' = (before ++ mine ++ after)%list /\
    Spec.foreign w (draws s1) (draws s2) before /\
    Spec.foreign w (draws s1) (draws s2) after /\
    Spec.binary_ids w (S (draws st)) (draws st') (before ++ mine ++ after).
Proof.
  intros H Hdistinct Hkeys Hin.
  unfold buildFormDataConfig in H.
  unfold bind at 1, randomBytesHex at 1 in H.
  unfold bind at 1, newForm at 1 in H.
  unfold bind at 1 in H.
  match type of H with
  | context [mapM ?f ?l ?s0] =>
      destruct (mapM f l s0) as [[r sf]|e] eqn:E; [|discriminate]
  end.
  injection H as _ <-.
  destruct (fields_split w (S (draws st)) (draws sf) Hdistinct
              (fun n => In n (keys payload)) Hkeys
              (stringify_json_fields w payload)
              (keys (stringify_json_fields w payload)) k)
    with (r := r) (s := {| form := []; draws := S (draws st) |}) (s' := sf)
    as (s1 & s2 & Hs1 & Hrun & Hs2).
  - intros k' Hk'. now rewrite keys_stringify_json_fields in Hk'.
  - now rewrite keys_stringify_json_fields.
  - exact E.
  - assert (Hmid : Spec.summary_in w (fun n => In n (keys payload))
                     (S (draws st)) (draws sf) s1 s2).
    { eapply field_summary; [exact Hdistinct|exact Hkeys| |exact Hrun].
      exact Hin. }
    destruct (field_in_body w (S (draws st)) (draws sf) Hdistinct
                (fun n => In n (keys payload))
                Hkeys _ _ _ _ Hs1 Hmid Hs2)
      as (Hd & before & mine & after & _ & Hm & Hf & Hb & Ha & Hbin);
      [cbn [draws]; lia|lia|].
    exists s1, s2, before, mine, after.
    split; [exact Hrun|]. split; [exact Hd|]. split; [exact Hm|]. auto.
Qed.

Lemma thumbnail_not_json (k : string) :
  Spec.thumbnail_key k = true -> ~ In k FORM_DATA_JSON_FIELDS.
Proof.
  unfold Spec.thumbnail_key. intros H Hin.
  apply orb_true_iff in H.
  destruct H as [H|H]; apply String.eqb_eq in H; subst k;
    cbn in Hin; intuition discriminate.
Qed.

Lemma lookup_keys (k : string) (v : value) (o : object) :
  lookup k o = Some v -> In k (keys o).
Proof.
  intros H. apply lookup_In in H. unfold keys.
  change k with (fst (k, v)). now apply in_map.
Qed.

(** C2, amended.  Take a call of [buildFormDataConfig] that returns,
    in which the identifiers drawn (the draws after that of the
    boundary, up to the last of the call) are pairwise distinct and
    none of them is a field name of the mapping.  The body it builds
    answers every reference the builder writes:
    - for a thumbnail field (a value other than a scalar) the body
      holds the textual part [attach://<id>] under the field name;
    - for a media description it holds, under the field name, the JSON
      text of the description with [attach://<id>] as its [media];
    - for an array it holds, under the field name, the JSON text of
      the array in which every item with a [media] of type object
      carries [attach://<id>] under [media] and, for a thumbnail of
      type object, [attach://<id'>] with another identifier under
      [thumbnail];
    and in each case the parts named [<id>] are binary ones, exactly
    one of them when the value referred to yields a body (a [url], or
    a truthy [source] that is a path, a stream or a buffer) and none
    when it does not.  No identifier of the call names two parts. *)
Theorem C2_references_and_parts
  (w : World) (payload : object) (cfg : RequestInit) (st st' : state) :
  buildFormDataConfig w payload st = Ok (cfg, st') ->
  Spec.distinct_ids w (S (draws st)) (draws st') ->
  (forall i, S (draws st) <= i < draws st' ->
     ~ In (Spec.attachment_id w i) (keys payload)) ->
  exists parts,
    body cfg = FormBody (randomHex w 32 (draws st)) parts /\
    (forall k v,
        lookup k payload = Some v ->
        Spec.thumbnail_key k = true ->
        nullish v = false -> is_scalar v = false ->
        exists id,
          In (text_part k ("attach://" ++ id)) parts /\
          Spec.resolved_as parts v id) /\
    (forall k o,
        lookup k payload = Some (VObj o) ->
        Spec.thumbnail_key k = false ->
        ~ In k FORM_DATA_JSON_FIELDS ->
        Spec.describes_media o = true ->
        exists id,
          In (text_part k
                (stringified w (VObj (set "media" (attach_ref id) o))))
             parts /\
          Spec.resolved_as parts (Spec.prop_of o "media") id) /\
    (forall k items,
        lookup k payload = Some (VArr items) ->
        Spec.thumbnail_key k = false ->
        ~ In k FORM_DATA_JSON_FIELDS ->
        exists items',
          In (text_part k (stringified w (VArr items'))) parts /\
          Forall2 (Spec.item_resolved parts) items items') /\
    (forall i, S (draws st) <= i < draws st' ->
       Spec.count_name (Spec.attachment_id w i) parts <= 1).
Proof.
  intros Hrun Hdistinct Hkeys.
  destruct (buildFormDataConfig_summary w (S (draws st)) (draws st')
              Hdistinct (fun n => In n (keys payload)) Hkeys
              payload st st' cfg (fun k H => H) Hrun)
    as (Hbody & Hmono & Hsum).
  cbn [draws] in Hmono, Hsum.
  destruct (Hsum (le_n _) (le_n _)) as (new & Hform & _ & _ & Hcount).
  cbn [form app draws] in Hform, Hcount.
  exists (form st'). split; [exact Hbody|].
  split; [|split; [|split]].
  - intros k v Hl Hk Hn Hs.
    pose proof (lookup_keys _ _ _ Hl) as Hin.
    destruct (field_of_call w payload cfg st st' k Hrun Hdistinct Hkeys Hin)
      as (s1 & s2 & before & mine & after
          & Hfield & Hd12 & Hm & Hf & Hb & Ha & Hbin).
    rewrite lookup_stringify_json_fields_other, Hl in Hfield
      by now apply thumbnail_not_json.
    destruct (thumbnail_run w k v s1 s2 Hk Hn Hs Hfield)
      as (att & Hf2 & Hd & Hc).
    rewrite Hm in Hf2. apply app_inv_head in Hf2. subst mine.
    assert (Hi : S (draws st) <= draws s1 < draws st') by lia.
    exists (Spec.attachment_id w (draws s1)). split.
    + rewrite Hf. apply in_or_app. right. apply in_or_app. left.
      apply in_or_app. right. now left.
    + rewrite Hf.
      apply (resolved_in_context w (S (draws st)) (draws st'));
        [exact Hi| |apply Hb; lia|apply Ha; lia|exact Hbin].
      rewrite count_name_app, Hc.
      rewrite (field_part_foreign w (S (draws st)) (draws st')
                 (fun n => In n (keys payload)) Hkeys)
        by (exact Hi || exact Hin).
      lia.
  - intros k o Hl Hk Hj Hd.
    pose proof (lookup_keys _ _ _ Hl) as Hin.
    destruct (field_of_call w payload cfg st st' k Hrun Hdistinct Hkeys Hin)
      as (s1 & s2 & before & mine & after
          & Hfield & Hd12 & Hm & Hf & Hb & Ha & Hbin).
    rewrite lookup_stringify_json_fields_other, Hl in Hfield by exact Hj.
    destruct (description_run w k o s1 s2 Hk Hd Hfield)
      as (att & Hf2 & Hdr & Hc).
    rewrite Hm in Hf2. apply app_inv_head in Hf2. subst mine.
    assert (Hi : S (draws st) <= draws s1 < draws st') by lia.
    exists (Spec.attachment_id w (draws s1)). split.
    + rewrite Hf. apply in_or_app. right. apply in_or_app. left.
      apply in_or_app. right. now left.
    + rewrite Hf.
      apply (resolved_in_context w (S (draws st)) (draws st'));
        [exact Hi| |apply Hb; lia|apply Ha; lia|exact Hbin].
      rewrite count_name_app, Hc.
      rewrite (field_part_foreign w (S (draws st)) (draws st')
                 (fun n => In n (keys payload)) Hkeys)
        by (exact Hi || exact Hin).
      lia.
  - intros k items Hl Hk Hj.
    pose proof (lookup_keys _ _ _ Hl) as Hin.
    destruct (field_of_call w payload cfg st st' k Hrun Hdistinct Hkeys Hin)
      as (s1 & s2 & before & mine & after
          & Hfield & Hd12 & Hm & Hf & Hb & Ha & Hbin).
    rewrite lookup_stringify_json_fields_other, Hl in Hfield by exact Hj.
    unfold Spec.thumbnail_key in Hk.
    destruct (attachFormValue_array_run w k items s1 s2 Hk Hfield)
      as (items' & sa & Hmap & ->).
    cbn [form draws] in *.
    destruct (mapM_attach_item_resolved w (S (draws st)) (draws st')
                Hdistinct items items' s1 sa Hmap)
      as (att & Hfa & Hda & _ & Hitems).
    rewrite Hfa, <- app_assoc in Hm. apply app_inv_head in Hm. subst mine.
    exists items'. split.
    + rewrite Hf. apply in_or_app. right. apply in_or_app. left.
      apply in_or_app. right. now left.
    + rewrite Hf.
      replace (before ++ (att ++ [text_part k (stringified w (VArr items'))])
               ++ after)%list
        with (before ++ att
              ++ ([text_part k (stringified w (VArr items'))] ++ after))%list
        by now rewrite !app_assoc.
      apply Hitems; [lia|lia| | |].
      * exact Hb.
      * apply (foreign_app w); [|exact Ha].
        intros i Hi.
        apply (field_part_foreign w (S (draws st)) (draws st')
                 (fun n => In n (keys payload)) Hkeys); [lia|exact Hin].
      * now rewrite !app_assoc in *.
  - intros i Hi. rewrite Hform. apply Hcount. exact Hi.
Qed.

Lemma C2_witness :
  exists cfg st',
    buildFormDataConfig Examples.world Examples.payload_photo_thumbnail start
    = Ok (cfg, st') /\
    (Spec.distinct_ids Examples.world 1 (draws st') /\
     (forall i, 1 <= i < draws st' ->
        ~ In (Spec.attachment_id Examples.world i)
            (keys Examples.payload_photo_thumbnail))) /\
    exists parts,
      body cfg = FormBody "id0" parts /\
      (forall k v,
          lookup k Examples.payload_photo_thumbnail = Some v ->
          Spec.thumbnail_key k = true ->
          nullish v = false -> is_scalar v = false ->
          exists id,
            In (text_part k ("attach://" ++ id)) parts /\
            Spec.resolved_as parts v id) /\
      (forall k o,
          lookup k Examples.payload_photo_thumbnail = Some (VObj o) ->
          Spec.thumbnail_key k = false ->
          ~ In k FORM_DATA_JSON_FIELDS ->
          Spec.describes_media o = true ->
          exists id,
            In (text_part k
                  (stringified Examples.world
                     (VObj (set "media" (attach_ref id) o))))
               parts /\
            Spec.resolved_as parts (Spec.prop_of o "media") id) /\
      (forall k items,
          lookup k Examples.payload_photo_thumbnail = Some (VArr items) ->
          Spec.thumbnail_key k = false ->
          ~ In k FORM_DATA_JSON_FIELDS ->
          exists items',
            In (text_part k (stringified Examples.world (VArr items')))
               parts /\
            Forall2 (Spec.item_resolved parts) items items') /\
      (forall i, 1 <= i < draws st' ->
          Spec.count_name (Spec.attachment_id Examples.world i) parts <= 1).
Proof.
  eexists. eexists. split; [vm_compute; reflexivity|].
  assert (H1 : Spec.distinct_ids Examples.world 1 2)
    by exact (distinct_ids_world 1 2).
  assert (H2 : forall i, 1 <= i < 2 ->
                 ~ In (Spec.attachment_id Examples.world i)
                     (keys Examples.payload_photo_thumbnail)).
  { intros i _. simpl. intros [H|[H|[H|[]]]]; discriminate. }
  split; [split; [exact H1|exact H2]|].
  exact (C2_references_and_parts Examples.world
           Examples.payload_photo_thumbnail _ start _ eq_refl H1 H2).
Defined.
